(** * World Anvil MCP: response cache and request pipeline

    A shallow embedding of [world_anvil_mcp/cache.py] ([InMemoryCache]) and of
    [WorldAnvilClient._request] from [world_anvil_mcp/client.py], followed by
    the properties the specification states about them.

    Conventions of the embedding.
    - Python values that flow through the cache are [PyValue]s; Python's
      [None] is [PyNone].
    - Wall-clock readings ([time.time()]) and TTL sums are floating-point
      numbers in the source; they are idealised as rationals ([Q]), compared
      with [Qle_bool].  The back-off delay is computed as the source
      computes it, in double precision ([Float]).
    - [collections.OrderedDict] is an association list with unique keys whose
      order is the dictionary's iteration order (head = oldest).
    - Exceptions are values of [PyExn]; a call that may raise returns a
      [Result].
    - The functions of Python's runtime library that the code calls but that
      are not part of the repository ([re.compile], [Pattern.match], [int])
      are the methods of the class [PyRuntime]. *)

From Stdlib Require Import List String Ascii ZArith QArith Bool Lia Lqa.
From Stdlib Require Import Qround Qpower Qabs.
From Stdlib Require DecimalString DecimalZ DecimalPos.
From Stdlib Require PrimFloat FloatOps SpecFloat.
Import ListNotations.

Set Warnings "-register-all".

Local Open Scope string_scope.
Local Open Scope Z_scope.

(** ** Python values and exceptions *)

Inductive PyValue : Type :=
| PyNone
| PyBool (b : bool)
| PyInt (z : Z)
| PyFloat (q : Q)
| PyStr (s : string)
| PyList (items : list PyValue)
| PyDict (items : list (string * PyValue)).

(** [v is None] *)
Definition is_none (v : PyValue) : bool :=
  match v with PyNone => true | _ => false end.

(** Python truthiness, as used by [not data.get("success", True)]. *)
Definition truthy (v : PyValue) : bool :=
  match v with
  | PyNone => false
  | PyBool b => b
  | PyInt z => negb (z =? 0)
  | PyFloat q => negb (Qeq_bool q 0)
  | PyStr s => negb (String.eqb s "")
  | PyList l => match l with [] => false | _ => true end
  | PyDict d => match d with [] => false | _ => true end
  end.

(** [isinstance(v, dict)] *)
Definition is_dict (v : PyValue) : bool :=
  match v with PyDict _ => true | _ => false end.

(** [d.get(k, default)] on the items of a dict. *)
Fixpoint dict_get (d : list (string * PyValue)) (k : string) (default : PyValue)
  : PyValue :=
  match d with
  | [] => default
  | (k', v) :: rest => if String.eqb k k' then v else dict_get rest k default
  end.

(** The transport errors of httpx that [_request] catches. *)
Inductive TransportError : Type :=
| TimeoutException (msg : string)
| RequestError (msg : string).

(** Exceptions that leave the modelled code. *)
Inductive PyExn : Type :=
| WorldAnvilAuthError (msg : string)
| WorldAnvilNotFoundError (path : string)
| WorldAnvilRateLimitError (retry_after : Z)
| WorldAnvilAPIError (status_code : option Z)
| ClientNotInitialized                     (* RuntimeError *)
| RequestFailed (attempts : Z) (last_error : option TransportError)
                                           (* RuntimeError *)
| ReError (pattern : string)               (* re.error *)
| KeyError                                 (* popitem on an empty dict *)
| ValueError (text : string)               (* int() of a non-integer *)
| JSONDecodeError                          (* response.json() *)
| OverflowError                            (* int too large to convert to float *)
| OtherError (msg : string).               (* any other exception of the transport *)

Inductive Result (A : Type) : Type :=
| Ok (a : A)
| Raise (e : PyExn).
Arguments Ok {A} a.
Arguments Raise {A} e.

(** ** The runtime library *)

Class PyRuntime : Type := {
  Pattern : Type;
  (** [re.compile(p)]: [None] when it raises [re.error]. *)
  re_compile : string -> option Pattern;
  (** [regex.match(key)] is not [None]. *)
  re_match : Pattern -> string -> bool;
  (** [int(s)]: [None] when it raises [ValueError]. *)
  py_int : string -> option Z
}.

(** ** cache.py *)

Record CacheEntry : Type := mkCacheEntry {
  value : PyValue;
  expires_at : Q
}.

Module OrderedDict.

Definition t : Type := list (string * CacheEntry).

Definition keys (d : t) : list string := map fst d.

(** [key in d] *)
Definition contains (key : string) (d : t) : bool :=
  existsb (String.eqb key) (keys d).

(** [d[key]] *)
Fixpoint lookup (key : string) (d : t) : option CacheEntry :=
  match d with
  | [] => None
  | (k, e) :: rest => if String.eqb key k then Some e else lookup key rest
  end.

(** [del d[key]] *)
Definition delete (key : string) (d : t) : t :=
  filter (fun p => negb (String.eqb key (fst p))) d.

(** [d.move_to_end(key)] for a key that is present. *)
Definition move_to_end (key : string) (d : t) : t :=
  match lookup key d with
  | Some e => (delete key d ++ [(key, e)])%list
  | None => d
  end.

(** [d[key] = e]: an existing key keeps its position, a new one is appended. *)
Fixpoint setitem (key : string) (e : CacheEntry) (d : t) : t :=
  match d with
  | [] => [(key, e)]
  | (k, e') :: rest =>
      if String.eqb key k then (k, e) :: rest
      else (k, e') :: setitem key e rest
  end.

(** [d.popitem(last=False)]: [None] stands for the [KeyError] on an empty
    dictionary. *)
Definition popitem_first (d : t) : option ((string * CacheEntry) * t) :=
  match d with
  | [] => None
  | p :: rest => Some (p, rest)
  end.

End OrderedDict.

Record InMemoryCache : Type := mkCache {
  _default_ttl : Z;
  _max_entries : Z;
  _cache : OrderedDict.t
}.

Definition with_cache (self : InMemoryCache) (d : OrderedDict.t) : InMemoryCache :=
  mkCache (_default_ttl self) (_max_entries self) d.

Record Stats : Type := mkStats {
  current : Z;
  expired : Z;
  max_entries : Z
}.

Module Cache.

(** [InMemoryCache(default_ttl, max_entries)] *)
Definition init (default_ttl max_entries : Z) : InMemoryCache :=
  mkCache default_ttl max_entries [].

(** [now >= entry.expires_at] *)
Definition is_expired (now : Q) (e : CacheEntry) : bool :=
  Qle_bool (expires_at e) now.

(** [get(key)], with [now] the reading of [time.time()]. *)
Definition get (self : InMemoryCache) (key : string) (now : Q)
  : PyValue * InMemoryCache :=
  match OrderedDict.lookup key (_cache self) with
  | None => (PyNone, self)
  | Some entry =>
      if is_expired now entry
      then (PyNone, with_cache self (OrderedDict.delete key (_cache self)))
      else (value entry,
            with_cache self (OrderedDict.move_to_end key (_cache self)))
  end.

(** [set(key, value, ttl)], with [now] the reading of [time.time()]. *)
Definition set (self : InMemoryCache) (key : string) (v : PyValue)
    (ttl : option Z) (now : Q) : Result InMemoryCache :=
  let effective_ttl := match ttl with Some t => t | None => _default_ttl self end in
  let expires := (now + inject_Z effective_ttl)%Q in
  let evicted :=
    if (Z.of_nat (List.length (_cache self)) >=? _max_entries self)
       && negb (OrderedDict.contains key (_cache self))
    then match OrderedDict.popitem_first (_cache self) with
         | None => None
         | Some (_, rest) => Some rest
         end
    else Some (_cache self) in
  match evicted with
  | None => Raise KeyError
  | Some d =>
      Ok (with_cache self
            (OrderedDict.move_to_end key
               (OrderedDict.setitem key (mkCacheEntry v expires) d)))
  end.

(** [invalidate(key)] *)
Definition invalidate (self : InMemoryCache) (key : string) : InMemoryCache :=
  if OrderedDict.contains key (_cache self)
  then with_cache self (OrderedDict.delete key (_cache self))
  else self.

(** [invalidate_pattern(pattern)] *)
Definition invalidate_pattern `{PyRuntime} (self : InMemoryCache)
    (pattern : string) : Result (Z * InMemoryCache) :=
  match re_compile pattern with
  | None => Raise (ReError pattern)
  | Some regex =>
      let keys_to_remove := filter (re_match regex) (OrderedDict.keys (_cache self)) in
      let d := fold_left (fun d key => OrderedDict.delete key d)
                         keys_to_remove (_cache self) in
      Ok (Z.of_nat (List.length keys_to_remove), with_cache self d)
  end.

(** [clear()] *)
Definition clear (self : InMemoryCache) : InMemoryCache :=
  with_cache self [].

(** [stats()], with [now] the reading of [time.time()]. *)
Definition stats (self : InMemoryCache) (now : Q) : Stats :=
  let expired_count :=
    List.length (filter (fun p => is_expired now (snd p)) (_cache self)) in
  mkStats (Z.of_nat (List.length (_cache self)))
          (Z.of_nat expired_count)
          (_max_entries self).

End Cache.

(** *** [invalidate_pattern], statement by statement

    [Cache.invalidate_pattern] gives what the method returns and the cache
    it leaves when it returns.  To follow the cache through a call that
    raises, the method is written here as the sequence of its statements,
    each acting on [self]: a statement returns or raises, and in both cases
    hands on the cache as it has left it. *)

Module Method.

Definition t (A : Type) : Type := InMemoryCache -> Result A * InMemoryCache.

Definition ret {A} (a : A) : t A := fun self => (Ok a, self).

Definition bind {A B} (m : t A) (k : A -> t B) : t B :=
  fun self => match m self with
              | (Ok a, self') => k a self'
              | (Raise e, self') => (Raise e, self')
              end.

(** [regex = re.compile(pattern)] *)
Definition compile `{PyRuntime} (pattern : string) : t Pattern :=
  fun self => match re_compile pattern with
              | Some regex => (Ok regex, self)
              | None => (Raise (ReError pattern), self)
              end.

(** [keys_to_remove = [key for key in self._cache if regex.match(key)]] *)
Definition matching_keys `{PyRuntime} (regex : Pattern) : t (list string) :=
  fun self =>
    (Ok (filter (re_match regex) (OrderedDict.keys (_cache self))), self).

(** [del self._cache[key]], for a key that is present *)
Definition del (key : string) : t unit :=
  fun self => (Ok tt, with_cache self (OrderedDict.delete key (_cache self))).

(** [for key in keys: body(key)] *)
Fixpoint for_each (keys : list string) (body : string -> t unit) : t unit :=
  match keys with
  | [] => ret tt
  | key :: rest => bind (body key) (fun _ => for_each rest body)
  end.

(** [invalidate_pattern(pattern)] *)
Definition invalidate_pattern `{PyRuntime} (pattern : string) : t Z :=
  bind (compile pattern) (fun regex =>
  bind (matching_keys regex) (fun keys_to_remove =>
  bind (for_each keys_to_remove del) (fun _ =>
  ret (Z.of_nat (List.length keys_to_remove))))).

End Method.

(** ** Double-precision arithmetic

    Python's [float] is the IEEE 754 double.  A finite double is
    represented by the rational number it denotes.  [round x] is the double
    nearest to the rational [x], ties going to the even significand: 53
    significant bits, the last of them worth at least [2^-1074].  It stands
    for the rounding of one operation as long as the result is below the
    overflow threshold, which is the case of every sum and product formed
    here.  Converting an [int] that is too large raises [OverflowError]. *)

Module Float.

(** The integer part of the binary logarithm of a positive rational. *)
Definition ilog2 (x : Q) : Z :=
  let e := Z.log2 (Qnum x) - Z.log2 (Zpos (Qden x)) in
  if Qle_bool (2 ^ e) x then e else e - 1.

(** The nearest integer, ties going to the even one. *)
Definition rint (x : Q) : Z :=
  let f := Qfloor x in
  match (x - inject_Z f ?= 1 # 2)%Q with
  | Lt => f
  | Gt => f + 1
  | Eq => if Z.even f then f else f + 1
  end.

(** The exponent of the last bit kept when a positive [x] is rounded. *)
Definition ulp_exponent (x : Q) : Z := Z.max (ilog2 x - 52) (-1074).

Definition round_pos (x : Q) : Q :=
  let s := ulp_exponent x in
  (inject_Z (rint (x / 2 ^ s)) * 2 ^ s)%Q.

Definition round (x : Q) : Q :=
  match (x ?= 0)%Q with
  | Eq => 0%Q
  | Gt => round_pos x
  | Lt => (- round_pos (- x))%Q
  end.

(** [x + y] and [x * y] on floats *)
Definition add (x y : Q) : Q := round (x + y).
Definition mul (x y : Q) : Q := round (x * y).

(** The literal [0.1] *)
Definition tenth : Q := round (1 # 10).

(** The largest finite double, [sys.float_info.max]. *)
Definition max_value : Q := inject_Z ((2 ^ 53 - 1) * 2 ^ 971).

(** The conversion of an [int] operand of a float operation: [None] when
    it raises [OverflowError]. *)
Definition of_int (n : Z) : option Q :=
  let x := round (inject_Z n) in
  if Qle_bool (Qabs x) max_value then Some x else None.

(** The rational a double of the kernel denotes, to compare [round] with
    the arithmetic of the machine. *)
Definition of_spec (f : SpecFloat.spec_float) : option Q :=
  match f with
  | SpecFloat.S754_zero _ => Some 0%Q
  | SpecFloat.S754_finite s m e =>
      let v := (inject_Z (Zpos m) * 2 ^ e)%Q in
      Some (if s then (- v)%Q else v)
  | _ => None
  end.

Definition of_prim (x : PrimFloat.float) : option Q :=
  of_spec (FloatOps.Prim2SF x).

End Float.

(** ** client.py *)

Definition HTTP_STATUS_UNAUTHORIZED : Z := 401.
Definition HTTP_STATUS_FORBIDDEN : Z := 403.
Definition HTTP_STATUS_NOT_FOUND : Z := 404.
Definition HTTP_STATUS_TOO_MANY_REQUESTS : Z := 429.
Definition HTTP_STATUS_CLIENT_ERROR : Z := 400.
Definition HTTP_STATUS_SERVER_ERROR : Z := 500.

(** What [_request] looks at in an [httpx.Response]. *)
Record Response : Type := mkResponse {
  status_code : Z;
  (** [response.headers.get("Retry-After")], when the header is there *)
  retry_after_header : option string;
  text : string;
  (** [response.json()]: [None] when the body is not JSON *)
  json_body : option PyValue
}.

(** What one call of [self._client.request(...)] does. *)
Inductive NetOutcome : Type :=
| Responded (r : Response)
| TransportFailed (e : TransportError)
| Crashed (msg : string).

(** The world outside the process: the [n]-th network call of a run has
    outcome [net n] and takes [latency n] seconds; the [n]-th call of
    [random.random()] returns [random n]. *)
Record Env : Type := mkEnv {
  net : nat -> NetOutcome;
  latency : nat -> Q;
  random : nat -> Q
}.

Inductive Event : Type :=
| EvRequest (method path : string)
| EvSleep (delay : Q).

(** The mutable state a request runs in: the client's cache, the clock, the
    number of network calls and of random draws so far, and the log of
    network calls and sleeps (oldest first). *)
Record State : Type := mkState {
  st_cache : InMemoryCache;
  st_now : Q;
  st_calls : nat;
  st_rolls : nat;
  st_trace : list Event
}.

(** The fields of [WorldAnvilClient] that [_request] reads; [_client] is
    [true] when [self._client] is not [None]. *)
Record WorldAnvilClient : Type := mkClient {
  max_retries : Z;
  default_cache_ttl : Z;
  _client : bool
}.

(** A computation that reads and writes the state and may raise. *)
Definition M (A : Type) : Type := State -> Result A * State.

Definition ret {A} (a : A) : M A := fun st => (Ok a, st).
Definition raise {A} (e : PyExn) : M A := fun st => (Raise e, st).
Definition bind {A B} (m : M A) (k : A -> M B) : M B :=
  fun st => match m st with
            | (Ok a, st') => k a st'
            | (Raise e, st') => (Raise e, st')
            end.

Declare Scope py_scope.
Delimit Scope py_scope with py.
Notation "x <- m ;; k" := (bind m (fun x => k))
  (at level 61, m at next level, right associativity) : py_scope.
Notation "m ;;; k" := (bind m (fun _ => k))
  (at level 61, right associativity) : py_scope.

Definition set_cache (st : State) (c : InMemoryCache) : State :=
  mkState c (st_now st) (st_calls st) (st_rolls st) (st_trace st).

(** [self._cache.get(key)] *)
Definition cache_get (key : string) : M PyValue :=
  fun st => let '(v, c) := Cache.get (st_cache st) key (st_now st) in
            (Ok v, set_cache st c).

(** [self._cache.set(key, value, ttl=ttl)] *)
Definition cache_set (key : string) (v : PyValue) (ttl : option Z) : M unit :=
  fun st => match Cache.set (st_cache st) key v ttl (st_now st) with
            | Ok c => (Ok tt, set_cache st c)
            | Raise e => (Raise e, st)
            end.

(** [self._cache.invalidate_pattern(pattern)]: whether the method returns
    or raises, the client's cache is the cache as the method left it. *)
Definition cache_invalidate_pattern `{PyRuntime} (pattern : string) : M Z :=
  fun st => let '(r, c) := Method.invalidate_pattern pattern (st_cache st) in
            (r, set_cache st c).

(** [await self._client.request(method=method, url=path, ...)] *)
Definition client_request (env : Env) (method path : string) : M NetOutcome :=
  fun st => (Ok (net env (st_calls st)),
             mkState (st_cache st)
                     (st_now st + latency env (st_calls st))%Q
                     (S (st_calls st)) (st_rolls st)
                     (st_trace st ++ [EvRequest method path])%list).

(** [random.random()] *)
Definition random_random (env : Env) : M Q :=
  fun st => (Ok (random env (st_rolls st)),
             mkState (st_cache st) (st_now st) (st_calls st)
                     (S (st_rolls st)) (st_trace st)).

(** [await asyncio.sleep(delay)] *)
Definition asyncio_sleep (delay : Q) : M unit :=
  fun st => (Ok tt,
             mkState (st_cache st) (st_now st + delay)%Q (st_calls st)
                     (st_rolls st) (st_trace st ++ [EvSleep delay])%list).

(** [s.split(sep)] for a one-character separator. *)
Fixpoint split (sep : ascii) (s : string) : list string :=
  match s with
  | EmptyString => [EmptyString]
  | String c rest =>
      if Ascii.eqb c sep then EmptyString :: split sep rest
      else match split sep rest with
           | [] => [String c EmptyString]
           | h :: t => String c h :: t
           end
  end.

(** [sep in s] for a one-character separator. *)
Fixpoint contains_char (sep : ascii) (s : string) : bool :=
  match s with
  | EmptyString => false
  | String c rest => Ascii.eqb c sep || contains_char sep rest
  end.

Definition slash : ascii := "/"%char.

(** [path.split("/")[1] if "/" in path else ""] *)
Definition resource_type_of (path : string) : string :=
  if contains_char slash path then nth 1 (split slash path) "" else "".

(** [method in ("POST", "PATCH", "PUT", "DELETE")] *)
Definition is_write_method (method : string) : bool :=
  existsb (String.eqb method) ["POST"; "PATCH"; "PUT"; "DELETE"].

(** [method == "GET" and cache_key]: the key when the test holds. *)
Definition cacheable (method : string) (cache_key : option string) : option string :=
  match cache_key with
  | Some key => if String.eqb method "GET" && negb (String.eqb key "")
                then Some key else None
  | None => None
  end.

Definition auth_msg_401 : string :=
  "Authentication failed: Invalid API credentials. Check WORLD_ANVIL_APP_KEY and WORLD_ANVIL_USER_TOKEN.".
Definition auth_msg_403 : string :=
  "Authorization failed: Insufficient permissions. Ensure you have Grandmaster guild membership.".

(** The status checks and the success-flag check of the [try] body: the
    parsed body, or the exception raised. *)
Definition check_response `{PyRuntime} (path : string) (response : Response)
  : Result PyValue :=
  let sc := status_code response in
  if sc =? HTTP_STATUS_UNAUTHORIZED then Raise (WorldAnvilAuthError auth_msg_401)
  else if sc =? HTTP_STATUS_FORBIDDEN then Raise (WorldAnvilAuthError auth_msg_403)
  else if sc =? HTTP_STATUS_NOT_FOUND then Raise (WorldAnvilNotFoundError path)
  else if sc =? HTTP_STATUS_TOO_MANY_REQUESTS then
    match retry_after_header response with
    | None => Raise (WorldAnvilRateLimitError 60)
    | Some h => match py_int h with
                | Some retry_after => Raise (WorldAnvilRateLimitError retry_after)
                | None => Raise (ValueError h)
                end
    end
  else if sc >=? HTTP_STATUS_SERVER_ERROR then Raise (WorldAnvilAPIError (Some sc))
  else if sc >=? HTTP_STATUS_CLIENT_ERROR then Raise (WorldAnvilAPIError (Some sc))
  else
    match json_body response with
    | None => Raise JSONDecodeError
    | Some data =>
        match data with
        | PyDict items =>
            if negb (truthy (dict_get items "success" (PyBool true)))
            then Raise (WorldAnvilAPIError (Some sc))
            else Ok data
        | _ => Ok data
        end
    end.

Definition lift {A} (r : Result A) : M A := fun st => (r, st).

Section Request.

Context `{PyRuntime}.
Variable env : Env.
Variable self : WorldAnvilClient.
Variables method path : string.
Variable cache_key : option string.
Variable cache_ttl : option Z.

Local Open Scope py_scope.

(** The part of the [try] body after a response has arrived. *)
Definition handle_response (response : Response) : M PyValue :=
  data <- lift (check_response path response) ;;
  match cacheable method cache_key with
   | Some key =>
       let effective_ttl :=
         match cache_ttl with Some t => t | None => default_cache_ttl self end in
       cache_set key data (Some effective_ttl)
   | None => ret tt
   end ;;;
  (if is_write_method method then
     let resource_type := resource_type_of path in
     if negb (String.eqb resource_type "")
     then _ <- cache_invalidate_pattern (".*" ++ resource_type ++ ".*") ;; ret tt
     else ret tt
   else ret tt) ;;;
  ret data.

(** The value of [(2**attempt) + (random.random() * 0.1)]: the product and
    the sum are those of doubles, the [int] [2**attempt] being converted
    for the sum. *)
Definition backoff_delay (attempt : Z) (r : Q) : Q :=
  Float.add (Float.round (inject_Z (2 ^ attempt))) (Float.mul r Float.tenth).

(** [(2**attempt) + (random.random() * 0.1)], which raises when the [int]
    does not convert. *)
Definition backoff (attempt : Z) (r : Q) : Result Q :=
  match Float.of_int (2 ^ attempt) with
  | Some _ => Ok (backoff_delay attempt r)
  | None => Raise OverflowError
  end.

(** The handler shared by the two [except] clauses. *)
Definition on_transport_error (attempt : Z) : M unit :=
  if attempt <? max_retries self - 1
  then r <- random_random env ;;
       delay <- lift (backoff attempt r) ;;
       asyncio_sleep delay
  else ret tt.

(** [for attempt in range(self.max_retries)], from iteration [attempt] with
    [remaining] iterations to go, and what follows the loop. *)
Fixpoint attempts (remaining : nat) (attempt : Z)
    (last_error : option TransportError) : M PyValue :=
  match remaining with
  | O => raise (RequestFailed (max_retries self) last_error)
  | S remaining' =>
      outcome <- client_request env method path ;;
      match outcome with
      | Responded response => handle_response response
      | TransportFailed e =>
          on_transport_error attempt ;;;
          attempts remaining' (attempt + 1) (Some e)
      | Crashed msg => raise (OtherError msg)
      end
  end.

(** The cache consultation that opens [_request]: the value of [cached],
    [None] when the cache is not consulted. *)
Definition consult_cache : M PyValue :=
  match cacheable method cache_key with
  | Some key => cache_get key
  | None => ret PyNone
  end.

(** [WorldAnvilClient._request] *)
Definition _request : M PyValue :=
  cached <- consult_cache ;;
  if negb (is_none cached) then ret cached
  else if negb (_client self) then raise ClientNotInitialized
  else attempts (Z.to_nat (max_retries self)) 0 None.

End Request.

(** ** A concrete runtime for running the model

    [MiniRe] is a matcher for a fragment of Python's regular expressions:
    literal characters, [.] (any character but a newline), the postfix
    operators [*], [+] and [?], grouping with parentheses, alternation with
    [|] and a backslash before a punctuation character.  [compile] answers
    [None] both for the patterns of the fragment that [re.compile] rejects
    (an unbalanced parenthesis, a repetition with nothing before it, a
    doubled repetition, a backslash at the end) and for patterns outside
    the fragment (character sets, counted repetition, anchors, class
    escapes, lazy and possessive repetition).  [matches r s] says whether
    some prefix of [s] is in the language of [r], which is when
    [Pattern.match] finds a match.  The general theorems below hold for
    every [PyRuntime]; [MiniRe] only serves to run the model on concrete
    patterns of the fragment. *)

Module MiniRe.

Inductive regex : Type :=
| Void
| Eps
| Chr (c : ascii)
| Dot
| Cat (r1 r2 : regex)
| Alt (r1 r2 : regex)
| Star (r : regex).

Definition newline : ascii := "010"%char.

Fixpoint nullable (r : regex) : bool :=
  match r with
  | Void => false
  | Eps => true
  | Chr _ => false
  | Dot => false
  | Cat r1 r2 => nullable r1 && nullable r2
  | Alt r1 r2 => nullable r1 || nullable r2
  | Star _ => true
  end.

Definition cat (r1 r2 : regex) : regex :=
  match r1, r2 with
  | Void, _ => Void
  | _, Void => Void
  | Eps, _ => r2
  | _, Eps => r1
  | _, _ => Cat r1 r2
  end.

Definition alt (r1 r2 : regex) : regex :=
  match r1, r2 with
  | Void, _ => r2
  | _, Void => r1
  | _, _ => Alt r1 r2
  end.

(** The Brzozowski derivative. *)
Fixpoint deriv (c : ascii) (r : regex) : regex :=
  match r with
  | Void => Void
  | Eps => Void
  | Chr c' => if Ascii.eqb c c' then Eps else Void
  | Dot => if Ascii.eqb c newline then Void else Eps
  | Cat r1 r2 =>
      if nullable r1
      then alt (cat (deriv c r1) r2) (deriv c r2)
      else cat (deriv c r1) r2
  | Alt r1 r2 => alt (deriv c r1) (deriv c r2)
  | Star r1 => cat (deriv c r1) (Star r1)
  end.

(** Some prefix of [s] is in the language of [r]. *)
Fixpoint matches (r : regex) (s : string) : bool :=
  match s with
  | EmptyString => nullable r
  | String c rest => nullable r || matches (deriv c r) rest
  end.

(** A parenthesis level under construction: the alternatives closed so
    far, the atoms of the current alternative (newest first) and whether
    the newest atom already carries a repetition. *)
Record frame : Type := mkFrame {
  alts : option regex;
  atoms : list regex;
  repeated : bool
}.

Definition empty_frame : frame := mkFrame None [] false.

Definition branch (f : frame) : regex :=
  fold_left (fun acc a => Cat a acc) (atoms f) Eps.

Definition close (f : frame) : regex :=
  match alts f with
  | None => branch f
  | Some a => Alt a (branch f)
  end.

Definition push (a : regex) (f : frame) : frame :=
  mkFrame (alts f) (a :: atoms f) false.

Definition bar (f : frame) : frame :=
  mkFrame (Some (close f)) [] false.

Definition repeat (op : regex -> regex) (f : frame) : option frame :=
  match atoms f with
  | [] => None
  | a :: rest =>
      if repeated f then None
      else Some (mkFrame (alts f) (op a :: rest) true)
  end.

Definition is_punct (c : ascii) : bool :=
  let n := nat_of_ascii c in
  ((33 <=? n) && (n <=? 47) || (58 <=? n) && (n <=? 64)
   || (91 <=? n) && (n <=? 96) || (123 <=? n) && (n <=? 126))%nat.

Definition unsupported (c : ascii) : bool :=
  existsb (Ascii.eqb c) ["["; "{"; "^"; "$"]%char.

Fixpoint parse (s : string) (cur : frame) (stack : list frame) : option regex :=
  match s with
  | EmptyString =>
      match stack with
      | [] => Some (close cur)
      | _ :: _ => None
      end
  | String c rest =>
      if Ascii.eqb c "("%char then parse rest empty_frame (cur :: stack)
      else if Ascii.eqb c ")"%char then
        match stack with
        | [] => None
        | parent :: stack' => parse rest (push (close cur) parent) stack'
        end
      else if Ascii.eqb c "|"%char then parse rest (bar cur) stack
      else if Ascii.eqb c "*"%char then
        match repeat Star cur with
        | Some f => parse rest f stack
        | None => None
        end
      else if Ascii.eqb c "+"%char then
        match repeat (fun a => Cat a (Star a)) cur with
        | Some f => parse rest f stack
        | None => None
        end
      else if Ascii.eqb c "?"%char then
        match repeat (fun a => Alt a Eps) cur with
        | Some f => parse rest f stack
        | None => None
        end
      else if Ascii.eqb c "\"%char then
        match rest with
        | EmptyString => None
        | String c' rest' =>
            if is_punct c' then parse rest' (push (Chr c') cur) stack
            else None
        end
      else if Ascii.eqb c "."%char then parse rest (push Dot cur) stack
      else if unsupported c then None
      else parse rest (push (Chr c) cur) stack
  end.

Definition compile (pattern : string) : option regex :=
  parse pattern empty_frame [].

(** [int] on an optional sign followed by decimal digits; the other
    spellings [int] accepts are outside the fragment. *)
Definition digit (c : ascii) : option Z :=
  let n := nat_of_ascii c in
  if ((48 <=? n) && (n <=? 57))%nat then Some (Z.of_nat (n - 48)) else None.

Fixpoint digits (s : string) (acc : Z) : option Z :=
  match s with
  | EmptyString => Some acc
  | String c rest =>
      match digit c with
      | Some d => digits rest (10 * acc + d)
      | None => None
      end
  end.

Definition int (s : string) : option Z :=
  match s with
  | EmptyString => None
  | String c rest =>
      if Ascii.eqb c "-"%char then
        match rest with
        | EmptyString => None
        | _ => option_map Z.opp (digits rest 0)
        end
      else if Ascii.eqb c "+"%char then
        match rest with
        | EmptyString => None
        | _ => digits rest 0
        end
      else digits s 0
  end.

End MiniRe.

Definition mini_runtime : PyRuntime :=
  {| Pattern := MiniRe.regex;
     re_compile := MiniRe.compile;
     re_match := MiniRe.matches;
     py_int := MiniRe.int |}.

(** ** Sequences of cache operations *)

Inductive CacheOp : Type :=
| OpGet (key : string) (now : Q)
| OpSet (key : string) (v : PyValue) (ttl : option Z) (now : Q)
| OpInvalidate (key : string)
| OpInvalidatePattern (pattern : string)
| OpClear
| OpStats (now : Q).

(** The cache after one operation; an operation that raises leaves the
    cache as the exception found it. *)
Definition step `{PyRuntime} (c : InMemoryCache) (op : CacheOp) : InMemoryCache :=
  match op with
  | OpGet key now => snd (Cache.get c key now)
  | OpSet key v ttl now =>
      match Cache.set c key v ttl now with
      | Ok c' => c'
      | Raise _ => c
      end
  | OpInvalidate key => Cache.invalidate c key
  | OpInvalidatePattern pattern => snd (Method.invalidate_pattern pattern c)
  | OpClear => Cache.clear c
  | OpStats _ => c
  end.

Definition run `{PyRuntime} (ops : list CacheOp) (c : InMemoryCache) : InMemoryCache :=
  fold_left step ops c.

(** The keys of a cache in recency order, least recently used first. *)
Definition cache_keys (c : InMemoryCache) : list string :=
  OrderedDict.keys (_cache c).

Definition cache_len (c : InMemoryCache) : Z :=
  Z.of_nat (List.length (_cache c)).

(** ** Vocabulary of the properties *)

(** The entry [set] stores. *)
Definition entry_for (c : InMemoryCache) (v : PyValue) (ttl : option Z) (now : Q)
  : CacheEntry :=
  mkCacheEntry v
    (now + inject_Z (match ttl with Some t => t | None => _default_ttl c end))%Q.

(** The invariant of a cache: its keys are distinct and it holds at most
    [max_entries] entries (none when [max_entries] is not positive). *)
Definition wf (c : InMemoryCache) : Prop :=
  NoDup (cache_keys c) /\ cache_len c <= Z.max 0 (_max_entries c).

(** [set(k, v, ttl)] at time [now], as an operation. *)
Definition set_op (item : string * PyValue * option Z * Q) : CacheOp :=
  let '(k, v, ttl, now) := item in OpSet k v ttl now.

Definition item_key (item : string * PyValue * option Z * Q) : string :=
  fst (fst (fst item)).

(** "A get-hit on a key immediately before the capacity-triggering insert
    protects that key", for a cache of capacity [cap] that is full. *)
Definition get_hit_protects (cap : Z) : Prop :=
  forall (c : InMemoryCache) (k k' : string) (e : CacheEntry) (now now' : Q)
         (v' : PyValue) (ttl' : option Z),
    wf c -> _max_entries c = cap -> cache_len c = cap ->
    OrderedDict.lookup k (_cache c) = Some e ->
    Cache.is_expired now e = false ->
    OrderedDict.contains k' (_cache c) = false ->
    fst (Cache.get c k now) = value e
    /\ exists c2, Cache.set (snd (Cache.get c k now)) k' v' ttl' now' = Ok c2
                  /\ OrderedDict.lookup k (_cache c2) = Some e.

(** The number of network calls in a log. *)
Definition is_request (ev : Event) : bool :=
  match ev with EvRequest _ _ => true | EvSleep _ => false end.

Definition network_calls (trace : list Event) : nat :=
  List.length (filter is_request trace).

(** The delays slept in a log. *)
Fixpoint sleeps (trace : list Event) : list Q :=
  match trace with
  | [] => []
  | EvRequest _ _ :: rest => sleeps rest
  | EvSleep d :: rest => d :: sleeps rest
  end.

(** The state right after one network call made in state [st]. *)
Definition after_call (env : Env) (method path : string) (st : State) : State :=
  mkState (st_cache st) (st_now st + latency env (st_calls st))%Q
          (S (st_calls st)) (st_rolls st)
          (st_trace st ++ [EvRequest method path])%list.

(** The failures that are not retried, with the response that causes each:
    the classification of the specification. *)
Inductive classified `{PyRuntime} (path : string) (r : Response) : PyExn -> Prop :=
| cl_unauthorized :
    status_code r = 401 ->
    classified path r (WorldAnvilAuthError auth_msg_401)
| cl_forbidden :
    status_code r = 403 ->
    classified path r (WorldAnvilAuthError auth_msg_403)
| cl_not_found :
    status_code r = 404 ->
    classified path r (WorldAnvilNotFoundError path)
| cl_rate_limit_default :
    status_code r = 429 -> retry_after_header r = None ->
    classified path r (WorldAnvilRateLimitError 60)
| cl_rate_limit_advised (h : string) (n : Z) :
    status_code r = 429 -> retry_after_header r = Some h -> py_int h = Some n ->
    classified path r (WorldAnvilRateLimitError n)
| cl_other_status :
    400 <= status_code r ->
    status_code r <> 401 -> status_code r <> 403 ->
    status_code r <> 404 -> status_code r <> 429 ->
    classified path r (WorldAnvilAPIError (Some (status_code r)))
| cl_success_flag (items : list (string * PyValue)) :
    status_code r < 400 ->
    json_body r = Some (PyDict items) ->
    dict_get items "success" (PyBool true) = PyBool false ->
    classified path r (WorldAnvilAPIError (Some (status_code r))).

(** An environment in which every network call is answered [200] with a
    small JSON object, at once, and every random draw is [0]. *)
Definition ok_body : PyValue := PyDict [("id", PyStr "w1"); ("name", PyStr "Alpha")].

Definition env_ok : Env :=
  mkEnv (fun _ => Responded (mkResponse 200 None "" (Some ok_body)))
        (fun _ => 0%Q) (fun _ => 0%Q).

(** An environment in which every network call times out after 30 seconds
    and every random draw is [1/2]. *)
Definition env_down : Env :=
  mkEnv (fun _ => TransportFailed (TimeoutException "timeout"))
        (fun _ => 30%Q) (fun _ => (1 # 2)%Q).

(** A client as [WorldAnvilClient(app_key, user_token)] makes it, inside and
    outside its context manager, and the state of a new one at time 0. *)
Definition client_open : WorldAnvilClient := mkClient 3 300 true.
Definition client_closed : WorldAnvilClient := mkClient 3 300 false.
Definition state0 : State := mkState (Cache.init 300 1000) 0%Q 0 0 [].

(** The log of a request whose [n] attempts all fail at the transport, the
    first of them being attempt number [a] and the next random draw number
    [rolls]: a network call, then a sleep and a network call for every
    further attempt. *)
Fixpoint expected_trace (env : Env) (method path : string)
    (n a rolls : nat) : list Event :=
  match n with
  | O => []
  | S n' =>
      EvRequest method path ::
      match n' with
      | O => []
      | S _ =>
          EvSleep (backoff_delay (Z.of_nat a) (random env rolls)) ::
          expected_trace env method path n' (S a) (S rolls)
      end
  end.

(** An environment in which the first network call is answered with the
    old name of a world and every later one with the new name. *)
Definition world_named (name : string) : PyValue :=
  PyDict [("id", PyStr "world-123"); ("name", PyStr name)].


(** The part of the state a request leaves alone unless it calls the
    network, draws a random number or sleeps. *)
Definition same_world (st st' : State) : Prop :=
  st_now st' = st_now st /\ st_calls st' = st_calls st
  /\ st_rolls st' = st_rolls st /\ st_trace st' = st_trace st.

(** The log only grows, and the call counter with it. *)
Definition grows (st st' : State) : Prop :=
  (exists evs, st_trace st' = (st_trace st ++ evs)%list)
  /\ (st_calls st <= st_calls st')%nat.

(** The last [n] elements of a list. *)
Definition last_n {A : Type} (n : nat) (l : list A) : list A :=
  skipn (List.length l - n) l.

(** ** The client's life cycle and sequences of requests *)

(** [WorldAnvilClient.__init__]: the fields of a new client and its cache,
    which has room for 1000 entries. *)
Definition client_init (retries cache_ttl : Z) : WorldAnvilClient :=
  mkClient retries cache_ttl false.

Definition client_cache_init (cache_ttl : Z) : InMemoryCache :=
  Cache.init cache_ttl 1000.

(** [__aenter__] and [__aexit__], as far as [_request] can tell. *)
Definition aenter (self : WorldAnvilClient) : WorldAnvilClient :=
  mkClient (max_retries self) (default_cache_ttl self) true.

Definition aexit (self : WorldAnvilClient) : WorldAnvilClient :=
  mkClient (max_retries self) (default_cache_ttl self) false.

(** One call of [_request], with the client as it is at the time. *)
Record Call : Type := mkCall {
  call_client : WorldAnvilClient;
  call_method : string;
  call_path : string;
  call_key : option string;
  call_ttl : option Z
}.

Definition do_call `{PyRuntime} (env : Env) (st : State) (c : Call)
  : Result PyValue * State :=
  _request env (call_client c) (call_method c) (call_path c) (call_key c)
           (call_ttl c) st.

(** The state after a sequence of calls, whatever each returned or raised. *)
Definition run_calls `{PyRuntime} (env : Env) (calls : list Call) (st : State)
  : State :=
  fold_left (fun st c => snd (do_call env st c)) calls st.

(** What a request keeps: distinct keys, the capacity, and with it the
    bound on the number of entries. *)
Definition cache_ok (st : State) : Prop :=
  wf (st_cache st) /\ 1 <= _max_entries (st_cache st).

Definition keeps (st st' : State) : Prop :=
  cache_ok st' /\ _max_entries (st_cache st') = _max_entries (st_cache st).

(** A request without a cache key only removes entries, and removes none
    unless its verb is a mutating one. *)
Definition shrinks (method : string) (st st' : State) : Prop :=
  (forall k e,
      OrderedDict.lookup k (_cache (st_cache st')) = Some e ->
      OrderedDict.lookup k (_cache (st_cache st)) = Some e)
  /\ (is_write_method method = false -> st_cache st' = st_cache st).

(** ** The endpoint methods of the client

    What they add to [_request]: the verb, the path, the cache key and its
    TTL.  The query parameters and the JSON body they pass only reach the
    transport and are left out, as in [_request]. *)

(** [str(n)] of an integer: its decimal digits, after a [-] when negative. *)
Definition py_str (n : Z) : string :=
  DecimalString.NilZero.string_of_int (Z.to_int n).

(** The cache keys the methods build. *)
Definition identity_key : string := "identity".

Definition user_key (granularity : Z) : string :=
  "user:self:" ++ py_str granularity.

Definition worlds_key (granularity : Z) : string :=
  "worlds:list:" ++ py_str granularity.

Definition world_key (world_id : string) (granularity : Z) : string :=
  "world:" ++ world_id ++ ":" ++ py_str granularity.

(** [response.get("worlds", response) if isinstance(response, dict) else
    response] *)
Definition normalize_worlds (response : PyValue) : PyValue :=
  match response with
  | PyDict items => dict_get items "worlds" response
  | _ => response
  end.

Definition get_identity `{PyRuntime} (env : Env) (self : WorldAnvilClient)
  : M PyValue :=
  _request env self "GET" "/identity" (Some identity_key) (Some 3600).

Definition get_current_user `{PyRuntime} (env : Env) (self : WorldAnvilClient)
    (granularity : Z) : M PyValue :=
  _request env self "GET" "/user" (Some (user_key granularity)) (Some 3600).

Definition list_worlds `{PyRuntime} (env : Env) (self : WorldAnvilClient)
    (granularity : Z) : M PyValue :=
  bind (_request env self "GET" "/user/worlds" (Some (worlds_key granularity))
                 (Some 300))
       (fun response => ret (normalize_worlds response)).

Definition get_world `{PyRuntime} (env : Env) (self : WorldAnvilClient)
    (world_id : string) (granularity : Z) : M PyValue :=
  _request env self "GET" ("/world/" ++ world_id)
           (Some (world_key world_id granularity)) (Some 300).

Definition update_world `{PyRuntime} (env : Env) (self : WorldAnvilClient)
    (world_id : string) : M PyValue :=
  _request env self "PATCH" ("/world/" ++ world_id) None None.

(** ** Recency

    A [set] that returns uses its key, and so does a [get] that hits; no
    other operation uses a key. *)
Definition use_of (c : InMemoryCache) (op : CacheOp) : option string :=
  match op with
  | OpGet key now =>
      match OrderedDict.lookup key (_cache c) with
      | Some entry => if Cache.is_expired now entry then None else Some key
      | None => None
      end
  | OpSet key v ttl now =>
      match Cache.set c key v ttl now with
      | Ok _ => Some key
      | Raise _ => None
      end
  | _ => None
  end.

(** The log of uses, most recent first, after one more operation. *)
Definition log_use (c : InMemoryCache) (op : CacheOp) (log : list string)
  : list string :=
  match use_of c op with
  | Some key => key :: log
  | None => log
  end.

(** The keys used along a sequence of operations, most recent first. *)
Fixpoint uses `{PyRuntime} (ops : list CacheOp) (c : InMemoryCache)
    (log : list string) : list string :=
  match ops with
  | [] => log
  | op :: rest => uses rest (step c op) (log_use c op log)
  end.

(** How many uses ago a key was last used: [0] for the key used last, the
    length of the log for a key never used. *)
Fixpoint age (log : list string) (k : string) : nat :=
  match log with
  | [] => O
  | k' :: rest => if String.eqb k k' then O else S (age rest k)
  end.

(** Every key of the list was last used before all the keys after it. *)
Fixpoint ordered_by_use (log : list string) (keys : list string) : Prop :=
  match keys with
  | [] => True
  | k :: rest =>
      Forall (fun k' => (age log k' < age log k)%nat) rest
      /\ ordered_by_use log rest
  end.

(** What the operations keep: the keys stand in the order of their last
    use, and every key stored has been used. *)
Definition recency_inv (c : InMemoryCache) (log : list string) : Prop :=
  ordered_by_use log (cache_keys c)
  /\ (forall k, In k (cache_keys c) -> In k log).

(** The value of [(2**attempt) + 0.1], the sum of doubles. *)
Definition backoff_cap (attempt : Z) : Q :=
  Float.add (Float.round (inject_Z (2 ^ attempt))) Float.tenth.

(** The largest double below 1, the largest value [random.random()] can
    return, and an environment in which every network call times out at
    once and every random draw is that value. *)
Definition top_random : Q := (1 - (1 # 2 ^ 53))%Q.

Definition env_down_top : Env :=
  mkEnv (fun _ => TransportFailed (TimeoutException "timeout"))
        (fun _ => 0%Q) (fun _ => top_random).

(** The double [m * 2^e] of the kernel. *)
Definition prim_float (m : positive) (e : Z) : PrimFloat.float :=
  FloatOps.SF2Prim (SpecFloat.S754_finite false m e).

(** [(2**i) + (r * 0.1)] for the double [r = m * 2^e], computed by the
    kernel's floating-point unit, and whether it denotes the rational that
    [backoff_delay] gives. *)
Definition machine_delay (i : Z) (m : positive) (e : Z) : option Q :=
  Float.of_prim
    (PrimFloat.add (prim_float 1 i)
       (PrimFloat.mul (prim_float m e) (prim_float 3602879701896397 (-55)))).

Definition delay_agrees (case : Z * positive * Z) : bool :=
  let '(i, m, e) := case in
  match machine_delay i m e with
  | Some q => Qeq_bool q (backoff_delay i (inject_Z (Zpos m) * 2 ^ e))
  | None => false
  end.



(** * Properties *)

(** ** Rounding to a double *)

Module FloatFacts.
Import Float.
Local Open Scope Q_scope.

Lemma two_neq_0 : ~ 2 == 0.
Proof. discriminate. Qed.

Lemma pow2_pos (e : Z) : 0 < 2 ^ e.
Proof. apply Qpower_0_lt. reflexivity. Qed.

Lemma pow2_Z (a : Z) : (0 <= a)%Z -> inject_Z (2 ^ a) == 2 ^ a.
Proof. intros Ha. now rewrite Zpower_Qpower. Qed.

Lemma pow2_le (n m : Z) : (n <= m)%Z -> 2 ^ n <= 2 ^ m.
Proof. intros H. apply Qpower_le_compat_l; [exact H | discriminate]. Qed.

Lemma pow2_lt_inv (n m : Z) : 2 ^ n < 2 ^ m -> (n < m)%Z.
Proof. intros H. apply (Qpower_lt_compat_l_inv 2); [exact H | reflexivity]. Qed.

(** [ilog2 x] is the integer part of the binary logarithm of [x]. *)
Lemma ilog2_spec (x : Q) : 0 < x -> 2 ^ ilog2 x <= x /\ x < 2 ^ (ilog2 x + 1).
Proof.
  intros Hx. unfold ilog2.
  destruct x as [n d]. cbn [Qnum Qden].
  assert (Hn : (0 < n)%Z) by (unfold Qlt in Hx; simpl in Hx; lia).
  set (a := Z.log2 n). set (b := Z.log2 (Z.pos d)).
  assert (Ha : (2 ^ a <= n < 2 ^ (a + 1))%Z).
  { pose proof (Z.log2_spec n Hn) as Hs. unfold Z.succ in Hs. exact Hs. }
  assert (Hb : (2 ^ b <= Z.pos d < 2 ^ (b + 1))%Z).
  { pose proof (Z.log2_spec (Z.pos d) ltac:(lia)) as Hs. unfold Z.succ in Hs.
    exact Hs. }
  assert (Ha0 : (0 <= a)%Z) by apply Z.log2_nonneg.
  assert (Hb0 : (0 <= b)%Z) by apply Z.log2_nonneg.
  assert (Hup : n # d < 2 ^ (a - b + 1)).
  { replace (a - b + 1)%Z with ((a + 1) - b)%Z by lia.
    rewrite Qpower_minus by apply two_neq_0.
    apply Qlt_shift_div_l; [apply pow2_pos|].
    rewrite <- !pow2_Z by lia.
    unfold Qlt, Qmult. cbn [Qnum Qden inject_Z].
    assert (0 < 2 ^ b)%Z by (apply Z.pow_pos_nonneg; lia).
    nia. }
  assert (Hlow : 2 ^ (a - b - 1) <= n # d).
  { replace (a - b - 1)%Z with (a - (b + 1))%Z by lia.
    rewrite Qpower_minus by apply two_neq_0.
    apply Qle_shift_div_r; [apply pow2_pos|].
    rewrite <- !pow2_Z by lia.
    unfold Qle, Qmult. cbn [Qnum Qden inject_Z].
    assert (0 < 2 ^ a)%Z by (apply Z.pow_pos_nonneg; lia).
    nia. }
  destruct (Qle_bool (2 ^ (a - b)) (n # d)) eqn:E.
  - apply Qle_bool_iff in E. split; [exact E | exact Hup].
  - split; [exact Hlow|].
    replace (a - b - 1 + 1)%Z with (a - b)%Z by lia.
    apply Qnot_le_lt. intros Hle. apply Qle_bool_iff in Hle. congruence.
Qed.

Lemma ilog2_unique (x : Q) (e : Z) :
  2 ^ e <= x -> x < 2 ^ (e + 1) -> ilog2 x = e.
Proof.
  intros H1 H2.
  assert (Hx : 0 < x) by (eapply Qlt_le_trans; [apply (pow2_pos e) | exact H1]).
  destruct (ilog2_spec x Hx) as [S1 S2].
  assert (ilog2 x < e + 1)%Z
    by (apply pow2_lt_inv; eapply Qle_lt_trans; eassumption).
  assert (e < ilog2 x + 1)%Z
    by (apply pow2_lt_inv; eapply Qle_lt_trans; eassumption).
  lia.
Qed.

Lemma ilog2_mono (x y : Q) : 0 < x -> x <= y -> (ilog2 x <= ilog2 y)%Z.
Proof.
  intros Hx Hxy.
  assert (Hy : 0 < y) by (eapply Qlt_le_trans; eassumption).
  destruct (ilog2_spec x Hx) as [S1 _]. destruct (ilog2_spec y Hy) as [_ S2].
  assert (ilog2 x < ilog2 y + 1)%Z; [|lia].
  apply pow2_lt_inv. eapply Qle_lt_trans; [exact S1|].
  eapply Qle_lt_trans; eassumption.
Qed.

(** Rounding to the nearest integer. *)
Lemma rint_bounds (x : Q) : (Qfloor x <= rint x <= Qfloor x + 1)%Z.
Proof.
  unfold rint. destruct (x - inject_Z (Qfloor x) ?= 1 # 2); [|lia|lia].
  destruct (Z.even (Qfloor x)); lia.
Qed.

Lemma rint_mono (x y : Q) : x <= y -> (rint x <= rint y)%Z.
Proof.
  intros Hxy. pose proof (Qfloor_resp_le x y Hxy) as Hf.
  pose proof (rint_bounds x) as Bx. pose proof (rint_bounds y) as By.
  destruct (Z.eq_dec (Qfloor x) (Qfloor y)) as [Heq|Hne]; [|lia].
  unfold rint. rewrite Heq.
  destruct (Qcompare_spec (x - inject_Z (Qfloor y)) (1 # 2)) as [Ex|Ex|Ex];
    destruct (Qcompare_spec (y - inject_Z (Qfloor y)) (1 # 2)) as [Ey|Ey|Ey];
    try destruct (Z.even (Qfloor y)); try lia; exfalso; lra.
Qed.

Lemma rint_Z (z : Z) : rint (inject_Z z) = z.
Proof.
  unfold rint. rewrite Qfloor_Z.
  destruct (Qcompare_spec (inject_Z z - inject_Z z) (1 # 2)) as [E|E|E];
    [exfalso; lra | reflexivity | exfalso; lra].
Qed.

Lemma rint_ge (x : Q) (k : Z) : inject_Z k <= x -> (k <= rint x)%Z.
Proof. intros H. rewrite <- (rint_Z k). now apply rint_mono. Qed.

Lemma rint_le (x : Q) (k : Z) : x <= inject_Z k -> (rint x <= k)%Z.
Proof. intros H. rewrite <- (rint_Z k). now apply rint_mono. Qed.

Lemma inject_Z_le (a b : Z) : (a <= b)%Z -> inject_Z a <= inject_Z b.
Proof. intros H. now rewrite <- Zle_Qle. Qed.

(** Scaling by the unit in the last place. *)
Lemma scaled_lt (x : Q) : 0 < x -> x / 2 ^ ulp_exponent x < inject_Z (2 ^ 53).
Proof.
  intros Hx. destruct (ilog2_spec x Hx) as [_ Hup].
  apply Qlt_shift_div_r; [apply pow2_pos|].
  rewrite pow2_Z by lia. rewrite <- Qpower_plus by apply two_neq_0.
  eapply Qlt_le_trans; [exact Hup|]. apply pow2_le. unfold ulp_exponent. lia.
Qed.

Lemma scaled_ge (x : Q) :
  0 < x -> (-1074 < ulp_exponent x)%Z ->
  inject_Z (2 ^ 52) <= x / 2 ^ ulp_exponent x.
Proof.
  intros Hx Hs. destruct (ilog2_spec x Hx) as [Hlow _].
  apply Qle_shift_div_l; [apply pow2_pos|].
  rewrite pow2_Z by lia. rewrite <- Qpower_plus by apply two_neq_0.
  eapply Qle_trans; [|exact Hlow]. apply pow2_le. unfold ulp_exponent in *. lia.
Qed.

Lemma round_pos_nonneg (x : Q) : 0 < x -> 0 <= round_pos x.
Proof.
  intros Hx. unfold round_pos. apply Qmult_le_0_compat.
  - change 0 with (inject_Z 0). apply inject_Z_le. apply rint_ge.
    apply Qle_shift_div_l; [apply pow2_pos|].
    change (inject_Z 0) with 0. rewrite Qmult_0_l. now apply Qlt_le_weak.
  - apply Qlt_le_weak, pow2_pos.
Qed.

Lemma round_pos_mono (x y : Q) : 0 < x -> x <= y -> round_pos x <= round_pos y.
Proof.
  intros Hx Hxy.
  assert (Hy : 0 < y) by (eapply Qlt_le_trans; eassumption).
  pose proof (ilog2_mono x y Hx Hxy) as He.
  assert (Hs : (ulp_exponent x <= ulp_exponent y)%Z) by (unfold ulp_exponent; lia).
  unfold round_pos.
  destruct (Z.eq_dec (ulp_exponent x) (ulp_exponent y)) as [Heq|Hne].
  - rewrite Heq. apply Qmult_le_compat_r; [|apply Qlt_le_weak, pow2_pos].
    apply inject_Z_le, rint_mono.
    apply Qmult_le_compat_r; [exact Hxy|].
    apply Qlt_le_weak, Qinv_lt_0_compat, pow2_pos.
  - apply Qle_trans with (2 ^ (ulp_exponent x + 53)).
    + rewrite Z.add_comm, Qpower_plus by apply two_neq_0.
      apply Qmult_le_compat_r; [|apply Qlt_le_weak, pow2_pos].
      rewrite <- (pow2_Z 53) by lia. apply inject_Z_le, rint_le.
      apply Qlt_le_weak, scaled_lt, Hx.
    + apply Qle_trans with (2 ^ (ulp_exponent y + 52)); [apply pow2_le; lia|].
      rewrite Z.add_comm, Qpower_plus by apply two_neq_0.
      apply Qmult_le_compat_r; [|apply Qlt_le_weak, pow2_pos].
      rewrite <- (pow2_Z 52) by lia. apply inject_Z_le, rint_ge.
      apply scaled_ge; [exact Hy | unfold ulp_exponent in *; lia].
Qed.

Lemma round_0 (x : Q) : x == 0 -> round x = 0.
Proof. intros H. unfold round. apply Qeq_alt in H. now rewrite H. Qed.

Lemma round_of_pos (x : Q) : 0 < x -> round x = round_pos x.
Proof. intros H. unfold round. apply Qgt_alt in H. now rewrite H. Qed.

(** Rounding is monotone, on the numbers that are not negative. *)
Lemma round_mono (x y : Q) : 0 <= x -> x <= y -> round x <= round y.
Proof.
  intros Hx Hxy.
  destruct (Qlt_le_dec 0 x) as [Hpos|Hle].
  - assert (Hy : 0 < y) by (eapply Qlt_le_trans; eassumption).
    rewrite (round_of_pos x Hpos), (round_of_pos y Hy).
    now apply round_pos_mono.
  - rewrite (round_0 x) by lra.
    destruct (Qlt_le_dec 0 y) as [Hy|Hy].
    + rewrite (round_of_pos y Hy). now apply round_pos_nonneg.
    + rewrite (round_0 y) by lra. lra.
Qed.

Lemma rint_eq (x : Q) (k : Z) : x == inject_Z k -> rint x = k.
Proof.
  intros H. apply Z.le_antisymm; [apply rint_le | apply rint_ge]; lra.
Qed.

(** A power of two is a double. *)
Lemma round_pow2 (a : Z) : (0 <= a)%Z -> round (inject_Z (2 ^ a)) == inject_Z (2 ^ a).
Proof.
  intros Ha.
  assert (Hpos : 0 < inject_Z (2 ^ a)) by (rewrite pow2_Z by lia; apply pow2_pos).
  rewrite (round_of_pos _ Hpos). unfold round_pos.
  assert (He : ilog2 (inject_Z (2 ^ a)) = a).
  { apply ilog2_unique; rewrite pow2_Z by lia.
    - apply Qle_refl.
    - apply Qpower_lt_compat_l; [lia | reflexivity]. }
  assert (Hs : ulp_exponent (inject_Z (2 ^ a)) = (a - 52)%Z)
    by (unfold ulp_exponent; rewrite He; lia).
  rewrite Hs.
  assert (Hq : inject_Z (2 ^ a) / 2 ^ (a - 52) == inject_Z (2 ^ 52)).
  { rewrite !pow2_Z by lia. rewrite Qpower_minus by apply two_neq_0.
    field. apply Qpower_not_0, two_neq_0. }
  rewrite (rint_eq _ _ Hq).
  rewrite !pow2_Z by lia. rewrite <- Qpower_plus by apply two_neq_0.
  now replace (52 + (a - 52))%Z with a by lia.
Qed.

Lemma tenth_double : round tenth == tenth.
Proof. apply Qeq_bool_iff. vm_compute. reflexivity. Qed.

Lemma tenth_nonneg : 0 <= tenth.
Proof. apply Qle_bool_iff. vm_compute. reflexivity. Qed.

(** Rounding moves a positive number by half a unit in the last place at
    most (upwards: the case used below). *)
Lemma rint_error (q : Q) : inject_Z (rint q) <= q + (1 # 2).
Proof.
  unfold rint. pose proof (Qfloor_le q) as Hf.
  destruct (Qcompare_spec (q - inject_Z (Qfloor q)) (1 # 2)) as [E|E|E].
  - destruct (Z.even (Qfloor q)); [lra|]. rewrite inject_Z_plus.
    change (inject_Z 1) with 1. lra.
  - lra.
  - rewrite inject_Z_plus. change (inject_Z 1) with 1. lra.
Qed.

Lemma round_pos_error (x : Q) :
  0 < x -> round_pos x <= x + 2 ^ (ulp_exponent x - 1).
Proof.
  intros Hx. unfold round_pos.
  pose proof (pow2_pos (ulp_exponent x)) as Hp.
  apply Qle_trans with ((x / 2 ^ ulp_exponent x + (1 # 2)) * 2 ^ ulp_exponent x).
  - apply Qmult_le_compat_r; [apply rint_error | now apply Qlt_le_weak].
  - rewrite Qpower_minus by apply two_neq_0.
    apply Qle_lteq. right. change (2 ^ 1) with 2. field.
    apply Qpower_not_0, two_neq_0.
Qed.

Lemma tenth_real : tenth <= (1 # 10) + 2 ^ (-56).
Proof. apply Qle_bool_iff. vm_compute. reflexivity. Qed.

Lemma tenth_lt_1 : tenth < 1.
Proof. unfold Qlt. vm_compute. reflexivity. Qed.

(** The powers of two that convert to a double are those up to [2^1023]. *)
Lemma of_int_pow2 (a : Z) :
  (0 <= a <= 1023)%Z -> of_int (2 ^ a) = Some (round (inject_Z (2 ^ a))).
Proof.
  intros Ha. unfold of_int.
  assert (Hle : Qle_bool (Qabs (round (inject_Z (2 ^ a)))) max_value = true).
  { apply Qle_bool_iff. rewrite round_pow2 by lia.
    rewrite Qabs_pos by (rewrite pow2_Z by lia; apply Qlt_le_weak, pow2_pos).
    apply Qle_trans with (inject_Z (2 ^ 1023)).
    - apply inject_Z_le. apply Z.pow_le_mono_r; lia.
    - apply Qle_bool_iff. vm_compute. reflexivity. }
  now rewrite Hle.
Qed.

Lemma of_int_pow2_overflow (a : Z) : (1024 <= a)%Z -> of_int (2 ^ a) = None.
Proof.
  intros Ha. unfold of_int.
  assert (Hle : Qle_bool (Qabs (round (inject_Z (2 ^ a)))) max_value = false).
  { destruct (Qle_bool (Qabs (round (inject_Z (2 ^ a)))) max_value) eqn:E;
      [|reflexivity].
    exfalso. apply Qle_bool_iff in E. rewrite round_pow2 in E by lia.
    rewrite Qabs_pos in E by (rewrite pow2_Z by lia; apply Qlt_le_weak, pow2_pos).
    assert (Hbig : inject_Z (2 ^ 1024) <= inject_Z (2 ^ a))
      by (apply inject_Z_le, Z.pow_le_mono_r; lia).
    assert (Hmax : max_value < inject_Z (2 ^ 1024))
      by (unfold Qlt; vm_compute; reflexivity).
    lra. }
  now rewrite Hle.
Qed.

End FloatFacts.

(** ** The ordered dictionary *)

Module DictFacts.
Import OrderedDict.

Lemma contains_lookup (k : string) (d : t) :
  contains k d = true <-> lookup k d <> None.
Proof.
  unfold contains, keys. induction d as [|[k' e] d IH]; simpl.
  - split; [discriminate | congruence].
  - destruct (String.eqb k k'); simpl; [split; [discriminate | reflexivity] | exact IH].
Qed.

Lemma contains_false_lookup (k : string) (d : t) :
  contains k d = false <-> lookup k d = None.
Proof.
  pose proof (contains_lookup k d) as H.
  destruct (contains k d), (lookup k d); split; intros; try reflexivity;
    try discriminate.
  - exfalso. apply (proj1 H); reflexivity.
  - exfalso. assert (true = true) by reflexivity. 
    destruct H as [_ H]. assert (Some c <> None) by discriminate.
    specialize (H H2). discriminate.
Qed.

Lemma contains_In (k : string) (d : t) :
  contains k d = true <-> In k (keys d).
Proof.
  unfold contains. rewrite existsb_exists. split.
  - intros [x [Hin Heq]]. apply String.eqb_eq in Heq. subst. exact Hin.
  - intros Hin. exists k. split; [exact Hin | apply String.eqb_refl].
Qed.

Lemma keys_delete (k : string) (d : t) :
  keys (delete k d) = filter (fun k' => negb (String.eqb k k')) (keys d).
Proof.
  unfold keys, delete. induction d as [|[k' e] d IH]; simpl; [reflexivity|].
  destruct (String.eqb k k'); simpl; [exact IH | now rewrite IH].
Qed.

Lemma lookup_delete_same (k : string) (d : t) : lookup k (delete k d) = None.
Proof.
  unfold delete. induction d as [|[k' e] d IH]; simpl; [reflexivity|].
  destruct (String.eqb k k') eqn:E; simpl; [exact IH | now rewrite E].
Qed.

Lemma lookup_delete_other (k k' : string) (d : t) :
  k <> k' -> lookup k' (delete k d) = lookup k' d.
Proof.
  intros Hne. unfold delete. induction d as [|[k0 e] d IH]; simpl; [reflexivity|].
  destruct (String.eqb k k0) eqn:E; simpl.
  - apply String.eqb_eq in E. subst k0.
    destruct (String.eqb k' k) eqn:E'; [|exact IH].
    apply String.eqb_eq in E'. congruence.
  - now rewrite IH.
Qed.

Lemma lookup_app (k : string) (d1 d2 : t) :
  lookup k (d1 ++ d2)%list =
  match lookup k d1 with Some e => Some e | None => lookup k d2 end.
Proof.
  induction d1 as [|[k0 e] d1 IH]; simpl; [reflexivity|].
  destruct (String.eqb k k0); [reflexivity | exact IH].
Qed.

Lemma lookup_setitem_same (k : string) (e : CacheEntry) (d : t) :
  lookup k (setitem k e d) = Some e.
Proof.
  induction d as [|[k0 e0] d IH]; simpl.
  - now rewrite String.eqb_refl.
  - destruct (String.eqb k k0) eqn:E; simpl; rewrite E; [reflexivity | exact IH].
Qed.

Lemma lookup_setitem_other (k k' : string) (e : CacheEntry) (d : t) :
  k <> k' -> lookup k' (setitem k e d) = lookup k' d.
Proof.
  intros Hne. induction d as [|[k0 e0] d IH]; simpl.
  - destruct (String.eqb k' k) eqn:E; [|reflexivity].
    apply String.eqb_eq in E. congruence.
  - destruct (String.eqb k k0) eqn:E; simpl.
    + apply String.eqb_eq in E. subst k0.
      destruct (String.eqb k' k) eqn:E'; [|reflexivity].
      apply String.eqb_eq in E'. congruence.
    + now rewrite IH.
Qed.

Lemma lookup_move_to_end_same (k : string) (d : t) :
  lookup k (move_to_end k d) = lookup k d.
Proof.
  unfold move_to_end. destruct (lookup k d) as [e|] eqn:E; [|exact E].
  rewrite lookup_app, lookup_delete_same. simpl. now rewrite String.eqb_refl.
Qed.

Lemma lookup_move_to_end_other (k k' : string) (d : t) :
  k <> k' -> lookup k' (move_to_end k d) = lookup k' d.
Proof.
  intros Hne. unfold move_to_end. destruct (lookup k d) as [e|] eqn:E; [|reflexivity].
  rewrite lookup_app, lookup_delete_other by exact Hne.
  destruct (lookup k' d); [reflexivity|]. simpl.
  destruct (String.eqb k' k) eqn:E'; [|reflexivity].
  apply String.eqb_eq in E'. congruence.
Qed.

Lemma delete_absent (k : string) (d : t) :
  contains k d = false -> delete k d = d.
Proof.
  unfold contains, keys, delete. induction d as [|[k' e] d IH]; simpl; [reflexivity|].
  destruct (String.eqb k k'); simpl; [discriminate|].
  intros Hc. now rewrite IH.
Qed.

Lemma delete_setitem (k : string) (e : CacheEntry) (d : t) :
  delete k (setitem k e d) = delete k d.
Proof.
  unfold delete. induction d as [|[k' e'] d IH]; simpl.
  - now rewrite String.eqb_refl.
  - destruct (String.eqb k k') eqn:E; simpl; rewrite E; simpl;
      [reflexivity | now rewrite IH].
Qed.

(** [d[k] = e; d.move_to_end(k)] leaves the other items in their order
    and puts [(k, e)] last. *)
Lemma move_to_end_setitem (k : string) (e : CacheEntry) (d : t) :
  move_to_end k (setitem k e d) = (delete k d ++ [(k, e)])%list.
Proof.
  unfold move_to_end. now rewrite lookup_setitem_same, delete_setitem.
Qed.

Lemma length_delete_le (k : string) (d : t) :
  (List.length (delete k d) <= List.length d)%nat.
Proof. unfold delete. apply filter_length_le. Qed.

Lemma length_delete_present (k : string) (d : t) :
  NoDup (keys d) -> contains k d = true ->
  S (List.length (delete k d)) = List.length d.
Proof.
  unfold contains, keys, delete. induction d as [|[k' e] d IH]; simpl;
    [discriminate|].
  intros Hnd Hc. inversion Hnd as [|? ? Hnotin Hnd']; subst.
  destruct (String.eqb k k') eqn:E; simpl.
  - apply String.eqb_eq in E. subst k'. f_equal.
    change (filter _ d) with (delete k d). rewrite delete_absent; [reflexivity|].
    destruct (contains k d) eqn:Ec; [|reflexivity].
    apply contains_In in Ec. contradiction.
  - f_equal. apply IH; assumption.
Qed.

Lemma NoDup_keys_delete (k : string) (d : t) :
  NoDup (keys d) -> NoDup (keys (delete k d)).
Proof. intros H. rewrite keys_delete. now apply NoDup_filter. Qed.

Lemma contains_delete_same (k : string) (d : t) : contains k (delete k d) = false.
Proof. apply contains_false_lookup, lookup_delete_same. Qed.

Lemma keys_app (d1 d2 : t) : keys (d1 ++ d2)%list = (keys d1 ++ keys d2)%list.
Proof. unfold keys. apply map_app. Qed.

Lemma NoDup_keys_snoc (k : string) (e : CacheEntry) (d : t) :
  NoDup (keys d) -> contains k d = false -> NoDup (keys (d ++ [(k, e)])%list).
Proof.
  intros Hnd Hc. rewrite keys_app. simpl.
  apply NoDup_app; [exact Hnd | repeat constructor; intros [] | ].
  intros x Hx [Hk|[]]. subst x. apply contains_In in Hx. congruence.
Qed.

Lemma NoDup_keys_move_to_end (k : string) (d : t) :
  NoDup (keys d) -> NoDup (keys (move_to_end k d)).
Proof.
  intros Hnd. unfold move_to_end. destruct (lookup k d); [|exact Hnd].
  apply NoDup_keys_snoc; [now apply NoDup_keys_delete | apply contains_delete_same].
Qed.

Lemma keys_move_to_end (k : string) (d : t) :
  contains k d = true ->
  keys (move_to_end k d) =
  (filter (fun k' => negb (String.eqb k k')) (keys d) ++ [k])%list.
Proof.
  intros Hc. unfold move_to_end. apply contains_lookup in Hc.
  destruct (lookup k d); [|congruence].
  now rewrite keys_app, keys_delete.
Qed.

Lemma filter_keys_absent (k : string) (l : list string) :
  ~ In k l -> filter (fun k' => negb (String.eqb k k')) l = l.
Proof.
  induction l as [|x l IH]; simpl; [reflexivity|].
  intros Hn. destruct (String.eqb k x) eqn:E; simpl.
  - apply String.eqb_eq in E. subst. exfalso. apply Hn. now left.
  - f_equal. apply IH. intros Hin. apply Hn. now right.
Qed.

End DictFacts.

(** ** The cache *)

Lemma is_expired_true (now : Q) (e : CacheEntry) :
  Cache.is_expired now e = true <-> (expires_at e <= now)%Q.
Proof. unfold Cache.is_expired. apply Qle_bool_iff. Qed.

Lemma is_expired_false (now : Q) (e : CacheEntry) :
  Cache.is_expired now e = false <-> (now < expires_at e)%Q.
Proof.
  pose proof (is_expired_true now e) as H.
  destruct (Cache.is_expired now e); split; intros H'; try reflexivity.
  - discriminate.
  - exfalso. apply (Qlt_not_le _ _ H'). apply H. reflexivity.
  - apply Qnot_le_lt. intros Hle. apply H in Hle. discriminate.
Qed.

(** What [set] stores: the dictionary after a [set] that returns. *)
Lemma set_Ok_inv (c c' : InMemoryCache) (k : string) (v : PyValue)
    (ttl : option Z) (now : Q) :
  Cache.set c k v ttl now = Ok c' ->
  exists d,
    c' = with_cache c
           (OrderedDict.move_to_end k
              (OrderedDict.setitem k
                 (mkCacheEntry v
                    (now + inject_Z (match ttl with Some t => t
                                                 | None => _default_ttl c end))%Q)
                 d))
    /\ (d = _cache c \/ exists p, _cache c = p :: d).
Proof.
  unfold Cache.set.
  destruct ((cache_len c >=? _max_entries c)
            && negb (OrderedDict.contains k (_cache c))) eqn:E;
    unfold cache_len in E; rewrite E.
  - destruct (_cache c) as [|p rest] eqn:Ed; simpl; [discriminate|].
    intros H. injection H as <-. exists rest. split; [reflexivity|].
    right. exists p. reflexivity.
  - intros H. injection H as <-. exists (_cache c). split; [reflexivity|now left].
Qed.

Lemma set_lookup_same (c c' : InMemoryCache) (k : string) (v : PyValue)
    (ttl : option Z) (now : Q) :
  Cache.set c k v ttl now = Ok c' ->
  OrderedDict.lookup k (_cache c') =
  Some (mkCacheEntry v
          (now + inject_Z (match ttl with Some t => t
                                       | None => _default_ttl c end))%Q).
Proof.
  intros H. apply set_Ok_inv in H. destruct H as [d [-> _]]. simpl.
  now rewrite DictFacts.lookup_move_to_end_same, DictFacts.lookup_setitem_same.
Qed.

Lemma get_other_lookup (c : InMemoryCache) (k k' : string) (now : Q) :
  k' <> k ->
  OrderedDict.lookup k (_cache (snd (Cache.get c k' now))) =
  OrderedDict.lookup k (_cache c).
Proof.
  intros Hne. unfold Cache.get.
  destruct (OrderedDict.lookup k' (_cache c)) as [e|]; [|reflexivity].
  destruct (Cache.is_expired now e); simpl.
  - now apply DictFacts.lookup_delete_other.
  - now apply DictFacts.lookup_move_to_end_other.
Qed.

(** C1 (TTL correctness). After [set(k, v, t)] with [t >= 0] has returned,
    having computed [expires_at = now + t], the entry is in storage; a
    [get(k)] at a time strictly before [expires_at] returns [v] and keeps the
    entry; a [get(k)] at or after [expires_at] returns the miss value and
    leaves the storage without the entry (it is exactly the previous storage
    with [k] deleted); and nothing but that [get] does the clean-up: a [get]
    of any other key, at any time, leaves the entry of [k] in storage. *)
Theorem C1_ttl_correctness (c c' : InMemoryCache) (k : string) (v : PyValue)
    (t : Z) (now : Q) :
  0 <= t ->
  Cache.set c k v (Some t) now = Ok c' ->
  let entry := mkCacheEntry v (now + inject_Z t)%Q in
  OrderedDict.lookup k (_cache c') = Some entry
  /\ (forall now' : Q, (now' < now + inject_Z t)%Q ->
        fst (Cache.get c' k now') = v
        /\ OrderedDict.lookup k (_cache (snd (Cache.get c' k now'))) = Some entry)
  /\ (forall now' : Q, (now + inject_Z t <= now')%Q ->
        fst (Cache.get c' k now') = PyNone
        /\ OrderedDict.contains k (_cache (snd (Cache.get c' k now'))) = false
        /\ _cache (snd (Cache.get c' k now')) = OrderedDict.delete k (_cache c'))
  /\ (forall (k' : string) (now' : Q), k' <> k ->
        OrderedDict.lookup k (_cache (snd (Cache.get c' k' now'))) = Some entry).
Proof.
  intros _ Hset. cbv zeta.
  pose proof (set_lookup_same _ _ _ _ _ _ Hset) as Hl. cbv beta iota in Hl.
  set (entry := mkCacheEntry v (now + inject_Z t)%Q) in *.
  split; [exact Hl|]. split; [|split].
  - intros now' Hlt. unfold Cache.get. rewrite Hl. cbv beta iota.
    assert (Cache.is_expired now' entry = false) as ->
      by (apply is_expired_false; exact Hlt).
    simpl. split; [reflexivity|].
    now rewrite DictFacts.lookup_move_to_end_same.
  - intros now' Hle. unfold Cache.get. rewrite Hl. cbv beta iota.
    assert (Cache.is_expired now' entry = true) as ->
      by (apply is_expired_true; exact Hle).
    simpl. split; [reflexivity|]. split; [|reflexivity].
    apply DictFacts.contains_false_lookup, DictFacts.lookup_delete_same.
  - intros k' now' Hne. rewrite get_other_lookup by exact Hne. exact Hl.
Qed.

(** A run of C1: capacity 1000, [set("k", 7, ttl=5)] at time 100. *)
Lemma C1_ttl_correctness_witness :
  0 <= 5 /\
  exists c', Cache.set (Cache.init 300 1000) "k" (PyInt 7) (Some 5) 100 = Ok c'
    /\ fst (Cache.get c' "k" 104) = PyInt 7
    /\ fst (Cache.get c' "k" 105) = PyNone
    /\ OrderedDict.contains "k" (_cache (snd (Cache.get c' "k" 105))) = false.
Proof.
  split; [lia|]. eexists. split; [reflexivity|].
  pose proof (C1_ttl_correctness (Cache.init 300 1000) _ "k" (PyInt 7) 5 100
                ltac:(lia) eq_refl) as [_ [Hlive [Hdead _]]].
  split; [apply (Hlive 104%Q); reflexivity|].
  destruct (Hdead 105%Q) as [H1 [H2 _]]; [discriminate|].
  split; [exact H1 | exact H2].
Defined.

(** *** Pattern invalidation *)

Lemma keys_filter (g : string -> bool) (d : OrderedDict.t) :
  OrderedDict.keys (filter (fun p => g (fst p)) d) = filter g (OrderedDict.keys d).
Proof.
  unfold OrderedDict.keys. induction d as [|[k e] d IH]; simpl; [reflexivity|].
  destruct (g k); simpl; now rewrite IH.
Qed.

Lemma fold_delete (ks : list string) (d : OrderedDict.t) :
  fold_left (fun d key => OrderedDict.delete key d) ks d =
  filter (fun p => negb (existsb (String.eqb (fst p)) ks)) d.
Proof.
  revert d. induction ks as [|k ks IH]; intros d; simpl.
  - induction d as [|p d IHd]; simpl; [reflexivity | now rewrite <- IHd].
  - rewrite IH. unfold OrderedDict.delete. clear IH.
    induction d as [|p d IHd]; simpl; [reflexivity|].
    rewrite (String.eqb_sym (fst p) k).
    destruct (String.eqb k (fst p)); simpl; [exact IHd|].
    destruct (existsb (String.eqb (fst p)) ks); simpl; [exact IHd | now rewrite IHd].
Qed.

Lemma existsb_filter_keys (g : string -> bool) (ks : list string) (k : string) :
  In k ks -> existsb (String.eqb k) (filter g ks) = g k.
Proof.
  intros Hin. destruct (g k) eqn:E.
  - apply existsb_exists. exists k. split; [|apply String.eqb_refl].
    apply filter_In. now split.
  - destruct (existsb (String.eqb k) (filter g ks)) eqn:Ex; [|reflexivity].
    apply existsb_exists in Ex. destruct Ex as [x [Hx Heq]].
    apply String.eqb_eq in Heq. subst x. apply filter_In in Hx. destruct Hx. congruence.
Qed.

Lemma length_filter_keys (g : string -> bool) (d : OrderedDict.t) :
  List.length (filter (fun p => g (fst p)) d) =
  List.length (filter g (OrderedDict.keys d)).
Proof.
  rewrite <- (keys_filter g d). unfold OrderedDict.keys. now rewrite length_map.
Qed.

(** The dictionary after a pattern invalidation that compiles: the items
    whose key the pattern does not match, in their order. *)
Lemma invalidate_pattern_Ok `{PyRuntime} (c : InMemoryCache) (pattern : string)
    (regex : Pattern) :
  re_compile pattern = Some regex ->
  Cache.invalidate_pattern c pattern =
  Ok (Z.of_nat (List.length (filter (re_match regex) (cache_keys c))),
      with_cache c (filter (fun p => negb (re_match regex (fst p))) (_cache c))).
Proof.
  intros Hc. unfold Cache.invalidate_pattern. rewrite Hc. do 3 f_equal.
  rewrite fold_delete. apply filter_ext_in. intros [k e] Hin. simpl. f_equal.
  apply existsb_filter_keys. unfold OrderedDict.keys.
  change k with (fst (k, e)). now apply in_map.
Qed.

(** The statements of [invalidate_pattern] and its summary agree. *)
Lemma with_cache_same (c : InMemoryCache) : with_cache c (_cache c) = c.
Proof. now destruct c. Qed.

Lemma for_each_del (ks : list string) (c : InMemoryCache) :
  Method.for_each ks Method.del c =
  (Ok tt, with_cache c (fold_left (fun d key => OrderedDict.delete key d) ks (_cache c))).
Proof.
  revert c. induction ks as [|k ks IH]; intros c; simpl.
  - unfold Method.ret. now rewrite with_cache_same.
  - unfold Method.bind, Method.del. rewrite IH. reflexivity.
Qed.

Lemma invalidate_pattern_method `{PyRuntime} (c : InMemoryCache) (pattern : string) :
  Method.invalidate_pattern pattern c =
  match Cache.invalidate_pattern c pattern with
  | Ok (n, c') => (Ok n, c')
  | Raise e => (Raise e, c)
  end.
Proof.
  unfold Method.invalidate_pattern, Cache.invalidate_pattern, Method.bind,
    Method.compile, Method.matching_keys, Method.ret.
  destruct (re_compile pattern) as [regex|]; [|reflexivity].
  now rewrite for_each_del.
Qed.

(** A statement that raises does not undo the statements before it: a
    deletion followed by a compilation that fails stays done. *)
Lemma raise_keeps_effects `{PyRuntime} (c : InMemoryCache) (key pattern : string) :
  re_compile pattern = None ->
  Method.bind (Method.del key) (fun _ => Method.compile pattern) c =
  (Raise (ReError pattern), with_cache c (OrderedDict.delete key (_cache c))).
Proof.
  intros Hc. unfold Method.bind, Method.del, Method.compile. now rewrite Hc.
Qed.

Lemma cache_invalidate_pattern_unfold `{PyRuntime} (pattern : string) (st : State) :
  cache_invalidate_pattern pattern st =
  match Cache.invalidate_pattern (st_cache st) pattern with
  | Ok (n, c) => (Ok n, set_cache st c)
  | Raise e => (Raise e, st)
  end.
Proof.
  unfold cache_invalidate_pattern. rewrite invalidate_pattern_method.
  destruct (Cache.invalidate_pattern (st_cache st) pattern) as [[n c]|e];
    [reflexivity|].
  now destruct st.
Qed.

Lemma step_invalidate_pattern `{PyRuntime} (c : InMemoryCache) (pattern : string) :
  step c (OpInvalidatePattern pattern) =
  match Cache.invalidate_pattern c pattern with
  | Ok (_, c') => c'
  | Raise _ => c
  end.
Proof.
  simpl. rewrite invalidate_pattern_method.
  now destruct (Cache.invalidate_pattern c pattern) as [[n c']|e].
Qed.

Lemma lookup_filter_keep (g : string -> bool) (d : OrderedDict.t) (k : string) :
  g k = true ->
  OrderedDict.lookup k (filter (fun p => g (fst p)) d) = OrderedDict.lookup k d.
Proof.
  intros Hg. induction d as [|[k' e] d IH]; simpl; [reflexivity|].
  destruct (String.eqb k k') eqn:E.
  - apply String.eqb_eq in E. subst k'. rewrite Hg. simpl. now rewrite String.eqb_refl.
  - destruct (g k'); simpl; [now rewrite E | exact IH].
Qed.

(** C7 (pattern invalidation). For a pattern that compiles, 
    [invalidate_pattern] returns normally; the keys left are exactly the
    stored keys on which [Pattern.match] (the match from the start of the
    key) fails, in their order; every key it fails on keeps its entry; the
    keys removed are distinct and their number is the count returned.  For a
    pattern that does not compile the call raises the regex error.  On the
    keys [world:123:articles], [world:123:categories], [user:456] the
    pattern [world:123:.*] returns 2 and [user:456] still hits; the pattern
    [123] does not remove [world:123], which contains it but does not start
    with it. *)
Theorem C7_invalidate_pattern :
  (forall (R : PyRuntime) (c : InMemoryCache) (pattern : string),
      NoDup (cache_keys c) ->
      (forall regex : Pattern, re_compile pattern = Some regex ->
         exists (n : Z) (c' : InMemoryCache),
           Cache.invalidate_pattern c pattern = Ok (n, c')
           /\ cache_keys c' = filter (fun k => negb (re_match regex k)) (cache_keys c)
           /\ (forall k, OrderedDict.contains k (_cache c') =
                         OrderedDict.contains k (_cache c) && negb (re_match regex k))
           /\ (forall k, re_match regex k = false ->
                         OrderedDict.lookup k (_cache c') = OrderedDict.lookup k (_cache c))
           /\ NoDup (filter (re_match regex) (cache_keys c))
           /\ n = Z.of_nat (List.length (filter (re_match regex) (cache_keys c)))
           /\ cache_len c' = cache_len c - n)
      /\ (re_compile pattern = None ->
          Cache.invalidate_pattern c pattern = Raise (ReError pattern)))
  /\ (let R := mini_runtime in
      let c := run [OpSet "world:123:articles" (PyList []) None 0;
                    OpSet "world:123:categories" (PyList []) None 0;
                    OpSet "user:456" (PyDict []) None 0;
                    OpSet "world:123" (PyInt 1) None 0] (Cache.init 300 1000) in
      (exists c', Cache.invalidate_pattern c "world:123:.*" = Ok (2, c')
                  /\ fst (Cache.get c' "user:456" 1) = PyDict []
                  /\ fst (Cache.get c' "world:123:articles" 1) = PyNone
                  /\ fst (Cache.get c' "world:123:categories" 1) = PyNone)
      /\ (exists c', Cache.invalidate_pattern c "123" = Ok (0, c')
                     /\ fst (Cache.get c' "world:123" 1) = PyInt 1)).
Proof.
  split.
  - intros R c pattern Hnd. split.
    + intros regex Hc. do 2 eexists.
      split; [apply invalidate_pattern_Ok; exact Hc|].
      assert (Hk : cache_keys
                (with_cache c (filter (fun p => negb (re_match regex (fst p))) (_cache c)))
              = filter (fun k => negb (re_match regex k)) (cache_keys c)).
      { unfold cache_keys. simpl.
        exact (keys_filter (fun k => negb (re_match regex k)) (_cache c)). }
      split; [exact Hk|]. split; [|split; [|split; [|split]]].
      * intros k.
        destruct (OrderedDict.contains k (_cache c) && negb (re_match regex k)) eqn:E.
        -- apply DictFacts.contains_In. fold (cache_keys
             (with_cache c (filter (fun p => negb (re_match regex (fst p))) (_cache c)))).
           rewrite Hk. apply filter_In. apply andb_true_iff in E. destruct E as [E1 E2].
           split; [now apply DictFacts.contains_In | exact E2].
        -- match goal with |- ?x = false => destruct x eqn:E' end; [|reflexivity].
           apply DictFacts.contains_In in E'. fold (cache_keys
             (with_cache c (filter (fun p => negb (re_match regex (fst p))) (_cache c)))) in E'.
           rewrite Hk in E'. apply filter_In in E'. destruct E' as [E1 E2].
           apply DictFacts.contains_In in E1. unfold cache_keys in E1.
           rewrite E1, E2 in E. discriminate.
      * intros k Hm. simpl.
        apply (lookup_filter_keep (fun k => negb (re_match regex k))). now rewrite Hm.
      * now apply NoDup_filter.
      * reflexivity.
      * unfold cache_len. simpl.
        rewrite (length_filter_keys (fun k => negb (re_match regex k))).
        pose proof (filter_length (re_match regex) (cache_keys c)) as Hl.
        assert (Hk' : List.length (cache_keys c) = List.length (_cache c))
          by apply length_map.
        unfold cache_keys in *. lia.
    + intros Hc. unfold Cache.invalidate_pattern. now rewrite Hc.
  - split.
    + eexists. split; [vm_compute; reflexivity|]. now vm_compute.
    + eexists. split; [vm_compute; reflexivity|]. now vm_compute.
Qed.

(** The keys of a two-entry cache and a pattern of the fragment. *)
Lemma C7_invalidate_pattern_witness :
  let R := mini_runtime in
  let c := run [OpSet "article:1" (PyInt 1) None 0; OpSet "world:1" (PyInt 2) None 0]
               (Cache.init 300 1000) in
  NoDup (cache_keys c)
  /\ exists regex, re_compile "article:.*" = Some regex
  /\ exists c', Cache.invalidate_pattern c "article:.*" = Ok (1, c')
  /\ cache_keys c' = ["world:1"].
Proof.
  intros R c.
  assert (Hnd : NoDup (cache_keys c)).
  { vm_compute. repeat constructor; simpl; intuition discriminate. }
  split; [exact Hnd|].
  destruct (proj1 C7_invalidate_pattern R c "article:.*" Hnd) as [Hok _].
  eexists. split; [vm_compute; reflexivity|].
  destruct (Hok _ eq_refl) as [n [c' [H1 [H2 _]]]].
  exists c'. split.
  - rewrite H1. f_equal. f_equal. 
    vm_compute in H1. injection H1 as <- _. reflexivity.
  - rewrite H2. reflexivity.
Defined.

(** C8 (a failed pattern invalidation changes nothing).  Compiling the
    pattern is the first statement of [invalidate_pattern].  When the
    pattern does not compile, the method raises the regex error and hands
    back the cache it was called on: no statement that reads or deletes a
    key has run.  So the cache after the failed call is the cache before
    it, for the cache as an object, as a step in a sequence of operations,
    and in the state a request of the client runs in. *)
Theorem C8_invalidate_pattern_atomic (R : PyRuntime) (c : InMemoryCache)
    (pattern : string) :
  re_compile pattern = None ->
  Method.invalidate_pattern pattern c = (Raise (ReError pattern), c)
  /\ Cache.invalidate_pattern c pattern = Raise (ReError pattern)
  /\ step c (OpInvalidatePattern pattern) = c
  /\ (forall st : State, st_cache st = c ->
        cache_invalidate_pattern pattern st = (Raise (ReError pattern), st))
  /\ (forall k, OrderedDict.lookup k (_cache (snd (Method.invalidate_pattern pattern c)))
                = OrderedDict.lookup k (_cache c))
  /\ cache_keys (snd (Method.invalidate_pattern pattern c)) = cache_keys c.
Proof.
  intros Hc.
  assert (Hm : Method.invalidate_pattern pattern c = (Raise (ReError pattern), c)).
  { unfold Method.invalidate_pattern, Method.bind, Method.compile.
    now rewrite Hc. }
  split; [exact Hm|]. split; [|split; [|split; [|split]]].
  - unfold Cache.invalidate_pattern. now rewrite Hc.
  - cbn [step]. now rewrite Hm.
  - intros st <-. unfold cache_invalidate_pattern. rewrite Hm.
    now destruct st.
  - intros k. now rewrite Hm.
  - now rewrite Hm.
Qed.

(** An unbalanced parenthesis on a cache of two entries. *)
Lemma C8_invalidate_pattern_atomic_witness :
  let R := mini_runtime in
  let c := run [OpSet "a" (PyInt 1) None 0; OpSet "b" (PyInt 2) None 0]
               (Cache.init 300 1000) in
  re_compile "(" = None
  /\ Method.invalidate_pattern "(" c = (Raise (ReError "("), c)
  /\ step c (OpInvalidatePattern "(") = c
  /\ cache_keys (snd (Method.invalidate_pattern "(" c)) = ["a"; "b"].
Proof.
  intros R c. split; [reflexivity|].
  destruct (C8_invalidate_pattern_atomic R c "(" eq_refl) as [H1 [_ [H3 [_ [_ H6]]]]].
  split; [exact H1|]. split; [exact H3|]. rewrite H6. reflexivity.
Defined.

(** *** Capacity and recency *)

Lemma set_existing (c : InMemoryCache) (k : string) (v : PyValue)
    (ttl : option Z) (now : Q) :
  OrderedDict.contains k (_cache c) = true ->
  Cache.set c k v ttl now =
  Ok (with_cache c (OrderedDict.delete k (_cache c) ++ [(k, entry_for c v ttl now)])%list).
Proof.
  intros Hc. unfold Cache.set. rewrite Hc, andb_false_r.
  now rewrite DictFacts.move_to_end_setitem.
Qed.

Lemma set_new_room (c : InMemoryCache) (k : string) (v : PyValue)
    (ttl : option Z) (now : Q) :
  OrderedDict.contains k (_cache c) = false ->
  cache_len c < _max_entries c ->
  Cache.set c k v ttl now =
  Ok (with_cache c (_cache c ++ [(k, entry_for c v ttl now)])%list).
Proof.
  intros Hc Hlen. unfold Cache.set. unfold cache_len in Hlen.
  assert ((Z.of_nat (List.length (_cache c)) >=? _max_entries c) = false) as ->
    by (rewrite Z.geb_leb; apply Z.leb_gt; lia).
  simpl. rewrite DictFacts.move_to_end_setitem.
  now rewrite DictFacts.delete_absent.
Qed.

Lemma set_new_full (c : InMemoryCache) (k : string) (v : PyValue)
    (ttl : option Z) (now : Q) (p : string * CacheEntry) (rest : OrderedDict.t) :
  OrderedDict.contains k (_cache c) = false ->
  _max_entries c <= cache_len c ->
  _cache c = p :: rest ->
  Cache.set c k v ttl now =
  Ok (with_cache c (rest ++ [(k, entry_for c v ttl now)])%list).
Proof.
  intros Hc Hlen Hd. unfold Cache.set. unfold cache_len in Hlen.
  assert ((Z.of_nat (List.length (_cache c)) >=? _max_entries c) = true) as ->
    by (rewrite Z.geb_leb; apply Z.leb_le; lia).
  rewrite Hc. simpl. rewrite Hd. simpl.
  rewrite DictFacts.move_to_end_setitem.
  rewrite DictFacts.delete_absent; [reflexivity|].
  rewrite Hd in Hc. unfold OrderedDict.contains in *. simpl in Hc.
  apply orb_false_iff in Hc. tauto.
Qed.

Lemma set_new_full_empty (c : InMemoryCache) (k : string) (v : PyValue)
    (ttl : option Z) (now : Q) :
  _max_entries c <= cache_len c ->
  _cache c = [] ->
  Cache.set c k v ttl now = Raise KeyError.
Proof.
  intros Hlen Hd. unfold Cache.set. unfold cache_len in Hlen.
  assert ((Z.of_nat (List.length (_cache c)) >=? _max_entries c) = true) as ->
    by (rewrite Z.geb_leb; apply Z.leb_le; lia).
  rewrite Hd. reflexivity.
Qed.

Lemma wf_init (default_ttl cap : Z) : wf (Cache.init default_ttl cap).
Proof. split; [constructor | unfold cache_len; simpl; lia]. Qed.

Lemma length_snoc (d : OrderedDict.t) (p : string * CacheEntry) :
  Z.of_nat (List.length (d ++ [p])%list) = Z.of_nat (List.length d) + 1.
Proof. rewrite length_app. simpl. lia. Qed.

Lemma wf_set (c c' : InMemoryCache) (k : string) (v : PyValue)
    (ttl : option Z) (now : Q) :
  wf c -> Cache.set c k v ttl now = Ok c' ->
  wf c' /\ cache_len c' <= _max_entries c.
Proof.
  intros [Hnd Hlen] Hset. unfold cache_keys, cache_len in *.
  destruct (OrderedDict.contains k (_cache c)) eqn:Hc.
  - rewrite set_existing in Hset by exact Hc. injection Hset as <-.
    unfold wf, cache_keys, cache_len. simpl.
    pose proof (DictFacts.length_delete_present k (_cache c) Hnd Hc) as Hl.
    rewrite length_snoc.
    assert (0 < _max_entries c) by lia.
    split; [split|]; try lia.
    apply DictFacts.NoDup_keys_snoc;
      [now apply DictFacts.NoDup_keys_delete | apply DictFacts.contains_delete_same].
  - destruct (Z.ltb_spec (cache_len c) (_max_entries c)) as [Hlt|Hge].
    + rewrite set_new_room in Hset by assumption. injection Hset as <-.
      unfold wf, cache_keys, cache_len in *. simpl. rewrite length_snoc.
      split; [split|]; try lia.
      now apply DictFacts.NoDup_keys_snoc.
    + assert (Hcase : _cache c = [] \/ exists p rest, _cache c = p :: rest)
        by (destruct (_cache c) as [|p rest]; [now left | right; eauto]).
      destruct Hcase as [Hd | [p [rest Hd]]].
      * rewrite set_new_full_empty in Hset by assumption. discriminate.
      * rewrite (set_new_full c k v ttl now p rest) in Hset by assumption.
        injection Hset as <-.
        unfold wf, cache_keys, cache_len in *. rewrite Hd in *. simpl in *.
        rewrite length_snoc.
        inversion Hnd as [|? ? Hnotin Hnd']; subst.
        split; [split|]; try lia.
        apply DictFacts.NoDup_keys_snoc; [exact Hnd'|].
        unfold OrderedDict.contains in *. simpl in Hc.
        apply orb_false_iff in Hc. tauto.
Qed.

Lemma set_config (c c' : InMemoryCache) (k : string) (v : PyValue)
    (ttl : option Z) (now : Q) :
  Cache.set c k v ttl now = Ok c' ->
  _max_entries c' = _max_entries c /\ _default_ttl c' = _default_ttl c.
Proof. intros H. apply set_Ok_inv in H. destruct H as [d [-> _]]. now split. Qed.

Lemma wf_get (c : InMemoryCache) (k : string) (now : Q) :
  wf c -> wf (snd (Cache.get c k now)).
Proof.
  intros [Hnd Hlen]. unfold Cache.get.
  destruct (OrderedDict.lookup k (_cache c)) as [e|] eqn:El; [|now split].
  assert (Hc : OrderedDict.contains k (_cache c) = true)
    by (apply DictFacts.contains_lookup; congruence).
  pose proof (DictFacts.length_delete_present k (_cache c) Hnd Hc) as Hl.
  unfold wf, cache_keys, cache_len in *.
  destruct (Cache.is_expired now e); simpl.
  - split; [now apply DictFacts.NoDup_keys_delete | lia].
  - split; [now apply DictFacts.NoDup_keys_move_to_end|].
    unfold OrderedDict.move_to_end. rewrite El, length_snoc. lia.
Qed.

Lemma wf_filter (c : InMemoryCache) (g : string -> bool) :
  wf c -> wf (with_cache c (filter (fun p => g (fst p)) (_cache c))).
Proof.
  intros [Hnd Hlen]. unfold wf, cache_keys, cache_len in *. simpl. split.
  - rewrite keys_filter. now apply NoDup_filter.
  - pose proof (filter_length_le (fun p => g (fst p)) (_cache c)). lia.
Qed.

Lemma wf_step `{PyRuntime} (c : InMemoryCache) (op : CacheOp) :
  wf c -> wf (step c op) /\ _max_entries (step c op) = _max_entries c.
Proof.
  intros Hwf. destruct op as [k now|k v ttl now|k|pattern| |now]; simpl.
  - split; [now apply wf_get|]. unfold Cache.get.
    destruct (OrderedDict.lookup k (_cache c)) as [e|]; [|reflexivity].
    now destruct (Cache.is_expired now e).
  - destruct (Cache.set c k v ttl now) as [c'|e] eqn:E; [|now split].
    split; [eapply wf_set; eassumption | eapply set_config; eassumption].
  - unfold Cache.invalidate. destruct (OrderedDict.contains k (_cache c)); [|now split].
    split; [|reflexivity].
    exact (wf_filter c (fun k' => negb (String.eqb k k')) Hwf).
  - change (wf (step c (OpInvalidatePattern pattern))
            /\ _max_entries (step c (OpInvalidatePattern pattern)) = _max_entries c).
    rewrite step_invalidate_pattern.
    destruct (re_compile pattern) as [regex|] eqn:E.
    + rewrite (invalidate_pattern_Ok c pattern regex E).
      split; [|reflexivity].
      exact (wf_filter c (fun k' => negb (re_match regex k')) Hwf).
    + unfold Cache.invalidate_pattern. rewrite E. now split.
  - split; [|reflexivity]. destruct Hwf as [_ Hlen].
    unfold wf, Cache.clear, cache_keys, cache_len in *. simpl.
    split; [constructor | lia].
  - now split.
Qed.

Lemma wf_run `{PyRuntime} (ops : list CacheOp) (c : InMemoryCache) :
  wf c -> wf (run ops c) /\ _max_entries (run ops c) = _max_entries c.
Proof.
  revert c. induction ops as [|op ops IH]; intros c Hwf; simpl; [now split|].
  destruct (wf_step c op Hwf) as [Hwf' Hcap].
  destruct (IH _ Hwf') as [Hwf'' Hcap']. split; [exact Hwf''|congruence].
Qed.

Lemma lookup_touch (d : OrderedDict.t) (k k' : string) (e : CacheEntry) :
  OrderedDict.lookup k' (OrderedDict.delete k d ++ [(k, e)])%list =
  if String.eqb k' k then Some e else OrderedDict.lookup k' d.
Proof.
  rewrite DictFacts.lookup_app. destruct (String.eqb k' k) eqn:E.
  - apply String.eqb_eq in E. subst k'. rewrite DictFacts.lookup_delete_same.
    simpl. now rewrite String.eqb_refl.
  - assert (k <> k') by (intros ->; rewrite String.eqb_refl in E; discriminate).
    rewrite DictFacts.lookup_delete_other by assumption.
    destruct (OrderedDict.lookup k' d); [reflexivity|]. simpl. now rewrite E.
Qed.

Lemma contains_of_lookup (d1 d2 : OrderedDict.t) (k : string) :
  (OrderedDict.lookup k d1 = None <-> OrderedDict.lookup k d2 = None) ->
  OrderedDict.contains k d1 = OrderedDict.contains k d2.
Proof.
  intros H. destruct (OrderedDict.contains k d2) eqn:E2.
  - apply DictFacts.contains_lookup. apply DictFacts.contains_lookup in E2. tauto.
  - apply DictFacts.contains_false_lookup.
    apply DictFacts.contains_false_lookup in E2. tauto.
Qed.

(** Overwriting a key: no other entry is touched and the count stays. *)
Lemma set_overwrite (c : InMemoryCache) (k : string) (v : PyValue)
    (ttl : option Z) (now : Q) :
  NoDup (cache_keys c) ->
  OrderedDict.contains k (_cache c) = true ->
  exists c', Cache.set c k v ttl now = Ok c'
    /\ cache_len c' = cache_len c
    /\ (forall k', OrderedDict.contains k' (_cache c') =
                   OrderedDict.contains k' (_cache c))
    /\ (forall k', k' <> k ->
          OrderedDict.lookup k' (_cache c') = OrderedDict.lookup k' (_cache c))
    /\ OrderedDict.lookup k (_cache c') = Some (entry_for c v ttl now).
Proof.
  intros Hnd Hc. eexists. split; [now apply set_existing|]. simpl.
  split; [|split; [|split]].
  - unfold cache_len. simpl. rewrite length_snoc.
    pose proof (DictFacts.length_delete_present k (_cache c) Hnd Hc). lia.
  - intros k'. apply contains_of_lookup. rewrite lookup_touch.
    destruct (String.eqb k' k) eqn:E; [|tauto].
    apply String.eqb_eq in E. subst k'.
    apply DictFacts.contains_lookup in Hc. split; [discriminate | tauto].
  - intros k' Hne. rewrite lookup_touch.
    destruct (String.eqb k' k) eqn:E; [|reflexivity].
    apply String.eqb_eq in E. contradiction.
  - rewrite lookup_touch. now rewrite String.eqb_refl.
Qed.

(** The dictionary order is the order of last use. *)
Lemma ordered_filter (log : list string) (g : string -> bool) (keys : list string) :
  ordered_by_use log keys -> ordered_by_use log (filter g keys).
Proof.
  induction keys as [|k keys IH]; simpl; [trivial|].
  intros [Hall Hrest]. destruct (g k); simpl; [|now apply IH].
  split; [|now apply IH].
  apply Forall_forall. intros k' Hin. apply filter_In in Hin.
  rewrite Forall_forall in Hall. now apply Hall.
Qed.

Lemma ordered_touch (log : list string) (k : string) (keys : list string) :
  ordered_by_use log keys -> ~ In k keys ->
  ordered_by_use (k :: log) (keys ++ [k])%list.
Proof.
  induction keys as [|a keys IH]; simpl.
  - intros _ _. split; [constructor | exact I].
  - intros [Hall Hrest] Hnot.
    assert (Ha : String.eqb a k = false).
    { apply String.eqb_neq. intros ->. apply Hnot. now left. }
    split; [|apply IH; [exact Hrest | tauto]].
    rewrite Ha. apply Forall_app. split.
    + rewrite Forall_forall in *. intros k' Hin.
      destruct (String.eqb k' k); [lia|]. specialize (Hall k' Hin). lia.
    + constructor; [|constructor]. rewrite String.eqb_refl. lia.
Qed.

Lemma not_In_filter_neq (k : string) (keys : list string) :
  ~ In k (filter (fun k' => negb (String.eqb k k')) keys).
Proof.
  intros Hin. apply filter_In in Hin. destruct Hin as [_ Hne].
  now rewrite String.eqb_refl in Hne.
Qed.

Lemma set_keys (c c' : InMemoryCache) (k : string) (v : PyValue)
    (ttl : option Z) (now : Q) :
  Cache.set c k v ttl now = Ok c' ->
  exists l : list string,
    cache_keys c' = (l ++ [k])%list
    /\ ~ In k l
    /\ (forall k', In k' l -> In k' (cache_keys c))
    /\ (forall log, ordered_by_use log (cache_keys c) -> ordered_by_use log l).
Proof.
  intros Hset. unfold cache_keys.
  destruct (OrderedDict.contains k (_cache c)) eqn:Hc.
  - rewrite set_existing in Hset by exact Hc. injection Hset as <-.
    exists (filter (fun k' => negb (String.eqb k k')) (OrderedDict.keys (_cache c))).
    cbn [with_cache _cache].
    rewrite DictFacts.keys_app, DictFacts.keys_delete.
    split; [reflexivity|]. split; [apply not_In_filter_neq|]. split.
    + intros k' Hin. now apply filter_In in Hin.
    + intros log. apply ordered_filter.
  - assert (Hnot : ~ In k (OrderedDict.keys (_cache c))).
    { intros Hin. apply DictFacts.contains_In in Hin. congruence. }
    destruct (Z.ltb_spec (cache_len c) (_max_entries c)) as [Hlt|Hge].
    + rewrite set_new_room in Hset by assumption. injection Hset as <-.
      exists (OrderedDict.keys (_cache c)). cbn [with_cache _cache].
      rewrite DictFacts.keys_app. auto.
    + assert (Hcase : _cache c = [] \/ exists p rest, _cache c = p :: rest)
        by (destruct (_cache c) as [|p rest]; [now left | right; eauto]).
      destruct Hcase as [Hd | [p [rest Hd]]].
      * rewrite set_new_full_empty in Hset by assumption. discriminate.
      * rewrite (set_new_full c k v ttl now p rest) in Hset by assumption.
        injection Hset as <-. cbn [with_cache _cache].
        exists (OrderedDict.keys rest).
        rewrite DictFacts.keys_app, Hd in *.
        split; [reflexivity|]. split; [|split].
        -- intros Hin. apply Hnot. now right.
        -- intros k' Hin. now right.
        -- intros log [_ Hrest]. exact Hrest.
Qed.

Lemma recency_filter (c : InMemoryCache) (log : list string) (g : string -> bool) :
  recency_inv c log ->
  recency_inv (with_cache c (filter (fun p => g (fst p)) (_cache c))) log.
Proof.
  intros [Ho Hin]. unfold recency_inv, cache_keys in *. cbn [with_cache _cache].
  rewrite keys_filter. split; [now apply ordered_filter|].
  intros k Hk. apply filter_In in Hk. now apply Hin.
Qed.

Lemma recency_step `{PyRuntime} (c : InMemoryCache) (log : list string)
    (op : CacheOp) :
  recency_inv c log -> recency_inv (step c op) (log_use c op log).
Proof.
  intros Hinv. unfold log_use.
  destruct op as [k now|k v ttl now|k|pattern| |now]; cbn [step use_of].
  - unfold Cache.get.
    destruct (OrderedDict.lookup k (_cache c)) as [e|] eqn:El; [|exact Hinv].
    destruct (Cache.is_expired now e); cbn [snd].
    + exact (recency_filter c log (fun k' => negb (String.eqb k k')) Hinv).
    + destruct Hinv as [Ho Hin]. unfold recency_inv, cache_keys in *.
      cbn [with_cache _cache].
      rewrite DictFacts.keys_move_to_end
        by (apply DictFacts.contains_lookup; congruence).
      split.
      * apply ordered_touch; [now apply ordered_filter | apply not_In_filter_neq].
      * intros k' Hk'. apply in_app_or in Hk'. destruct Hk' as [Hk'|[<-|[]]].
        -- right. apply Hin. now apply filter_In in Hk'.
        -- now left.
  - destruct (Cache.set c k v ttl now) as [c'|e] eqn:Hset; [|exact Hinv].
    destruct (set_keys c c' k v ttl now Hset) as [l [Hk [Hnot [Hsub Hord]]]].
    destruct Hinv as [Ho Hin]. unfold recency_inv. rewrite Hk. split.
    + apply ordered_touch; [now apply Hord | exact Hnot].
    + intros k' Hk'. apply in_app_or in Hk'. destruct Hk' as [Hk'|[<-|[]]].
      * right. apply Hin. now apply Hsub.
      * now left.
  - unfold Cache.invalidate.
    destruct (OrderedDict.contains k (_cache c)); [|exact Hinv].
    exact (recency_filter c log (fun k' => negb (String.eqb k k')) Hinv).
  - change (recency_inv (step c (OpInvalidatePattern pattern)) log).
    rewrite step_invalidate_pattern.
    destruct (re_compile pattern) as [regex|] eqn:E.
    + rewrite (invalidate_pattern_Ok c pattern regex E).
      exact (recency_filter c log (fun k' => negb (re_match regex k')) Hinv).
    + unfold Cache.invalidate_pattern. now rewrite E.
  - split; [exact I | intros k []].
  - exact Hinv.
Qed.

Lemma recency_run `{PyRuntime} (ops : list CacheOp) (c : InMemoryCache)
    (log : list string) :
  recency_inv c log -> recency_inv (run ops c) (uses ops c log).
Proof.
  revert c log. induction ops as [|op ops IH]; intros c log Hinv; [exact Hinv|].
  cbn [run fold_left uses]. apply IH. now apply recency_step.
Qed.


(** C6 (capacity). Take any capacity and any sequence of cache operations
    on a new cache.  If a [set] then returns normally, the cache holds at
    most [max_entries] entries.  The keys stored stand in the order of
    their last use (a use being a [set] that returned or a [get] that hit),
    and each of them has been used.  When the key is new and the cache is at
    capacity, the [set] removes exactly the first entry and appends the new
    one, and the entry removed is the least recently used: every other key
    stored was used after its last use.  When the key is new and there is
    room, the [set] only appends.  A [set] of a key that is present,
    whatever the capacity and the number of entries, returns normally, keeps
    the number of entries, keeps every other entry, and removes no key.
    With capacity 2, [set(a,1); set(b,2); set(a,1)] leaves
    [stats().current == 2]; and after [set(a,1); set(b,2); get(a)] the
    uses are [a, b, a], so [set(c,3)] evicts [b]. *)
Theorem C6_capacity_invariant :
  (forall (R : PyRuntime) (default_ttl cap : Z) (ops : list CacheOp)
          (k : string) (v : PyValue) (ttl : option Z) (now : Q)
          (c' : InMemoryCache),
      let c := run ops (Cache.init default_ttl cap) in
      let log := uses ops (Cache.init default_ttl cap) [] in
      Cache.set c k v ttl now = Ok c' ->
      cache_len c' <= cap
      /\ ordered_by_use log (cache_keys c)
      /\ (forall k', In k' (cache_keys c) -> In k' log)
      /\ (OrderedDict.contains k (_cache c) = false -> cap <= cache_len c ->
          exists p rest,
            _cache c = p :: rest
            /\ _cache c' = (rest ++ [(k, entry_for c v ttl now)])%list
            /\ cache_len c' = cache_len c
            /\ In (fst p) log
            /\ (forall k', In k' (OrderedDict.keys rest) ->
                  (age log k' < age log (fst p))%nat))
      /\ (OrderedDict.contains k (_cache c) = false -> cache_len c < cap ->
          _cache c' = (_cache c ++ [(k, entry_for c v ttl now)])%list))
  /\ (forall (c : InMemoryCache) (k : string) (v : PyValue) (ttl : option Z)
             (now : Q),
         NoDup (cache_keys c) ->
         OrderedDict.contains k (_cache c) = true ->
         exists c', Cache.set c k v ttl now = Ok c'
           /\ cache_len c' = cache_len c
           /\ (forall k', OrderedDict.contains k' (_cache c') =
                          OrderedDict.contains k' (_cache c))
           /\ (forall k', k' <> k ->
                 OrderedDict.lookup k' (_cache c') = OrderedDict.lookup k' (_cache c)))
  /\ (let R := mini_runtime in
      current (Cache.stats
                 (run [OpSet "a" (PyInt 1) None 0; OpSet "b" (PyInt 2) None 0;
                       OpSet "a" (PyInt 1) None 0] (Cache.init 300 2)) 0) = 2)
  /\ (let R := mini_runtime in
      let ops := [OpSet "a" (PyInt 1) None 0; OpSet "b" (PyInt 2) None 0;
                  OpGet "a" 1] in
      let c := run ops (Cache.init 300 2) in
      uses ops (Cache.init 300 2) [] = ["a"; "b"; "a"]
      /\ cache_keys c = ["b"; "a"]
      /\ cache_keys (run [OpSet "c" (PyInt 3) None 2] c) = ["a"; "c"]).
Proof.
  split; [|split; [|split]].
  - intros R default_ttl cap ops k v ttl now c' c log Hset.
    destruct (wf_run ops (Cache.init default_ttl cap) (wf_init _ _)) as [Hwf Hcap].
    fold c in Hwf, Hcap. simpl in Hcap.
    destruct (wf_set c c' k v ttl now Hwf Hset) as [_ Hlen].
    rewrite Hcap in Hlen. split; [exact Hlen|].
    assert (Hrec : recency_inv c log).
    { apply recency_run. split; [exact I | intros k0 []]. }
    destruct Hrec as [Hord Hused].
    split; [exact Hord|]. split; [exact Hused|]. split.
    + intros Hc Hfull.
      assert (Hcase : _cache c = [] \/ exists p rest, _cache c = p :: rest)
        by (destruct (_cache c) as [|p rest]; [now left | right; eauto]).
      destruct Hcase as [Hd | [p [rest Hd]]].
      * rewrite set_new_full_empty in Hset; [discriminate | lia | exact Hd].
      * exists p, rest. split; [exact Hd|].
        rewrite (set_new_full c k v ttl now p rest) in Hset; [|assumption|lia|assumption].
        injection Hset as <-. simpl. split; [reflexivity|].
        split; [unfold cache_len; simpl; rewrite Hd, length_snoc; simpl List.length; lia|].
        unfold cache_keys in Hord, Hused. rewrite Hd in Hord, Hused.
        cbn [OrderedDict.keys map ordered_by_use] in Hord, Hused.
        destruct Hord as [Hall _]. split; [apply Hused; now left|].
        intros k' Hin. rewrite Forall_forall in Hall. now apply Hall.
    + intros Hc Hroom. rewrite set_new_room in Hset; [|assumption|lia].
      now injection Hset as <-.
  - intros c k v ttl now Hnd Hc.
    destruct (set_overwrite c k v ttl now Hnd Hc) as [c' [H1 [H2 [H3 [H4 _]]]]].
    exists c'. auto.
  - reflexivity.
  - vm_compute. repeat split.
Qed.

(** A cache of capacity 2 after [set(a); set(b); get(a)], then [set(c)]:
    [b] is removed, the key whose last use is the oldest. *)
Lemma C6_capacity_invariant_witness :
  let R := mini_runtime in
  let ops := [OpSet "a" (PyInt 1) None 0; OpSet "b" (PyInt 2) None 0; OpGet "a" 1] in
  let c := run ops (Cache.init 300 2) in
  let log := uses ops (Cache.init 300 2) [] in
  exists c', Cache.set c "c" (PyInt 3) None 2 = Ok c'
    /\ cache_len c' <= 2
    /\ cache_keys c' = ["a"; "c"]
    /\ (age log "a" < age log "b")%nat.
Proof.
  intros R ops c log. eexists. split; [reflexivity|].
  destruct (proj1 C6_capacity_invariant R 300 2 ops "c" (PyInt 3) None 2%Q _
              eq_refl) as [Hlen [_ [_ [Hfull _]]]].
  split; [exact Hlen|]. split; [reflexivity|].
  destruct (Hfull eq_refl ltac:(vm_compute; discriminate))
    as [p [rest [Hd [_ [_ [_ Hage]]]]]].
  vm_compute in Hd. injection Hd as <- <-.
  exact (Hage "a" ltac:(now left)).
Defined.

(** *** Recency order *)

Lemma get_hit (c : InMemoryCache) (k : string) (e : CacheEntry) (now : Q) :
  OrderedDict.lookup k (_cache c) = Some e ->
  Cache.is_expired now e = false ->
  Cache.get c k now =
  (value e, with_cache c (OrderedDict.delete k (_cache c) ++ [(k, e)])%list).
Proof.
  intros Hl He. unfold Cache.get, OrderedDict.move_to_end. now rewrite Hl, He.
Qed.

Lemma run_inserts `{PyRuntime} (items : list (string * PyValue * option Z * Q))
    (c : InMemoryCache) :
  NoDup (cache_keys c ++ map item_key items)%list ->
  cache_len c + Z.of_nat (List.length items) <= _max_entries c ->
  cache_keys (run (map set_op items) c) = (cache_keys c ++ map item_key items)%list
  /\ _max_entries (run (map set_op items) c) = _max_entries c
  /\ _default_ttl (run (map set_op items) c) = _default_ttl c.
Proof.
  revert c. induction items as [|[[[k v] ttl] now] items IH]; intros c Hnd Hlen.
  - simpl. now rewrite app_nil_r.
  - simpl in *. 
    assert (Hc : OrderedDict.contains k (_cache c) = false).
    { destruct (OrderedDict.contains k (_cache c)) eqn:E; [|reflexivity].
      apply DictFacts.contains_In in E. apply NoDup_remove_2 in Hnd.
      exfalso. apply Hnd. apply in_or_app. now left. }
    rewrite set_new_room by (assumption || lia).
    set (c1 := with_cache c (_cache c ++ [(k, entry_for c v ttl now)])%list).
    assert (Hk1 : cache_keys c1 = (cache_keys c ++ [k])%list).
    { unfold c1, cache_keys. simpl. now rewrite DictFacts.keys_app. }
    destruct (IH c1) as [IH1 [IH2 IH3]].
    + rewrite Hk1, <- app_assoc. exact Hnd.
    + unfold c1, cache_len in *. simpl. rewrite length_snoc. lia.
    + rewrite IH1, IH2, IH3, Hk1, <- app_assoc. now split.
Qed.

Lemma lookup_In (d : OrderedDict.t) (k : string) :
  In k (OrderedDict.keys d) -> OrderedDict.lookup k d <> None.
Proof. intros H. now apply DictFacts.contains_lookup, DictFacts.contains_In. Qed.

Lemma get_hit_protects_from_2 (cap : Z) : 2 <= cap -> get_hit_protects cap.
Proof.
  intros Hcap c k k' e now now' v' ttl' [Hnd _] Hmax Hlen Hl He Hc'.
  rewrite (get_hit c k e now Hl He). simpl. split; [reflexivity|].
  assert (Hc : OrderedDict.contains k (_cache c) = true)
    by (apply DictFacts.contains_lookup; congruence).
  pose proof (DictFacts.length_delete_present k (_cache c) Hnd Hc) as Hdl.
  unfold cache_len in Hlen.
  assert (Hne : k' <> k).
  { intros ->. rewrite Hc in Hc'. discriminate. }
  set (c1 := with_cache c (OrderedDict.delete k (_cache c) ++ [(k, e)])%list).
  assert (Hc1 : OrderedDict.contains k' (_cache c1) = false).
  { apply DictFacts.contains_false_lookup. unfold c1, with_cache. simpl.
    rewrite lookup_touch.
    destruct (String.eqb k' k) eqn:E;
      [apply String.eqb_eq in E; contradiction|].
    now apply DictFacts.contains_false_lookup. }
  assert (Hr : OrderedDict.lookup k (OrderedDict.delete k (_cache c)) = None)
    by apply DictFacts.lookup_delete_same.
  assert (Hd : exists p rest, OrderedDict.delete k (_cache c) = p :: rest).
  { destruct (OrderedDict.delete k (_cache c)) as [|p rest];
      [simpl in Hdl; lia | eauto]. }
  destruct Hd as [p [rest Hd]].
  exists (with_cache c1 ((rest ++ [(k, e)]) ++ [(k', entry_for c1 v' ttl' now')])%list).
  split.
  - apply (set_new_full c1 k' v' ttl' now' p (rest ++ [(k, e)])%list).
    + exact Hc1.
    + unfold c1, cache_len, with_cache. simpl.
      rewrite length_snoc. rewrite <- Hdl in Hlen. lia.
    + unfold c1, with_cache. simpl. now rewrite Hd.
  - unfold with_cache. simpl. rewrite !DictFacts.lookup_app.
    rewrite Hd in Hr. destruct p as [kp ep]. simpl in Hr.
    destruct (String.eqb k kp); [discriminate|].
    rewrite Hr. simpl. now rewrite String.eqb_refl.
Qed.

(** C3 (LRU order), amended.  With capacity [cap >= 1], after [cap] distinct
    keys have been set on a new cache the recency order is the insertion
    order, and the [set] of one more distinct key returns, removes exactly
    the first key set and leaves every other entry as it was.  With
    [cap >= 2], a get-hit on a key of a full cache moves it away from the
    eviction position: the [set] of a new key right after it returns and
    the key read keeps its entry.  With capacity 2,
    [set(a,1); set(b,2); get(a); set(c,3)] gives [get(b)] a miss,
    [get(a) == 1] and [get(c) == 3]. *)
Theorem C3_lru_order :
  (forall (R : PyRuntime) (default_ttl cap : Z)
          (items : list (string * PyValue * option Z * Q))
          (k : string) (v : PyValue) (ttl : option Z) (now : Q),
      1 <= cap ->
      NoDup (map item_key items) ->
      Z.of_nat (List.length items) = cap ->
      ~ In k (map item_key items) ->
      let c := run (map set_op items) (Cache.init default_ttl cap) in
      cache_keys c = map item_key items
      /\ exists c', Cache.set c k v ttl now = Ok c'
           /\ cache_keys c' = (tl (map item_key items) ++ [k])%list
           /\ (forall k', In k' (tl (map item_key items)) ->
                 OrderedDict.lookup k' (_cache c') = OrderedDict.lookup k' (_cache c)))
  /\ (forall cap : Z, 2 <= cap -> get_hit_protects cap)
  /\ (let R := mini_runtime in
      let c := run [OpSet "a" (PyInt 1) None 0; OpSet "b" (PyInt 2) None 0;
                    OpGet "a" 1; OpSet "c" (PyInt 3) None 2] (Cache.init 300 2) in
      let '(vb, c1) := Cache.get c "b" 3 in
      let '(va, c2) := Cache.get c1 "a" 3 in
      let '(vc, _) := Cache.get c2 "c" 3 in
      vb = PyNone /\ va = PyInt 1 /\ vc = PyInt 3).
Proof.
  split; [|split].
  - intros R default_ttl cap items k v ttl now Hcap Hnd Hlen Hnew c.
    destruct (run_inserts items (Cache.init default_ttl cap)) as [Hk [Hm _]].
    { exact Hnd. } { unfold cache_len. simpl. lia. }
    fold c in Hk, Hm. simpl in Hk, Hm. split; [exact Hk|].
    assert (Hc : OrderedDict.contains k (_cache c) = false).
    { destruct (OrderedDict.contains k (_cache c)) eqn:E; [|reflexivity].
      apply DictFacts.contains_In in E. fold (cache_keys c) in E.
      rewrite Hk in E. contradiction. }
    assert (Hl : cache_len c = cap).
    { unfold cache_len. rewrite <- Hlen. f_equal.
      rewrite <- (length_map item_key items), <- Hk. unfold cache_keys, OrderedDict.keys.
      now rewrite length_map. }
    unfold cache_keys in Hk.
    destruct (_cache c) as [|[k0 e0] rest] eqn:Hd;
      [unfold cache_len in Hl; rewrite Hd in Hl; simpl in Hl; lia|].
    eexists. split.
    + apply (set_new_full c k v ttl now (k0, e0) rest); [|lia|exact Hd].
      now rewrite Hd.
    + rewrite <- Hk. simpl. split.
      * unfold cache_keys. simpl. now rewrite DictFacts.keys_app.
      * intros k' Hin. rewrite DictFacts.lookup_app.
        pose proof (lookup_In rest k' Hin) as Hsome.
        rewrite <- Hk in Hnd. simpl in Hnd. inversion Hnd as [|? ? Hnotin _]; subst.
        destruct (String.eqb k' k0) eqn:E.
        -- apply String.eqb_eq in E. subst k0. contradiction.
        -- destruct (OrderedDict.lookup k' rest); [reflexivity | congruence].
  - exact get_hit_protects_from_2.
  - vm_compute. repeat split.
Qed.

(** C3 as the specification words it fails at capacity 1: after [set(a,1)]
    and a get-hit on [a], the [set] of [c] evicts [a], the key just read. *)
Lemma C3_counterexample :
  (let R := mini_runtime in
   let c1 := run [OpSet "a" (PyInt 1) None 0] (Cache.init 300 1) in
   let c3 := run [OpGet "a" 1; OpSet "c" (PyInt 3) None 2] c1 in
   fst (Cache.get c1 "a" 1) = PyInt 1
   /\ cache_keys c3 = ["c"]
   /\ fst (Cache.get c3 "a" 3) = PyNone)
  /\ ~ get_hit_protects 1.
Proof.
  split; [vm_compute; repeat split|].
  intros H.
  destruct (H (mkCache 300 1 [("a", mkCacheEntry (PyInt 1) 300)]) "a" "c"
              (mkCacheEntry (PyInt 1) 300) 1%Q 2%Q (PyInt 3) None)
    as [_ [c2 [Hset Hl]]]; try reflexivity.
  - split; [repeat constructor; intros [] | vm_compute; discriminate].
  - vm_compute in Hset. injection Hset as <-. vm_compute in Hl. discriminate.
Qed.

(** Three keys into a cache of capacity 3, then a fourth. *)
Lemma C3_lru_order_witness :
  let R := mini_runtime in
  let items := [("a", PyInt 1, None, 0%Q); ("b", PyInt 2, None, 0%Q);
                ("c", PyInt 3, None, 0%Q)] in
  let c := run (map set_op items) (Cache.init 300 3) in
  1 <= 3 /\ NoDup (map item_key items) /\ Z.of_nat (List.length items) = 3
  /\ ~ In "d" (map item_key items)
  /\ cache_keys c = ["a"; "b"; "c"]
  /\ exists c', Cache.set c "d" (PyInt 4) None 1 = Ok c'
                /\ cache_keys c' = ["b"; "c"; "d"].
Proof.
  intros R items c.
  assert (H1 : 1 <= 3) by lia.
  assert (H2 : NoDup (map item_key items))
    by (repeat constructor; simpl; intuition discriminate).
  assert (H3 : Z.of_nat (List.length items) = 3) by reflexivity.
  assert (H4 : ~ In "d" (map item_key items)) by (simpl; intuition discriminate).
  destruct (proj1 C3_lru_order R 300 3 items "d" (PyInt 4) None 1%Q H1 H2 H3 H4)
    as [Hk [c' [Hset [Hk' _]]]].
  repeat split; try assumption. exists c'. split; assumption.
Defined.

(** ** The request pipeline *)

Lemma same_world_refl (st : State) : same_world st st.
Proof. repeat split. Qed.

Lemma same_world_trans (st1 st2 st3 : State) :
  same_world st1 st2 -> same_world st2 st3 -> same_world st1 st3.
Proof. unfold same_world. intuition congruence. Qed.

Lemma cache_get_spec (key : string) (st : State) :
  cache_get key st =
  (Ok (fst (Cache.get (st_cache st) key (st_now st))),
   set_cache st (snd (Cache.get (st_cache st) key (st_now st)))).
Proof. unfold cache_get. now destruct (Cache.get (st_cache st) key (st_now st)). Qed.

Lemma cache_set_same_world (key : string) (v : PyValue) (ttl : option Z) (st : State) :
  same_world st (snd (cache_set key v ttl st)).
Proof.
  unfold cache_set. destruct (Cache.set _ _ _ _ _); repeat split.
Qed.

Lemma cache_invalidate_pattern_same_world `{PyRuntime} (pattern : string) (st : State) :
  same_world st (snd (cache_invalidate_pattern pattern st)).
Proof.
  rewrite cache_invalidate_pattern_unfold.
  destruct (Cache.invalidate_pattern _ _) as [[n c]|e]; repeat split.
Qed.

Section PipelineFacts.

Context `{PyRuntime}.
Variable env : Env.
Variable self : WorldAnvilClient.
Variables method path : string.
Variable cache_key : option string.
Variable cache_ttl : option Z.

Lemma consult_cache_spec (st : State) :
  consult_cache method cache_key st =
  match cacheable method cache_key with
  | Some key => (Ok (fst (Cache.get (st_cache st) key (st_now st))),
                 set_cache st (snd (Cache.get (st_cache st) key (st_now st))))
  | None => (Ok PyNone, st)
  end.
Proof.
  unfold consult_cache. destruct (cacheable method cache_key); [|reflexivity].
  apply cache_get_spec.
Qed.

Lemma consult_cache_same_world (st : State) :
  same_world st (snd (consult_cache method cache_key st)).
Proof.
  rewrite consult_cache_spec. destruct (cacheable method cache_key);
    repeat split.
Qed.

Lemma handle_response_same_world (response : Response) (st : State) :
  same_world st (snd (handle_response self method path cache_key cache_ttl response st)).
Proof.
  unfold handle_response, bind, lift, ret.
  destruct (check_response path response) as [data|e]; [|apply same_world_refl].
  set (m1 := match cacheable method cache_key with
             | Some key => _ | None => _ end).
  assert (H1 : same_world st (snd (m1 st))).
  { unfold m1. destruct (cacheable method cache_key);
      [apply cache_set_same_world | apply same_world_refl]. }
  destruct (m1 st) as [[[]|e] st1]; simpl in H1 |- *; [|exact H1].
  destruct (is_write_method method); [|exact H1].
  destruct (negb (String.eqb (resource_type_of path) "")); [|exact H1].
  pose proof (cache_invalidate_pattern_same_world
                (".*" ++ resource_type_of path ++ ".*") st1) as H2.
  destruct (cache_invalidate_pattern _ st1) as [[n|e] st2]; simpl in H2 |- *;
    eapply same_world_trans; eassumption.
Qed.

(** What [_request] does after the cache consultation. *)
Lemma request_unfold (st : State) :
  _request env self method path cache_key cache_ttl st =
  let st1 := snd (consult_cache method cache_key st) in
  match fst (consult_cache method cache_key st) with
  | Ok cached =>
      if negb (is_none cached) then (Ok cached, st1)
      else if negb (_client self) then (Raise ClientNotInitialized, st1)
      else attempts env self method path cache_key cache_ttl
             (Z.to_nat (max_retries self)) 0 None st1
  | Raise e => (Raise e, st1)
  end.
Proof.
  unfold _request, bind.
  destruct (consult_cache method cache_key st) as [[cached|e] st1]; simpl; [|reflexivity].
  destruct (is_none cached); simpl; [|reflexivity].
  destruct (_client self); reflexivity.
Qed.

(** One iteration of the retry loop. *)
Lemma attempts_S (remaining : nat) (attempt : Z)
    (last_error : option TransportError) (st : State) :
  attempts env self method path cache_key cache_ttl (S remaining) attempt last_error st =
  let st1 := after_call env method path st in
  match net env (st_calls st) with
  | Responded response =>
      handle_response self method path cache_key cache_ttl response st1
  | TransportFailed e =>
      match on_transport_error env self attempt st1 with
      | (Ok _, st2) =>
          attempts env self method path cache_key cache_ttl remaining
                   (attempt + 1) (Some e) st2
      | (Raise x, st2) => (Raise x, st2)
      end
  | Crashed msg => (Raise (OtherError msg), st1)
  end.
Proof.
  simpl. unfold bind, client_request, after_call.
  destruct (net env (st_calls st)); reflexivity.
Qed.

Lemma on_transport_error_spec (attempt : Z) (st : State) :
  on_transport_error env self attempt st =
  if attempt <? max_retries self - 1
  then match backoff attempt (random env (st_rolls st)) with
       | Ok delay =>
           (Ok tt,
            mkState (st_cache st) (st_now st + delay)%Q
                    (st_calls st) (S (st_rolls st))
                    (st_trace st ++ [EvSleep delay])%list)
       | Raise e =>
           (Raise e,
            mkState (st_cache st) (st_now st) (st_calls st) (S (st_rolls st))
                    (st_trace st))
       end
  else (Ok tt, st).
Proof.
  unfold on_transport_error. destruct (attempt <? max_retries self - 1);
    [|reflexivity].
  unfold bind, random_random, lift, asyncio_sleep.
  now destruct (backoff attempt (random env (st_rolls st))).
Qed.

Lemma grows_refl (st : State) : grows st st.
Proof. split; [exists []; now rewrite app_nil_r | lia]. Qed.

Lemma grows_trans (st1 st2 st3 : State) :
  grows st1 st2 -> grows st2 st3 -> grows st1 st3.
Proof.
  intros [[e1 H1] L1] [[e2 H2] L2]. split; [|lia].
  exists (e1 ++ e2)%list. now rewrite H2, H1, app_assoc.
Qed.

Lemma same_world_grows (st st' : State) : same_world st st' -> grows st st'.
Proof.
  intros [_ [Hc [_ Ht]]]. split; [exists []; now rewrite app_nil_r, Ht | lia].
Qed.

Lemma attempts_grows (remaining : nat) (attempt : Z)
    (last_error : option TransportError) (st : State) :
  grows st (snd (attempts env self method path cache_key cache_ttl
                          remaining attempt last_error st)).
Proof.
  revert attempt last_error st.
  induction remaining as [|n IH]; intros attempt last_error st.
  - apply grows_refl.
  - rewrite attempts_S. cbv zeta.
    assert (G1 : grows st (after_call env method path st)).
    { split; [eexists; reflexivity | simpl; lia]. }
    destruct (net env (st_calls st)) as [response|e|msg].
    + eapply grows_trans; [exact G1|].
      apply same_world_grows, handle_response_same_world.
    + rewrite on_transport_error_spec.
      destruct (attempt <? max_retries self - 1).
      * destruct (backoff attempt _) as [delay|ex].
        -- eapply grows_trans; [exact G1|]. eapply grows_trans; [|apply IH].
           split; [eexists; reflexivity | simpl; lia].
        -- eapply grows_trans; [exact G1|].
           split; [exists []; simpl; now rewrite app_nil_r | simpl; lia].
      * eapply grows_trans; [exact G1 | apply IH].
    + exact G1.
Qed.

(** A retry loop with an iteration to go calls the network first. *)
Lemma attempts_calls_first (remaining : nat) (attempt : Z)
    (last_error : option TransportError) (st : State) :
  let st' := snd (attempts env self method path cache_key cache_ttl
                           (S remaining) attempt last_error st) in
  (exists evs, st_trace st' = (st_trace st ++ EvRequest method path :: evs)%list)
  /\ (S (st_calls st) <= st_calls st')%nat.
Proof.
  cbv zeta.
  assert (G : grows (after_call env method path st)
                    (snd (attempts env self method path cache_key cache_ttl
                                   (S remaining) attempt last_error st))).
  { rewrite attempts_S. cbv zeta.
    destruct (net env (st_calls st)) as [response|e|msg].
    - apply same_world_grows, handle_response_same_world.
    - rewrite on_transport_error_spec.
      destruct (attempt <? max_retries self - 1).
      + destruct (backoff attempt _) as [delay|ex].
        * eapply grows_trans; [|apply attempts_grows].
          split; [eexists; reflexivity | simpl; lia].
        * split; [exists []; simpl; now rewrite app_nil_r | simpl; lia].
      + apply attempts_grows.
    - apply grows_refl. }
  destruct G as [[evs Ht] Hc]. unfold after_call in Ht, Hc.
  cbn [st_trace st_calls] in Ht, Hc. split; [|exact Hc].
  exists evs. now rewrite Ht, <- app_assoc.
Qed.

End PipelineFacts.

Lemma cacheable_GET (key : string) :
  key <> "" -> cacheable "GET" (Some key) = Some key.
Proof.
  intros Hne. unfold cacheable. simpl.
  destruct (String.eqb key "") eqn:E; [|reflexivity].
  apply String.eqb_eq in E. contradiction.
Qed.

Lemma is_none_false (v : PyValue) : v <> PyNone -> is_none v = false.
Proof. destruct v; simpl; congruence. Qed.

(** C9 (the cache is consulted before the client check), amended.  On a
    client whose HTTP client is not initialised, a GET with a non-empty cache
    key whose entry is live and holds a value other than [None] returns that
    value, marks the entry most recently used, and touches neither the
    network nor the clock.  Whenever the cache consultation yields [None] (a
    verb other than GET, no key or an empty key, an absent or expired entry,
    or a stored [None]) the request raises the "Client not initialized"
    error, again without any network call. *)
Theorem C9_cache_before_client_check (R : PyRuntime) (env : Env)
    (self : WorldAnvilClient) :
  _client self = false ->
  (forall (path key : string) (cache_ttl : option Z) (st : State) (e : CacheEntry),
      key <> "" ->
      OrderedDict.lookup key (_cache (st_cache st)) = Some e ->
      Cache.is_expired (st_now st) e = false ->
      value e <> PyNone ->
      _request env self "GET" path (Some key) cache_ttl st =
      (Ok (value e),
       set_cache st (with_cache (st_cache st)
                       (OrderedDict.move_to_end key (_cache (st_cache st))))))
  /\ (forall (method path : string) (cache_key : option string)
             (cache_ttl : option Z) (st : State),
         fst (consult_cache method cache_key st) = Ok PyNone ->
         let out := _request env self method path cache_key cache_ttl st in
         fst out = Raise ClientNotInitialized
         /\ st_calls (snd out) = st_calls st
         /\ st_trace (snd out) = st_trace st).
Proof.
  intros Hclosed. split.
  - intros path key cache_ttl st e Hkey Hl Hlive Hv.
    rewrite request_unfold, consult_cache_spec, (cacheable_GET key Hkey).
    unfold Cache.get. rewrite Hl, Hlive. cbn [fst snd].
    now rewrite (is_none_false _ Hv).
  - intros method path cache_key cache_ttl st Hmiss. cbv zeta.
    rewrite request_unfold. cbv zeta. rewrite Hmiss. cbn [is_none negb].
    rewrite Hclosed. cbn [negb fst snd].
    destruct (consult_cache_same_world method cache_key st) as [_ [Hc [_ Ht]]].
    auto.
Qed.

(** C9 as the specification words it fails when the live entry holds
    [None]: the request raises instead of returning the cached value. *)
Lemma C9_counterexample :
  let R := mini_runtime in
  let c := run [OpSet "k" PyNone (Some 300) 0] (Cache.init 300 1000) in
  let st := mkState c 1 0 0 [] in
  OrderedDict.lookup "k" (_cache c) = Some (mkCacheEntry PyNone 300)
  /\ Cache.is_expired (st_now st) (mkCacheEntry PyNone 300) = false
  /\ fst (_request env_ok client_closed "GET" "/identity" (Some "k") None st)
     = Raise ClientNotInitialized.
Proof. vm_compute. repeat split. Qed.

(** A cached identity read on a client outside its context manager. *)
Lemma C9_cache_before_client_check_witness :
  let R := mini_runtime in
  let c := run [OpSet "identity" ok_body (Some 3600) 0] (Cache.init 300 1000) in
  let st := mkState c 10 0 0 [] in
  _client client_closed = false
  /\ "identity" <> ""
  /\ fst (_request env_ok client_closed "GET" "/identity" (Some "identity")
                   (Some 3600) st) = Ok ok_body
  /\ st_calls (snd (_request env_ok client_closed "GET" "/identity"
                             (Some "identity") (Some 3600%Z) st)) = 0%nat.
Proof.
  intros R c st.
  assert (H1 : _client client_closed = false) by reflexivity.
  assert (H2 : "identity" <> "") by discriminate.
  split; [exact H1|]. split; [exact H2|].
  rewrite (proj1 (C9_cache_before_client_check R env_ok client_closed H1)
             "/identity" "identity" (Some 3600) st
             (mkCacheEntry ok_body 3600) H2 eq_refl eq_refl
             ltac:(discriminate)).
  split; reflexivity.
Defined.

(** C10 (a stored [None] reads as a miss).  After [set(k, None, ttl)], with
    any TTL, [get(k)] returns [None] at any time, which is what [get]
    returns for an absent key; while the entry is live that [get] still
    moves the key to the most recently used position and keeps the entry.
    More generally, wherever the key stands in a cache: a [get] of a key
    whose live entry holds [None] returns [None], moves the key behind all
    the others, whose order and entries it keeps, and so protects it from
    the next eviction (capacity at least 2); a [get] of a key whose entry
    has expired returns [None] and deletes the entry; a [get] of an absent
    key returns [None] and leaves the cache as it is; a [get] of a live
    entry with another value returns that value.  With capacity 2,
    [set(a, None); set(b, 2); get(a)] returns [None] and leaves the order
    [b, a], so that [set(c, 3)] evicts [b]; without the [get] it evicts [a].
    In the pipeline, a GET whose cache key holds [None] is not served from
    the cache: on an initialised client with at least one attempt allowed,
    the request goes on to call the network. *)
Theorem C10_none_is_miss :
  (forall (c c' : InMemoryCache) (k : string) (ttl : option Z) (now now' : Q),
      Cache.set c k PyNone ttl now = Ok c' ->
      fst (Cache.get c' k now') = PyNone
      /\ (Cache.is_expired now' (entry_for c PyNone ttl now) = false ->
          cache_keys (snd (Cache.get c' k now')) =
            (filter (fun k' => negb (String.eqb k k')) (cache_keys c') ++ [k])%list
          /\ OrderedDict.lookup k (_cache (snd (Cache.get c' k now'))) =
             Some (entry_for c PyNone ttl now)))
  /\ (forall (c : InMemoryCache) (k : string) (now : Q),
         OrderedDict.lookup k (_cache c) = None ->
         Cache.get c k now = (PyNone, c))
  /\ (forall (c : InMemoryCache) (k : string) (e : CacheEntry) (now : Q),
         OrderedDict.lookup k (_cache c) = Some e ->
         value e = PyNone ->
         Cache.is_expired now e = false ->
         fst (Cache.get c k now) = PyNone
         /\ cache_keys (snd (Cache.get c k now)) =
            (filter (fun k' => negb (String.eqb k k')) (cache_keys c) ++ [k])%list
         /\ (forall k', OrderedDict.lookup k' (_cache (snd (Cache.get c k now))) =
                        OrderedDict.lookup k' (_cache c))
         /\ (forall (k' : string) (v' : PyValue) (ttl' : option Z) (now' : Q),
                wf c -> 2 <= _max_entries c -> cache_len c = _max_entries c ->
                OrderedDict.contains k' (_cache c) = false ->
                exists c2,
                  Cache.set (snd (Cache.get c k now)) k' v' ttl' now' = Ok c2
                  /\ OrderedDict.lookup k (_cache c2) = Some e))
  /\ (forall (c : InMemoryCache) (k : string) (e : CacheEntry) (now : Q),
         OrderedDict.lookup k (_cache c) = Some e ->
         Cache.is_expired now e = true ->
         fst (Cache.get c k now) = PyNone
         /\ OrderedDict.lookup k (_cache (snd (Cache.get c k now))) = None
         /\ cache_keys (snd (Cache.get c k now)) =
            filter (fun k' => negb (String.eqb k k')) (cache_keys c))
  /\ (forall (c : InMemoryCache) (k : string) (e : CacheEntry) (now : Q),
         OrderedDict.lookup k (_cache c) = Some e ->
         Cache.is_expired now e = false ->
         fst (Cache.get c k now) = value e)
  /\ (let R := mini_runtime in
      let c := run [OpSet "a" PyNone None 0; OpSet "b" (PyInt 2) None 0]
                   (Cache.init 300 2) in
      let '(va, c1) := Cache.get c "a" 1 in
      cache_keys c = ["a"; "b"]
      /\ va = PyNone
      /\ cache_keys c1 = ["b"; "a"]
      /\ cache_keys (run [OpSet "c" (PyInt 3) None 2] c1) = ["a"; "c"]
      /\ cache_keys (run [OpSet "c" (PyInt 3) None 2] c) = ["b"; "c"]
      /\ Cache.get c "z" 1 = (PyNone, c))
  /\ (forall (R : PyRuntime) (env : Env) (self : WorldAnvilClient)
             (path k : string) (cache_ttl : option Z) (st : State) (e : CacheEntry),
         k <> "" ->
         OrderedDict.lookup k (_cache (st_cache st)) = Some e ->
         value e = PyNone ->
         _client self = true ->
         1 <= max_retries self ->
         let st' := snd (_request env self "GET" path (Some k) cache_ttl st) in
         (exists evs,
             st_trace st' = (st_trace st ++ EvRequest "GET" path :: evs)%list)
         /\ (S (st_calls st) <= st_calls st')%nat).
Proof.
  split; [|split; [|split; [|split; [|split; [|split]]]]].
  - intros c c' k ttl now now' Hset.
    pose proof (set_lookup_same _ _ _ _ _ _ Hset) as Hl.
    fold (entry_for c PyNone ttl now) in Hl.
    unfold Cache.get. rewrite Hl.
    destruct (Cache.is_expired now' (entry_for c PyNone ttl now)) eqn:E.
    + split; [reflexivity | discriminate].
    + split; [reflexivity|]. intros _. cbn [snd]. split.
      * unfold cache_keys. simpl. apply DictFacts.keys_move_to_end.
        apply DictFacts.contains_lookup. congruence.
      * simpl. now rewrite DictFacts.lookup_move_to_end_same.
  - intros c k now Hl. unfold Cache.get. now rewrite Hl.
  - intros c k e now Hl Hv He.
    rewrite (get_hit c k e now Hl He). cbn [fst snd].
    split; [exact Hv|]. split; [|split].
    + unfold cache_keys. cbn [with_cache _cache].
      rewrite DictFacts.keys_app, DictFacts.keys_delete. reflexivity.
    + intros k'. cbn [with_cache _cache]. rewrite lookup_touch.
      destruct (String.eqb k' k) eqn:E; [|reflexivity].
      apply String.eqb_eq in E. now subst k'.
    + intros k' v' ttl' now' Hwf Hcap Hfull Hnew.
      destruct (get_hit_protects_from_2 (_max_entries c) Hcap c k k' e now now' v'
                  ttl' Hwf eq_refl Hfull Hl He Hnew) as [_ Hprot].
      rewrite (get_hit c k e now Hl He) in Hprot. exact Hprot.
  - intros c k e now Hl He. unfold Cache.get. rewrite Hl, He. cbn [fst snd].
    split; [reflexivity|]. split.
    + cbn [with_cache _cache]. apply DictFacts.lookup_delete_same.
    + unfold cache_keys. cbn [with_cache _cache]. apply DictFacts.keys_delete.
  - intros c k e now Hl He. now rewrite (get_hit c k e now Hl He).
  - vm_compute. repeat split.
  - intros R env self path k cache_ttl st e Hk Hl Hv Hopen Hretries. cbv zeta.
    rewrite request_unfold, consult_cache_spec, (cacheable_GET k Hk). cbv zeta.
    assert (Hg : fst (Cache.get (st_cache st) k (st_now st)) = PyNone).
    { unfold Cache.get. rewrite Hl. destruct (Cache.is_expired _ e); [reflexivity|].
      exact Hv. }
    cbn [fst snd]. rewrite Hg. cbn [is_none negb]. rewrite Hopen. cbn [negb].
    destruct (Z.to_nat (max_retries self)) as [|n] eqn:En; [lia|].
    exact (attempts_calls_first env self "GET" path (Some k) cache_ttl n 0 None
             (set_cache st (snd (Cache.get (st_cache st) k (st_now st))))).
Qed.

(** A [null] body cached by a first read is fetched again by the second;
    read while it is the older of two entries, it becomes the newer one. *)
Lemma C10_none_is_miss_witness :
  let R := mini_runtime in
  let env := mkEnv (fun _ => Responded (mkResponse 200 None "null" (Some PyNone)))
                   (fun _ => 0%Q) (fun _ => 0%Q) in
  let st := snd (_request env client_open "GET" "/identity" (Some "identity")
                          (Some 3600) state0) in
  let c := run [OpSet "user:self:1" (PyInt 1) None 0] (st_cache st) in
  OrderedDict.lookup "identity" (_cache (st_cache st)) = Some (mkCacheEntry PyNone 3600)
  /\ (2 <= st_calls (snd (_request env client_open "GET" "/identity"
                                   (Some "identity") (Some 3600%Z) st)))%nat
  /\ cache_keys c = ["identity"; "user:self:1"]
  /\ cache_keys (snd (Cache.get c "identity" 1)) = ["user:self:1"; "identity"].
Proof.
  intros R env st c.
  assert (Hl : OrderedDict.lookup "identity" (_cache (st_cache st))
               = Some (mkCacheEntry PyNone 3600)) by reflexivity.
  split; [exact Hl|].
  destruct (proj2 (proj2 (proj2 (proj2 (proj2 (proj2 C10_none_is_miss))))) R env
              client_open "/identity" "identity"
              (Some 3600) st (mkCacheEntry PyNone 3600)
              ltac:(discriminate) Hl eq_refl eq_refl ltac:(simpl; lia)) as [_ Hc].
  split; [exact Hc|]. split; [reflexivity|].
  destruct (proj1 (proj2 (proj2 C10_none_is_miss)) c "identity"
              (mkCacheEntry PyNone 3600) 1%Q eq_refl eq_refl eq_refl)
    as [_ [Hk _]].
  rewrite Hk. reflexivity.
Defined.

(** *** Failures that are not retried *)

Lemma check_response_classified `{PyRuntime} (path : string) (r : Response)
    (e : PyExn) :
  classified path r e -> check_response path r = Raise e.
Proof.
  unfold check_response, HTTP_STATUS_UNAUTHORIZED, HTTP_STATUS_FORBIDDEN,
    HTTP_STATUS_NOT_FOUND, HTTP_STATUS_TOO_MANY_REQUESTS,
    HTTP_STATUS_SERVER_ERROR, HTTP_STATUS_CLIENT_ERROR.
  intros Hc. destruct Hc as [Hs|Hs|Hs|Hs Hh|h n Hs Hh Hi|Hge H1 H2 H3 H4|items Hlt Hb Hf].
  - now rewrite Hs.
  - now rewrite Hs.
  - now rewrite Hs.
  - now rewrite Hs, Hh.
  - now rewrite Hs, Hh, Hi.
  - rewrite (proj2 (Z.eqb_neq _ _) H1), (proj2 (Z.eqb_neq _ _) H2),
      (proj2 (Z.eqb_neq _ _) H3), (proj2 (Z.eqb_neq _ _) H4).
    destruct (status_code r >=? 500); [reflexivity|].
    assert ((status_code r >=? 400) = true) as ->
      by (rewrite Z.geb_leb; apply Z.leb_le; exact Hge).
    reflexivity.
  - assert ((status_code r =? 401) = false) as -> by (apply Z.eqb_neq; lia).
    assert ((status_code r =? 403) = false) as -> by (apply Z.eqb_neq; lia).
    assert ((status_code r =? 404) = false) as -> by (apply Z.eqb_neq; lia).
    assert ((status_code r =? 429) = false) as -> by (apply Z.eqb_neq; lia).
    assert ((status_code r >=? 500) = false) as ->
      by (rewrite Z.geb_leb; apply Z.leb_gt; lia).
    assert ((status_code r >=? 400) = false) as ->
      by (rewrite Z.geb_leb; apply Z.leb_gt; lia).
    now rewrite Hb, Hf.
Qed.

(** C5 (classification failures are not retried), amended.  Take a request
    that reaches the network (the cache consultation yields [None]) on an
    initialised client that allows at least one attempt.  If the first
    attempt is answered by a response that the classification maps to a
    failure (401 or 403 to the authorisation error, 404 to the not-found
    error, 429 whose [Retry-After] header is absent or holds an integer to
    the rate-limit error with the advised delay, 60 without the header, any
    other status from 400 up to the API error with the status, a status
    below 400 whose body has the success flag [false] to the API error),
    the request raises that failure, and the state is the one right after
    the single network call: one call logged, no sleep, no random draw, the
    cache as the consultation left it. *)
Theorem C5_classification_not_retried (R : PyRuntime) (env : Env)
    (self : WorldAnvilClient) (method path : string) (cache_key : option string)
    (cache_ttl : option Z) (st : State) (r : Response) (e : PyExn) :
  _client self = true ->
  1 <= max_retries self ->
  fst (consult_cache method cache_key st) = Ok PyNone ->
  net env (st_calls st) = Responded r ->
  classified path r e ->
  let st1 := snd (consult_cache method cache_key st) in
  let out := _request env self method path cache_key cache_ttl st in
  out = (Raise e, after_call env method path st1)
  /\ st_trace (snd out) = (st_trace st ++ [EvRequest method path])%list
  /\ st_calls (snd out) = S (st_calls st)
  /\ st_rolls (snd out) = st_rolls st
  /\ st_cache (snd out) = st_cache st1.
Proof.
  intros Hopen Hretries Hmiss Hnet Hcl. cbv zeta.
  destruct (consult_cache_same_world method cache_key st) as [Hn [Hc [Hr Ht]]].
  assert (Hout : _request env self method path cache_key cache_ttl st =
                 (Raise e, after_call env method path
                             (snd (consult_cache method cache_key st)))).
  { rewrite request_unfold. cbv zeta. rewrite Hmiss. cbn [is_none negb].
    rewrite Hopen. cbn [negb].
    destruct (Z.to_nat (max_retries self)) as [|n] eqn:En; [lia|].
    rewrite attempts_S. cbv zeta. rewrite Hc, Hnet.
    unfold handle_response, bind, lift.
    now rewrite (check_response_classified path r e Hcl). }
  rewrite Hout. cbn [fst snd]. unfold after_call. cbn [st_trace st_calls st_rolls st_cache].
  rewrite Ht, Hc, Hr. auto.
Qed.

(** A 429 with [Retry-After: 30] on a first identity read. *)
Lemma C5_classification_not_retried_witness :
  let R := mini_runtime in
  let r := mkResponse 429 (Some "30") "" None in
  let env := mkEnv (fun _ => Responded r) (fun _ => 0%Q) (fun _ => 0%Q) in
  _client client_open = true
  /\ 1 <= max_retries client_open
  /\ classified "/identity" r (WorldAnvilRateLimitError 30)
  /\ _request env client_open "GET" "/identity" (Some "identity") (Some 3600) state0
     = (Raise (WorldAnvilRateLimitError 30),
        mkState (Cache.init 300 1000) (0 + 0)%Q 1 0 [EvRequest "GET" "/identity"]).
Proof.
  intros R r env.
  assert (H1 : _client client_open = true) by reflexivity.
  assert (H2 : 1 <= max_retries client_open) by (simpl; lia).
  assert (H3 : classified "/identity" r (WorldAnvilRateLimitError 30))
    by (apply (cl_rate_limit_advised _ _ "30" 30); reflexivity).
  split; [exact H1|]. split; [exact H2|]. split; [exact H3|].
  exact (proj1 (C5_classification_not_retried R env client_open "GET" "/identity"
                  (Some "identity") (Some 3600) state0 r _ H1 H2 eq_refl eq_refl H3)).
Defined.

(** C5 as the specification words it fails on a 429 whose [Retry-After]
    header is not an integer but an HTTP date, the other form the header
    may take: [int] raises [ValueError] before the rate-limit error is built,
    and that is the exception that leaves the request. *)
Lemma C5_counterexample :
  let R := mini_runtime in
  let h := "Wed, 21 Oct 2015 07:28:00 GMT" in
  let r := mkResponse 429 (Some h) "" None in
  let env := mkEnv (fun _ => Responded r) (fun _ => 0%Q) (fun _ => 0%Q) in
  let out := _request env client_open "GET" "/identity" (Some "identity")
                      (Some 3600) state0 in
  status_code r = HTTP_STATUS_TOO_MANY_REQUESTS
  /\ py_int h = None
  /\ fst out = Raise (ValueError h)
  /\ (forall retry_after : Z, fst out <> Raise (WorldAnvilRateLimitError retry_after))
  /\ st_calls (snd out) = 1%nat.
Proof.
  intros R h r env out.
  assert (Hout : fst out = Raise (ValueError h)) by (vm_compute; reflexivity).
  split; [reflexivity|]. split; [vm_compute; reflexivity|]. split; [exact Hout|].
  split; [|vm_compute; reflexivity].
  intros retry_after Heq. rewrite Hout in Heq. discriminate.
Qed.

(** *** Retries and back-off *)

Lemma backoff_ok (attempt : Z) (r : Q) :
  0 <= attempt <= 1023 -> backoff attempt r = Ok (backoff_delay attempt r).
Proof.
  intros Ha. unfold backoff. now rewrite FloatFacts.of_int_pow2.
Qed.

Lemma backoff_overflow (attempt : Z) (r : Q) :
  1024 <= attempt -> backoff attempt r = Raise OverflowError.
Proof.
  intros Ha. unfold backoff. now rewrite FloatFacts.of_int_pow2_overflow.
Qed.

Lemma backoff_raises (attempt : Z) (r : Q) (e : PyExn) :
  backoff attempt r = Raise e -> e = OverflowError.
Proof.
  unfold backoff. destruct (Float.of_int (2 ^ attempt)); congruence.
Qed.

(** The delay lies between [2^attempt] and the double [2^attempt + 0.1]. *)
Lemma backoff_delay_bounds (attempt : Z) (r : Q) :
  0 <= attempt -> (0 <= r)%Q -> (r < 1)%Q ->
  (inject_Z (2 ^ attempt) <= backoff_delay attempt r)%Q
  /\ (backoff_delay attempt r <= backoff_cap attempt)%Q.
Proof.
  intros Ha H0 H1. unfold backoff_delay, backoff_cap, Float.add, Float.mul.
  pose proof (FloatFacts.round_pow2 attempt Ha) as Hx.
  set (x := Float.round (inject_Z (2 ^ attempt))) in *.
  assert (Hx0 : (0 <= inject_Z (2 ^ attempt))%Q).
  { change 0%Q with (inject_Z 0). apply FloatFacts.inject_Z_le.
    apply Z.pow_nonneg. lia. }
  pose proof FloatFacts.tenth_nonneg as Ht.
  assert (Hy0 : (0 <= Float.round (r * Float.tenth))%Q).
  { rewrite <- (FloatFacts.round_0 0%Q) by reflexivity.
    apply FloatFacts.round_mono; [apply Qle_refl|].
    now apply Qmult_le_0_compat. }
  assert (Hy1 : (Float.round (r * Float.tenth) <= Float.tenth)%Q).
  { rewrite <- FloatFacts.tenth_double at 2.
    apply FloatFacts.round_mono; [now apply Qmult_le_0_compat|].
    rewrite <- (Qmult_1_l Float.tenth) at 2.
    apply Qmult_le_compat_r; [now apply Qlt_le_weak | exact Ht]. }
  split.
  - rewrite <- Hx at 1. apply FloatFacts.round_mono; [exact Hx0 | lra].
  - apply FloatFacts.round_mono; lra.
Qed.

(** The double [2^attempt + 0.1] exceeds the real number [2^attempt + 0.1]
    by less than the last bit of [2^attempt]. *)
Lemma backoff_cap_real (attempt : Z) :
  0 <= attempt ->
  (backoff_cap attempt <= inject_Z (2 ^ attempt) + (1 # 10) + 2 ^ (attempt - 52))%Q.
Proof.
  intros Ha. unfold backoff_cap, Float.add.
  pose proof (FloatFacts.round_pow2 attempt Ha) as Hx.
  set (x := Float.round (inject_Z (2 ^ attempt))) in *.
  pose proof FloatFacts.tenth_nonneg as Ht0.
  pose proof FloatFacts.tenth_lt_1 as Ht1.
  pose proof FloatFacts.tenth_real as Htr.
  assert (Hp : (inject_Z (2 ^ attempt) == 2 ^ attempt)%Q)
    by (apply FloatFacts.pow2_Z; lia).
  assert (H1 : (1 <= 2 ^ attempt)%Q).
  { change 1%Q with (2 ^ 0)%Q. apply FloatFacts.pow2_le. lia. }
  assert (Hpos : (0 < x + Float.tenth)%Q) by lra.
  assert (He : Float.ilog2 (x + Float.tenth) = attempt).
  { apply FloatFacts.ilog2_unique; [lra|].
    rewrite Qpower_plus by apply FloatFacts.two_neq_0.
    change (2 ^ 1)%Q with 2%Q. lra. }
  rewrite (FloatFacts.round_of_pos _ Hpos).
  eapply Qle_trans; [apply FloatFacts.round_pos_error; exact Hpos|].
  unfold Float.ulp_exponent. rewrite He.
  replace (Z.max (attempt - 52) (-1074) - 1) with (attempt - 53) by lia.
  assert (Hs : (2 ^ (-56) <= 2 ^ (attempt - 53))%Q)
    by (apply FloatFacts.pow2_le; lia).
  assert (Hd : (2 ^ (attempt - 52) == 2 * 2 ^ (attempt - 53))%Q).
  { replace (attempt - 52) with (1 + (attempt - 53)) by lia.
    now rewrite Qpower_plus by apply FloatFacts.two_neq_0. }
  lra.
Qed.

Lemma network_calls_expected (env : Env) (method path : string) (n a rolls : nat) :
  network_calls (expected_trace env method path n a rolls) = n.
Proof.
  revert a rolls. induction n as [|n IH]; intros a rolls; [reflexivity|].
  destruct n as [|n]; [reflexivity|].
  specialize (IH (S a) (S rolls)). unfold network_calls in *.
  change (S (List.length (filter is_request
            (expected_trace env method path (S n) (S a) (S rolls)))) = S (S n)).
  now rewrite IH.
Qed.

Lemma sleeps_expected (env : Env) (method path : string) (n a rolls : nat) :
  sleeps (expected_trace env method path n a rolls) =
  map (fun i => backoff_delay (Z.of_nat (a + i)) (random env (rolls + i)))
      (seq 0 (n - 1)).
Proof.
  revert a rolls. induction n as [|n IH]; intros a rolls; [reflexivity|].
  destruct n as [|n]; [reflexivity|].
  change (sleeps (expected_trace env method path (S (S n)) a rolls))
    with (backoff_delay (Z.of_nat a) (random env rolls)
          :: sleeps (expected_trace env method path (S n) (S a) (S rolls))).
  rewrite IH. replace (S (S n) - 1)%nat with (S (S n - 1)) by lia.
  cbn [seq map]. rewrite !Nat.add_0_r. f_equal.
  rewrite <- seq_shift, map_map. apply map_ext. intros i.
  now rewrite !Nat.add_succ_r.
Qed.

Lemma last_expected (env : Env) (method path : string) (n a rolls : nat) :
  last (expected_trace env method path (S n) a rolls) (EvSleep 0)
  = EvRequest method path.
Proof.
  revert a rolls. induction n as [|n IH]; intros a rolls; [reflexivity|].
  specialize (IH (S a) (S rolls)).
  change (expected_trace env method path (S (S n)) a rolls)
    with (EvRequest method path
          :: EvSleep (backoff_delay (Z.of_nat a) (random env rolls))
          :: expected_trace env method path (S n) (S a) (S rolls)).
  destruct (expected_trace env method path (S n) (S a) (S rolls)) as [|ev tr] eqn:E;
    [discriminate|].
  exact IH.
Qed.

Section AllAttemptsFail.

Context `{PyRuntime}.
Variable env : Env.
Variable self : WorldAnvilClient.
Variables method path : string.
Variable cache_key : option string.
Variable cache_ttl : option Z.
Variable err : nat -> TransportError.

(** The [n] iterations left all fail, and every power of two to convert is
    a double: the loop ends and the terminal failure is raised. *)
Lemma attempts_all_fail (n a : nat) (last_error : option TransportError)
    (st : State) :
  max_retries self = Z.of_nat a + Z.of_nat n ->
  (a + n <= 1025)%nat ->
  (forall j, (st_calls st <= j < st_calls st + n)%nat ->
             net env j = TransportFailed (err j)) ->
  let out := attempts env self method path cache_key cache_ttl n
                      (Z.of_nat a) last_error st in
  fst out = Raise (RequestFailed (max_retries self)
                     (match n with
                      | O => last_error
                      | S m => Some (err (st_calls st + m)%nat)
                      end))
  /\ st_trace (snd out) =
     (st_trace st ++ expected_trace env method path n a (st_rolls st))%list
  /\ st_calls (snd out) = (st_calls st + n)%nat
  /\ st_cache (snd out) = st_cache st.
Proof.
  revert a last_error st. induction n as [|n IH]; intros a last_error st HN Hsmall Hnet.
  - cbv zeta. simpl. rewrite app_nil_r, Nat.add_0_r. auto.
  - cbv zeta. rewrite attempts_S. cbv zeta.
    rewrite (Hnet (st_calls st)) by lia.
    rewrite on_transport_error_spec.
    destruct n as [|n].
    + assert ((Z.of_nat a <? max_retries self - 1) = false) as ->
        by (apply Z.ltb_ge; lia).
      simpl. rewrite Nat.add_0_r, Nat.add_1_r. auto.
    + assert ((Z.of_nat a <? max_retries self - 1) = true) as ->
        by (apply Z.ltb_lt; lia).
      rewrite backoff_ok by lia.
      replace (Z.of_nat a + 1) with (Z.of_nat (S a)) by lia.
      match goal with
      | |- context [attempts _ _ _ _ _ _ (S n) (Z.of_nat (S a)) ?le ?s] =>
          destruct (IH (S a) le s) as [I1 [I2 [I3 I4]]]
      end.
      * lia.
      * lia.
      * intros j Hj. apply Hnet. unfold after_call in Hj. simpl in Hj. lia.
      * rewrite I1, I2, I3, I4. unfold after_call.
        cbn [st_trace st_calls st_rolls st_cache].
        split; [do 4 f_equal; lia|]. split; [|split; [lia | reflexivity]].
        rewrite <- !app_assoc. reflexivity.
Qed.

(** With attempts to spare beyond the one of index 1024, and every call
    failing up to that one, the loop ends there: [2**1024] does not convert
    to a double. *)
Lemma attempts_overflow (m : nat) :
  forall (n a : nat) (last_error : option TransportError) (st : State),
    (a + m = 1024)%nat ->
    max_retries self = Z.of_nat a + Z.of_nat n ->
    (1026 <= a + n)%nat ->
    (forall j, (st_calls st <= j <= st_calls st + m)%nat ->
               net env j = TransportFailed (err j)) ->
    let out := attempts env self method path cache_key cache_ttl n
                        (Z.of_nat a) last_error st in
    fst out = Raise OverflowError
    /\ st_trace (snd out) =
       (st_trace st ++ expected_trace env method path (S m) a (st_rolls st))%list
    /\ st_calls (snd out) = (st_calls st + S m)%nat
    /\ st_cache (snd out) = st_cache st.
Proof.
  induction m as [|m IH]; intros n a last_error st Ha HN Hbig Hnet; cbv zeta;
    (destruct n as [|n]; [lia|]); rewrite attempts_S; cbv zeta;
    rewrite (Hnet (st_calls st)) by lia; rewrite on_transport_error_spec;
    assert ((Z.of_nat a <? max_retries self - 1) = true) as ->
      by (apply Z.ltb_lt; lia).
  - rewrite backoff_overflow by lia. unfold after_call.
    cbn [fst snd st_trace st_calls st_cache]. repeat split. lia.
  - rewrite backoff_ok by lia.
    replace (Z.of_nat a + 1) with (Z.of_nat (S a)) by lia.
    match goal with
    | |- context [attempts _ _ _ _ _ _ n (Z.of_nat (S a)) ?le ?s] =>
        destruct (IH n (S a) le s) as [I1 [I2 [I3 I4]]]
    end.
    + lia.
    + lia.
    + lia.
    + intros j Hj. apply Hnet. unfold after_call in Hj. simpl in Hj. lia.
    + rewrite I1, I2, I3, I4. unfold after_call.
      cbn [st_trace st_calls st_rolls st_cache].
      split; [reflexivity|]. split; [|split; [lia | reflexivity]].
      rewrite <- !app_assoc. reflexivity.
Qed.

End AllAttemptsFail.

(** C4 (retries end, with exponential back-off), amended.  Take a request
    that reaches the network on an initialised client with
    [max_retries = N >= 0], every attempt of which fails at the transport,
    and random draws in [[0, 1)].

    For [N <= 1025] the request raises the "request failed after N
    attempts" error carrying the error of the last attempt (no error when
    [N = 0]).  Its log is: a network call, then a sleep and a network call
    for each further attempt; there are exactly [N] network calls and
    [N - 1] sleeps, the log ends with a network call, and the sleep after
    the attempt of index [i] lasts the double [2**i + random() * 0.1]: at
    least [2^i] and at most the double [2**i + 0.1], which exceeds the
    number [2^i + 0.1] by less than the last bit of [2^i], [2^(i-52)].

    For [N >= 1026] the attempt of index 1024 is followed by the conversion
    of [2**1024] to a float, which raises [OverflowError]: the request ends
    there, after 1025 network calls and 1024 sleeps. *)
Theorem C4_retry_backoff (R : PyRuntime) (env : Env) (self : WorldAnvilClient)
    (method path : string) (cache_key : option string) (cache_ttl : option Z)
    (st : State) (err : nat -> TransportError) :
  _client self = true ->
  0 <= max_retries self ->
  fst (consult_cache method cache_key st) = Ok PyNone ->
  (forall j, (st_calls st <= j < st_calls st + Z.to_nat (max_retries self))%nat ->
             net env j = TransportFailed (err j)) ->
  (forall i, (0 <= random env i)%Q /\ (random env i < 1)%Q) ->
  let N := Z.to_nat (max_retries self) in
  let out := _request env self method path cache_key cache_ttl st in
  (max_retries self <= 1025 ->
   let log := expected_trace env method path N 0 (st_rolls st) in
   fst out = Raise (RequestFailed (max_retries self)
                      (match N with
                       | O => None
                       | S m => Some (err (st_calls st + m)%nat)
                       end))
   /\ st_trace (snd out) = (st_trace st ++ log)%list
   /\ network_calls log = N
   /\ st_calls (snd out) = (st_calls st + N)%nat
   /\ sleeps log =
      map (fun i => backoff_delay (Z.of_nat i) (random env (st_rolls st + i)))
          (seq 0 (N - 1))
   /\ List.length (sleeps log) = (N - 1)%nat
   /\ (forall i, (i < N - 1)%nat ->
         let d := nth i (sleeps log) 0%Q in
         (inject_Z (2 ^ Z.of_nat i) <= d)%Q
         /\ (d <= backoff_cap (Z.of_nat i))%Q
         /\ (d <= inject_Z (2 ^ Z.of_nat i) + (1 # 10) + 2 ^ (Z.of_nat i - 52))%Q)
   /\ (1 <= max_retries self -> last log (EvSleep 0) = EvRequest method path))
  /\ (1026 <= max_retries self ->
      let log := expected_trace env method path 1025 0 (st_rolls st) in
      fst out = Raise OverflowError
      /\ st_trace (snd out) = (st_trace st ++ log)%list
      /\ st_calls (snd out) = (st_calls st + 1025)%nat
      /\ network_calls log = 1025%nat
      /\ List.length (sleeps log) = 1024%nat).
Proof.
  intros Hopen HN Hmiss Hnet Hrand. cbv zeta.
  destruct (consult_cache_same_world method cache_key st) as [_ [Hc [Hr Ht]]].
  rewrite request_unfold. cbv zeta. rewrite Hmiss. cbn [is_none negb].
  rewrite Hopen. cbn [negb]. split.
  - intros Hsmall.
    destruct (attempts_all_fail env self method path cache_key cache_ttl err
                (Z.to_nat (max_retries self)) 0 None
                (snd (consult_cache method cache_key st)))
      as [A1 [A2 [A3 _]]].
    { simpl. lia. } { lia. }
    { intros j Hj. apply Hnet. rewrite <- Hc. exact Hj. }
    change (Z.of_nat 0) with 0 in A1, A2, A3.
    rewrite Hc, Hr, Ht in *.
    pose proof (sleeps_expected env method path (Z.to_nat (max_retries self)) 0
                  (st_rolls st)) as Hs.
    cbn [Nat.add] in Hs.
    split; [exact A1|]. split; [exact A2|].
    split; [apply network_calls_expected|]. split; [exact A3|].
    split; [exact Hs|]. split; [now rewrite Hs, length_map, length_seq|]. split.
    + intros i Hi. rewrite Hs.
      rewrite (nth_indep _ 0%Q
                 (backoff_delay (Z.of_nat 0) (random env (st_rolls st + 0))))
        by (now rewrite length_map, length_seq).
      rewrite (map_nth (fun i => backoff_delay (Z.of_nat i)
                                   (random env (st_rolls st + i)))).
      rewrite seq_nth by exact Hi. cbn [Nat.add].
      destruct (backoff_delay_bounds (Z.of_nat i) (random env (st_rolls st + i)))
        as [Hlow Hup]; [lia | apply Hrand | apply Hrand |].
      split; [exact Hlow|]. split; [exact Hup|].
      eapply Qle_trans; [exact Hup|]. apply backoff_cap_real. lia.
    + intros H1. destruct (Z.to_nat (max_retries self)) as [|n] eqn:En; [lia|].
      apply last_expected.
  - intros Hbig.
    destruct (attempts_overflow env self method path cache_key cache_ttl err 1024
                (Z.to_nat (max_retries self)) 0 None
                (snd (consult_cache method cache_key st)))
      as [A1 [A2 [A3 _]]].
    { reflexivity. } { simpl. lia. } { lia. }
    { intros j Hj. apply Hnet. rewrite <- Hc. lia. }
    change (Z.of_nat 0) with 0 in A1, A2, A3.
    rewrite Hc, Hr, Ht in *.
    split; [exact A1|]. split; [exact A2|]. split; [exact A3|].
    split; [apply network_calls_expected|].
    now rewrite sleeps_expected, length_map, length_seq.
Qed.

(** The rounding of the model is that of the machine on the sums compared
    below: the doubles [2**i + top * 0.1] and [2**i + 0.1], for [top] the
    largest double below 1 and [i] from 0 to 5, computed by the kernel's
    floating-point unit, denote the rationals [backoff_delay i top_random]
    and [backoff_cap i]. *)
Lemma backoff_delay_machine :
  let one := prim_float 1 0 in
  let tenth := prim_float 3602879701896397 (-55) in
  let top := PrimFloat.sub one (prim_float 1 (-53)) in
  Float.of_prim tenth = Some Float.tenth
  /\ option_map Qred (Float.of_prim top) = Some (Qred top_random)
  /\ forall i : nat, (i <= 5)%nat ->
       let power := prim_float 1 (Z.of_nat i) in
       option_map Qred (Float.of_prim power) = Some (inject_Z (2 ^ Z.of_nat i))
       /\ option_map Qred
            (Float.of_prim (PrimFloat.add power (PrimFloat.mul top tenth)))
          = Some (Qred (backoff_delay (Z.of_nat i) top_random))
       /\ option_map Qred (Float.of_prim (PrimFloat.add power tenth))
          = Some (Qred (backoff_cap (Z.of_nat i)))
       /\ PrimFloat.ltb (PrimFloat.add power (PrimFloat.mul top tenth))
                        (PrimFloat.add power tenth) = false.
Proof.
  cbv zeta. split; [vm_compute; reflexivity|]. split; [vm_compute; reflexivity|].
  intros i Hi.
  destruct i as [|[|[|[|[|[|i]]]]]]; [| | | | | | lia]; vm_compute; repeat split.
Qed.

(** The same agreement on other draws and attempts: the draws [2^-1074]
    (the smallest positive double), [2^-53], [5 * 2^-55], one half, the
    double nearest to a third and the largest draw; the attempts 0, 1, 7,
    52, 53, 60 and 1023. *)
Lemma backoff_delay_machine_samples :
  forallb delay_agrees
    [(0, 1%positive, -1074); (0, 1%positive, -53); (0, 5%positive, -55); (0, 1%positive, -1); (0, 6004799503160661%positive, -54);
     (0, 9007199254740991%positive, -53);
     (1, 1%positive, -1074); (1, 1%positive, -1); (1, 6004799503160661%positive, -54); (1, 9007199254740991%positive, -53);
     (7, 1%positive, -1); (7, 6004799503160661%positive, -54); (7, 9007199254740991%positive, -53);
     (52, 1%positive, -1); (52, 9007199254740991%positive, -53);
     (53, 1%positive, -1); (53, 9007199254740991%positive, -53);
     (60, 9007199254740991%positive, -53);
     (1023, 1%positive, -1); (1023, 9007199254740991%positive, -53)] = true.
Proof. vm_compute. reflexivity. Qed.

(** C4 as the specification words it fails in two ways.  With two attempts
    and [random()] returning the largest double below 1, the delay slept
    after the first attempt is the double [1 + 0.1], which is not less than
    [2^0 + 0.1]: the product [random() * 0.1] rounds to [0.1].  With 1026
    attempts the request does not reach the terminal failure: after the
    attempt of index 1024 it raises [OverflowError]. *)
Lemma C4_counterexample :
  let R := mini_runtime in
  let out := _request env_down_top (mkClient 2 300 true) "GET" "/identity"
                      None None state0 in
  let d := nth 0 (sleeps (st_trace (snd out))) 0%Q in
  let out' := _request env_down_top (mkClient 1026 300 true) "GET" "/identity"
                       None None state0 in
  ((0 <= top_random)%Q /\ (top_random < 1)%Q
   /\ (Float.round top_random == top_random)%Q
   /\ fst out = Raise (RequestFailed 2 (Some (TimeoutException "timeout")))
   /\ sleeps (st_trace (snd out)) = [backoff_delay 0 top_random]
   /\ (d == 2476979795053773 # 2251799813685248)%Q
   /\ (d == backoff_cap 0)%Q
   /\ ~ (d < inject_Z (2 ^ 0) + (1 # 10))%Q)
  /\ (fst out' = Raise OverflowError
      /\ st_calls (snd out') = 1025%nat
      /\ forall e, fst out' <> Raise (RequestFailed 1026 e)).
Proof.
  intros R. cbv zeta. split.
  - split; [unfold Qle; vm_compute; discriminate|].
    split; [unfold Qlt; vm_compute; reflexivity|].
    split; [apply Qeq_bool_iff; vm_compute; reflexivity|].
    split; [vm_compute; reflexivity|].
    assert (Hs : sleeps (st_trace (snd (_request env_down_top (mkClient 2 300 true)
                    "GET" "/identity" None None state0)))
                 = [backoff_delay 0 top_random]) by reflexivity.
    split; [exact Hs|]. rewrite Hs. cbn [nth].
    split; [apply Qeq_bool_iff; vm_compute; reflexivity|].
    split; [apply Qeq_bool_iff; vm_compute; reflexivity|].
    intros Hlt. unfold Qlt in Hlt. vm_compute in Hlt. discriminate.
  - destruct (attempts_overflow env_down_top (mkClient 1026 300 true) "GET"
                "/identity" None None (fun _ => TimeoutException "timeout") 1024
                1026 0 None state0) as [A1 [_ [A3 _]]];
      [reflexivity | reflexivity | lia | reflexivity |].
    assert (Hout : _request env_down_top (mkClient 1026 300 true) "GET" "/identity"
                            None None state0
                   = attempts env_down_top (mkClient 1026 300 true) "GET" "/identity"
                              None None 1026 0 None state0) by reflexivity.
    rewrite Hout. change (Z.of_nat 0) with 0 in A1, A3.
    split; [exact A1|]. split; [exact A3|].
    intros e He. rewrite A1 in He. discriminate.
Qed.

(** Three attempts that time out: sleeps of the doubles [1 + 0.5 * 0.1] and
    [2 + 0.5 * 0.1]. *)
Lemma C4_retry_backoff_witness :
  let R := mini_runtime in
  let out := _request env_down client_open "GET" "/identity" (Some "identity")
                      (Some 3600) state0 in
  _client client_open = true
  /\ 0 <= max_retries client_open
  /\ (forall i, (0 <= random env_down i)%Q /\ (random env_down i < 1)%Q)
  /\ max_retries client_open <= 1025
  /\ fst out = Raise (RequestFailed 3 (Some (TimeoutException "timeout")))
  /\ st_trace (snd out) =
     [EvRequest "GET" "/identity"; EvSleep (backoff_delay 0 (1 # 2));
      EvRequest "GET" "/identity"; EvSleep (backoff_delay 1 (1 # 2));
      EvRequest "GET" "/identity"].
Proof.
  intros R out.
  assert (H1 : _client client_open = true) by reflexivity.
  assert (H2 : 0 <= max_retries client_open) by (simpl; lia).
  assert (H3 : forall i, (0 <= random env_down i)%Q /\ (random env_down i < 1)%Q)
    by (intros i; unfold Qle, Qlt; simpl; lia).
  assert (H4 : max_retries client_open <= 1025) by (simpl; lia).
  split; [exact H1|]. split; [exact H2|]. split; [exact H3|]. split; [exact H4|].
  destruct (proj1 (C4_retry_backoff R env_down client_open "GET" "/identity"
                     (Some "identity") (Some 3600) state0
                     (fun _ => TimeoutException "timeout") H1 H2 eq_refl
                     (fun _ _ => eq_refl) H3) H4) as [E1 [E2 _]].
  split; [exact E1 | exact E2].
Defined.

(** *** Writes and the read cache *)

Lemma split_head (seg rest : string) :
  contains_char slash seg = false ->
  rest = "" \/ (exists r, rest = String slash r) ->
  nth 0 (split slash (seg ++ rest)) "" = seg.
Proof.
  intros Hseg Hrest. induction seg as [|c seg IH]; simpl.
  - destruct Hrest as [->|[r ->]]; [reflexivity|]. simpl. reflexivity.
  - simpl in Hseg. apply orb_false_iff in Hseg. destruct Hseg as [Hc Hseg].
    rewrite Hc. specialize (IH Hseg).
    destruct (split slash (seg ++ rest)) as [|h t]; simpl in *; now subst.
Qed.

(** The token is the first segment of a path that starts with the
    separator. *)
Lemma resource_type_first_segment (seg rest : string) :
  contains_char slash seg = false ->
  rest = "" \/ (exists r, rest = String slash r) ->
  resource_type_of (String slash (seg ++ rest)) = seg.
Proof.
  intros Hseg Hrest. unfold resource_type_of. simpl.
  now apply split_head.
Qed.

Lemma write_not_cacheable (method : string) (cache_key : option string) :
  is_write_method method = true -> cacheable method cache_key = None.
Proof.
  intros Hw. unfold cacheable. destruct cache_key as [key|]; [|reflexivity].
  destruct (String.eqb method "GET") eqn:E; [|reflexivity].
  apply String.eqb_eq in E. subst method. discriminate.
Qed.

Lemma set_succeeds (c : InMemoryCache) (k : string) (v : PyValue)
    (ttl : option Z) (now : Q) :
  1 <= _max_entries c ->
  exists c', Cache.set c k v ttl now = Ok c'.
Proof.
  intros Hcap. destruct (OrderedDict.contains k (_cache c)) eqn:Hc.
  - eexists. now apply set_existing.
  - destruct (Z.ltb_spec (cache_len c) (_max_entries c)) as [Hlt|Hge].
    + eexists. now apply set_new_room.
    + destruct (_cache c) as [|p rest] eqn:Hd.
      * unfold cache_len in Hge. rewrite Hd in Hge. simpl in Hge. lia.
      * eexists. apply (set_new_full c k v ttl now p rest); [|exact Hge|exact Hd].
        now rewrite Hd.
Qed.

Lemma lookup_filter_drop (g : string -> bool) (d : OrderedDict.t) (k : string) :
  g k = false -> OrderedDict.lookup k (filter (fun p => g (fst p)) d) = None.
Proof.
  intros Hg. induction d as [|[k' e] d IH]; simpl; [reflexivity|].
  destruct (g k') eqn:E; simpl; [|exact IH].
  destruct (String.eqb k k') eqn:E'; [|exact IH].
  apply String.eqb_eq in E'. congruence.
Qed.

Section WriteInvalidates.

Context `{PyRuntime}.
Variable env : Env.
Variable self : WorldAnvilClient.

(** A request that misses the cache and whose first attempt is answered. *)
Lemma request_answered (method path : string) (cache_key : option string)
    (cache_ttl : option Z) (st : State) (r : Response) :
  _client self = true ->
  1 <= max_retries self ->
  fst (consult_cache method cache_key st) = Ok PyNone ->
  net env (st_calls st) = Responded r ->
  _request env self method path cache_key cache_ttl st =
  handle_response self method path cache_key cache_ttl r
    (after_call env method path (snd (consult_cache method cache_key st))).
Proof.
  intros Hopen Hretries Hmiss Hnet.
  destruct (consult_cache_same_world method cache_key st) as [_ [Hc _]].
  rewrite request_unfold. cbv zeta. rewrite Hmiss. cbn [is_none negb].
  rewrite Hopen. cbn [negb].
  destruct (Z.to_nat (max_retries self)) as [|n] eqn:En; [lia|].
  rewrite attempts_S. cbv zeta. now rewrite Hc, Hnet.
Qed.

(** What a successful write does to the cache. *)
Lemma handle_response_write (method path : string) (cache_key : option string)
    (cache_ttl : option Z) (st : State) (r : Response) (data : PyValue) :
  is_write_method method = true ->
  check_response path r = Ok data ->
  handle_response self method path cache_key cache_ttl r st =
  if String.eqb (resource_type_of path) "" then (Ok data, st)
  else match re_compile (".*" ++ resource_type_of path ++ ".*") with
       | Some regex =>
           (Ok data,
            set_cache st
              (with_cache (st_cache st)
                 (filter (fun p => negb (re_match regex (fst p)))
                         (_cache (st_cache st)))))
       | None => (Raise (ReError (".*" ++ resource_type_of path ++ ".*")), st)
       end.
Proof.
  intros Hw Hok. unfold handle_response, bind, lift. rewrite Hok.
  rewrite (write_not_cacheable method cache_key Hw), Hw. unfold ret.
  destruct (String.eqb (resource_type_of path) ""); cbn [negb]; [reflexivity|].
  rewrite cache_invalidate_pattern_unfold.
  destruct (re_compile (".*" ++ resource_type_of path ++ ".*")) as [regex|] eqn:E.
  - now rewrite (invalidate_pattern_Ok _ _ regex E).
  - unfold Cache.invalidate_pattern. now rewrite E.
Qed.

(** What a successful read with a cache key does to the cache. *)
Lemma handle_response_read (path key : string) (cache_ttl : option Z)
    (st : State) (r : Response) (data : PyValue) :
  key <> "" ->
  1 <= _max_entries (st_cache st) ->
  check_response path r = Ok data ->
  exists c',
    Cache.set (st_cache st) key data
      (Some (match cache_ttl with Some t => t | None => default_cache_ttl self end))
      (st_now st) = Ok c'
    /\ handle_response self "GET" path (Some key) cache_ttl r st =
       (Ok data, set_cache st c').
Proof.
  intros Hkey Hcap Hok.
  destruct (set_succeeds (st_cache st) key data
              (Some (match cache_ttl with Some t => t
                                     | None => default_cache_ttl self end))
              (st_now st) Hcap) as [c' Hset].
  exists c'. split; [exact Hset|].
  unfold handle_response, bind, lift. rewrite Hok, (cacheable_GET key Hkey).
  unfold cache_set. rewrite Hset. reflexivity.
Qed.

End WriteInvalidates.

Lemma set_cache_same (st : State) : set_cache st (st_cache st) = st.
Proof. now destruct st. Qed.

Lemma consult_absent (key : string) (st : State) :
  key <> "" ->
  OrderedDict.lookup key (_cache (st_cache st)) = None ->
  consult_cache "GET" (Some key) st = (Ok PyNone, st).
Proof.
  intros Hkey Hl. rewrite consult_cache_spec, (cacheable_GET key Hkey).
  unfold Cache.get. rewrite Hl. cbn [fst snd]. now rewrite set_cache_same.
Qed.

Lemma consult_write (method : string) (cache_key : option string) (st : State) :
  is_write_method method = true ->
  consult_cache method cache_key st = (Ok PyNone, st).
Proof.
  intros Hw. rewrite consult_cache_spec. now rewrite (write_not_cacheable _ _ Hw).
Qed.

Section ReadWriteRead.

Context `{PyRuntime}.
Variable env : Env.
Variable self : WorldAnvilClient.
Hypothesis Hopen : _client self = true.
Hypothesis Hretries : 1 <= max_retries self.


Lemma write_invalidates (method path : string) (cache_key : option string)
    (cache_ttl : option Z) (st : State) (r : Response) (data : PyValue)
    (regex : Pattern) :
  is_write_method method = true ->
  net env (st_calls st) = Responded r ->
  check_response path r = Ok data ->
  resource_type_of path <> "" ->
  re_compile (".*" ++ resource_type_of path ++ ".*") = Some regex ->
  _request env self method path cache_key cache_ttl st =
  (Ok data,
   set_cache (after_call env method path st)
     (with_cache (st_cache st)
        (filter (fun p => negb (re_match regex (fst p))) (_cache (st_cache st))))).
Proof.
  intros Hw Hnet Hok Htok Hre.
  rewrite (request_answered env self method path cache_key cache_ttl st r
             Hopen Hretries);
    [|now rewrite (consult_write method cache_key st Hw) | exact Hnet].
  rewrite (consult_write method cache_key st Hw). cbn [snd].
  rewrite (handle_response_write self method path cache_key cache_ttl _ r data Hw Hok).
  destruct (String.eqb (resource_type_of path) "") eqn:E;
    [apply String.eqb_eq in E; contradiction|].
  now rewrite Hre.
Qed.


End ReadWriteRead.

(** X1 ([invalidate]).  [invalidate(key)] removes exactly that key: afterwards
    the key is absent and reads as a miss, every other key keeps its entry
    and its place in the recency order, a key that was absent leaves the
    cache as it was, a key that was present lowers the count by one, and a
    second [invalidate] of the same key changes nothing. *)
Theorem X1_invalidate_exact (c : InMemoryCache) (k : string) :
  let c' := Cache.invalidate c k in
  OrderedDict.lookup k (_cache c') = None
  /\ (forall now : Q, Cache.get c' k now = (PyNone, c'))
  /\ (forall k', k' <> k ->
        OrderedDict.lookup k' (_cache c') = OrderedDict.lookup k' (_cache c))
  /\ cache_keys c' = filter (fun k' => negb (String.eqb k k')) (cache_keys c)
  /\ (OrderedDict.contains k (_cache c) = false -> c' = c)
  /\ (NoDup (cache_keys c) -> OrderedDict.contains k (_cache c) = true ->
      cache_len c' = cache_len c - 1)
  /\ Cache.invalidate c' k = c'.
Proof.
  cbv zeta. unfold Cache.invalidate.
  destruct (OrderedDict.contains k (_cache c)) eqn:Hc.
  - assert (Hl : OrderedDict.lookup k (OrderedDict.delete k (_cache c)) = None)
      by apply DictFacts.lookup_delete_same.
    cbn [with_cache _cache]. split; [exact Hl|]. split; [|split; [|split; [|split; [|split]]]].
    + intros now. unfold Cache.get. cbn [with_cache _cache]. now rewrite Hl.
    + intros k' Hne. apply DictFacts.lookup_delete_other. congruence.
    + unfold cache_keys. cbn [with_cache _cache]. apply DictFacts.keys_delete.
    + discriminate.
    + intros Hnd _. unfold cache_len. cbn [with_cache _cache].
      pose proof (DictFacts.length_delete_present k (_cache c) Hnd Hc). lia.
    + now rewrite DictFacts.contains_delete_same.
  - assert (Hl : OrderedDict.lookup k (_cache c) = None)
      by now apply DictFacts.contains_false_lookup.
    split; [exact Hl|]. split; [|split; [|split; [|split; [|split]]]].
    + intros now. unfold Cache.get. now rewrite Hl.
    + reflexivity.
    + unfold cache_keys. symmetry. apply DictFacts.filter_keys_absent.
      intros Hin. apply DictFacts.contains_In in Hin. congruence.
    + reflexivity.
    + discriminate.
    + now rewrite Hc.
Qed.

(** Three keys, the middle one invalidated. *)
Lemma X1_invalidate_exact_witness :
  let R := mini_runtime in
  let c := run [OpSet "a" (PyInt 1) None 0; OpSet "b" (PyInt 2) None 0;
                OpSet "c" (PyInt 3) None 0] (Cache.init 300 1000) in
  NoDup (cache_keys c)
  /\ OrderedDict.contains "b" (_cache c) = true
  /\ cache_keys (Cache.invalidate c "b") = ["a"; "c"]
  /\ cache_len (Cache.invalidate c "b") = 2.
Proof.
  intros R c.
  assert (Hnd : NoDup (cache_keys c))
    by (vm_compute; repeat constructor; simpl; intuition discriminate).
  assert (Hc : OrderedDict.contains "b" (_cache c) = true) by reflexivity.
  destruct (X1_invalidate_exact c "b") as [_ [_ [_ [Hk [_ [Hlen _]]]]]].
  split; [exact Hnd|]. split; [exact Hc|]. split.
  - rewrite Hk. reflexivity.
  - rewrite (Hlen Hnd Hc). reflexivity.
Defined.

Lemma filter_length_mono {A : Type} (P P' : A -> bool) (l : list A) :
  (forall x, P x = true -> P' x = true) ->
  (List.length (filter P l) <= List.length (filter P' l))%nat.
Proof.
  intros Himp. induction l as [|x l IH]; simpl; [lia|].
  destruct (P x) eqn:E.
  - rewrite (Himp x E). simpl. lia.
  - destruct (P' x); simpl; lia.
Qed.

Lemma count_delete (P : CacheEntry -> bool) (d : OrderedDict.t) (k : string)
    (e : CacheEntry) :
  NoDup (OrderedDict.keys d) ->
  OrderedDict.lookup k d = Some e ->
  List.length (filter (fun p => P (snd p)) d) =
  (List.length (filter (fun p => P (snd p)) (OrderedDict.delete k d))
   + (if P e then 1 else 0))%nat.
Proof.
  unfold OrderedDict.keys. induction d as [|[k0 e0] d IH]; simpl; [discriminate|].
  intros Hnd Hl. inversion Hnd as [|? ? Hnotin Hnd']; subst.
  destruct (String.eqb k k0) eqn:E.
  - apply String.eqb_eq in E. subst k0. injection Hl as ->. simpl.
    change (filter (fun p => negb (String.eqb k (fst p))) d)
      with (OrderedDict.delete k d).
    rewrite DictFacts.delete_absent.
    + destruct (P e); simpl; lia.
    + destruct (OrderedDict.contains k d) eqn:Ec; [|reflexivity].
      apply DictFacts.contains_In in Ec. contradiction.
  - simpl. specialize (IH Hnd' Hl).
    change (filter (fun p => negb (String.eqb k (fst p))) d)
      with (OrderedDict.delete k d).
    destruct (P e0); simpl; lia.
Qed.

(** X2 ([stats]).  [current] is the number of stored entries, expired ones
    included, [max_entries] the configured capacity, and [expired] lies
    between 0 and [current]; with the cache left alone, [expired] can only
    grow as time passes, and it is at least 1 as soon as one stored entry
    is at or past its expiry. *)
Theorem X2_stats_accounting (c : InMemoryCache) (now now' : Q) :
  current (Cache.stats c now) = cache_len c
  /\ max_entries (Cache.stats c now) = _max_entries c
  /\ 0 <= expired (Cache.stats c now) <= current (Cache.stats c now)
  /\ ((now <= now')%Q ->
      expired (Cache.stats c now) <= expired (Cache.stats c now'))
  /\ (forall k e, OrderedDict.lookup k (_cache c) = Some e ->
        (expires_at e <= now)%Q -> 1 <= expired (Cache.stats c now)).
Proof.
  unfold Cache.stats, cache_len. cbn [current expired max_entries].
  split; [reflexivity|]. split; [reflexivity|]. split; [|split].
  - pose proof (filter_length_le (fun p => Cache.is_expired now (snd p)) (_cache c)).
    lia.
  - intros Hle. apply inj_le. apply filter_length_mono. intros [k e] He. simpl in *.
    apply is_expired_true. apply is_expired_true in He.
    eapply Qle_trans; eassumption.
  - intros k e Hl He. apply is_expired_true in He.
    induction (_cache c) as [|[k0 e0] d IH]; simpl in *; [discriminate|].
    destruct (String.eqb k k0).
    + injection Hl as ->. rewrite He. simpl List.length. lia.
    + specialize (IH Hl). destruct (Cache.is_expired now e0); simpl List.length; lia.
Qed.

(** [set("a", 1, ttl=10); set("b", 2, ttl=1)] at time 0, read at time 1 and
    at time 10. *)
Lemma X2_stats_accounting_witness :
  let R := mini_runtime in
  let c := run [OpSet "a" (PyInt 1) (Some 10) 0; OpSet "b" (PyInt 2) (Some 1) 0]
               (Cache.init 300 1000) in
  (1 <= 10)%Q
  /\ Cache.stats c 1 = mkStats 2 1 1000
  /\ expired (Cache.stats c 1) <= expired (Cache.stats c 10)
  /\ cache_len c = 2.
Proof.
  intros R c.
  assert (H : (1 <= 10)%Q) by (unfold Qle; simpl; lia).
  destruct (X2_stats_accounting c 1 10) as [_ [_ [_ [Hmono _]]]].
  split; [exact H|]. split; [reflexivity|]. split; [exact (Hmono H) | reflexivity].
Defined.

(** X3 (lazy clean-up as [stats] sees it).  On a cache with distinct keys, a
    [get] of a stored key that is past its expiry lowers both [current] and
    [expired] by one; a [get] that hits, or that finds no entry, leaves the
    statistics at every time as they were. *)
Theorem X3_get_and_stats (c : InMemoryCache) (k : string) (now : Q) :
  NoDup (cache_keys c) ->
  let c' := snd (Cache.get c k now) in
  (forall e, OrderedDict.lookup k (_cache c) = Some e ->
     Cache.is_expired now e = true ->
     Cache.stats c' now =
     mkStats (current (Cache.stats c now) - 1)
             (expired (Cache.stats c now) - 1)
             (_max_entries c))
  /\ (forall e, OrderedDict.lookup k (_cache c) = Some e ->
        Cache.is_expired now e = false ->
        forall t : Q, Cache.stats c' t = Cache.stats c t)
  /\ (OrderedDict.lookup k (_cache c) = None ->
        forall t : Q, Cache.stats c' t = Cache.stats c t).
Proof.
  intros Hnd. cbv zeta. unfold Cache.get. split; [|split].
  - intros e Hl He. rewrite Hl, He. unfold Cache.stats. cbn [snd with_cache _cache
      _max_entries current expired].
    pose proof (count_delete (Cache.is_expired now) (_cache c) k e Hnd Hl) as Hx.
    rewrite He in Hx.
    assert (Hc : OrderedDict.contains k (_cache c) = true)
      by (apply DictFacts.contains_lookup; congruence).
    pose proof (DictFacts.length_delete_present k (_cache c) Hnd Hc) as Hy.
    f_equal; lia.
  - intros e Hl He t. rewrite Hl, He. unfold Cache.stats, OrderedDict.move_to_end.
    rewrite Hl. cbn [snd with_cache _cache _max_entries].
    pose proof (count_delete (Cache.is_expired t) (_cache c) k e Hnd Hl) as Hx.
    assert (Hc : OrderedDict.contains k (_cache c) = true)
      by (apply DictFacts.contains_lookup; congruence).
    pose proof (DictFacts.length_delete_present k (_cache c) Hnd Hc) as Hy.
    rewrite filter_app, !length_app. cbn [filter snd].
    f_equal; [simpl List.length; lia|].
    destruct (Cache.is_expired t e); simpl List.length; lia.
  - intros Hl t. now rewrite Hl.
Qed.

(** The entry [b] of the previous example, read at time 1. *)
Lemma X3_get_and_stats_witness :
  let R := mini_runtime in
  let c := run [OpSet "a" (PyInt 1) (Some 10) 0; OpSet "b" (PyInt 2) (Some 1) 0]
               (Cache.init 300 1000) in
  NoDup (cache_keys c)
  /\ Cache.stats (snd (Cache.get c "b" 1)) 1 = mkStats 1 0 1000
  /\ Cache.stats (snd (Cache.get c "a" 1)) 1 = mkStats 2 1 1000.
Proof.
  intros R c.
  assert (Hnd : NoDup (cache_keys c))
    by (vm_compute; repeat constructor; simpl; intuition discriminate).
  destruct (X3_get_and_stats c "b" 1%Q Hnd) as [Hexp _].
  destruct (X3_get_and_stats c "a" 1%Q Hnd) as [_ [Hlive _]].
  split; [exact Hnd|]. split.
  - rewrite (Hexp (mkCacheEntry (PyInt 2) 1) eq_refl eq_refl). reflexivity.
  - rewrite (Hlive (mkCacheEntry (PyInt 1) 10) eq_refl eq_refl 1%Q). reflexivity.
Defined.

(** X4 (a capacity that is not positive).  With [max_entries <= 0] the cache
    can never hold anything: whatever operations are applied to a new
    cache, it stays empty, every [set] raises [KeyError] (the eviction pops
    from an empty dictionary) and every [get] is a miss. *)
Theorem X4_no_capacity (R : PyRuntime) (default_ttl cap : Z) (ops : list CacheOp) :
  cap <= 0 ->
  let c := run ops (Cache.init default_ttl cap) in
  c = Cache.init default_ttl cap
  /\ (forall k v ttl now, Cache.set c k v ttl now = Raise KeyError)
  /\ (forall k now, Cache.get c k now = (PyNone, c)).
Proof.
  intros Hcap. cbv zeta.
  assert (Hset : forall k v ttl now,
             Cache.set (Cache.init default_ttl cap) k v ttl now = Raise KeyError).
  { intros. apply set_new_full_empty; [unfold cache_len; simpl; lia | reflexivity]. }
  assert (Hrun : run ops (Cache.init default_ttl cap) = Cache.init default_ttl cap).
  { induction ops as [|op ops IH]; [reflexivity|].
    unfold run in *. simpl fold_left.
    assert (Hs : step (Cache.init default_ttl cap) op = Cache.init default_ttl cap).
    { destruct op as [k now|k v ttl now|k|pattern| |now]; simpl; try reflexivity.
      - now rewrite Hset.
      - rewrite invalidate_pattern_method. unfold Cache.invalidate_pattern.
        destruct (re_compile pattern); reflexivity. }
    now rewrite Hs. }
  rewrite Hrun. split; [reflexivity|]. split; [exact Hset|]. reflexivity.
Qed.

(** Capacity 0, after a [set], a [clear] and another [set]. *)
Lemma X4_no_capacity_witness :
  let R := mini_runtime in
  let c := run [OpSet "a" (PyInt 1) None 0; OpClear; OpSet "b" (PyInt 2) None 1]
               (Cache.init 300 0) in
  0 <= 0
  /\ cache_keys c = []
  /\ Cache.set c "a" (PyInt 1) None 2 = Raise KeyError.
Proof.
  intros R c.
  assert (H0 : 0 <= 0) by lia.
  destruct (X4_no_capacity R 300 0
              [OpSet "a" (PyInt 1) None 0; OpClear; OpSet "b" (PyInt 2) None 1] H0)
    as [Hc [Hset _]].
  split; [exact H0|]. split.
  - unfold c. rewrite Hc. reflexivity.
  - apply Hset.
Defined.

(** X5 (a pattern that matches every key clears the cache).  When the
    pattern compiles and matches every stored key, [invalidate_pattern]
    returns the number of entries and leaves the cache that [clear] leaves. *)
Theorem X5_invalidate_all (R : PyRuntime) (c : InMemoryCache) (pattern : string)
    (regex : Pattern) :
  re_compile pattern = Some regex ->
  (forall k, In k (cache_keys c) -> re_match regex k = true) ->
  Cache.invalidate_pattern c pattern = Ok (cache_len c, Cache.clear c).
Proof.
  intros Hc Hall. rewrite (invalidate_pattern_Ok c pattern regex Hc).
  unfold cache_len, Cache.clear, cache_keys in *. do 2 f_equal.
  - f_equal. rewrite <- (length_map fst (_cache c)).
    fold (OrderedDict.keys (_cache c)).
    induction (OrderedDict.keys (_cache c)) as [|k ks IH]; [reflexivity|].
    simpl. rewrite (Hall k) by now left. simpl. f_equal.
    apply IH. intros k' Hin. apply Hall. now right.
  - f_equal. induction (_cache c) as [|[k e] d IH]; [reflexivity|].
    simpl. rewrite (Hall k) by now left. simpl.
    apply IH. intros k' Hin. apply Hall. now right.
Qed.

Lemma matches_nullable (r : MiniRe.regex) (s : string) :
  MiniRe.nullable r = true -> MiniRe.matches r s = true.
Proof. intros Hn. destruct s; simpl; now rewrite Hn. Qed.

(** The pattern [.*] on a cache of two entries. *)
Lemma X5_invalidate_all_witness :
  let R := mini_runtime in
  let c := run [OpSet "a" (PyInt 1) None 0; OpSet "b" (PyInt 2) None 0]
               (Cache.init 300 1000) in
  exists regex,
    re_compile ".*" = Some regex
    /\ (forall k, In k (cache_keys c) -> re_match regex k = true)
    /\ Cache.invalidate_pattern c ".*" = Ok (2, Cache.clear c).
Proof.
  intros R c. eexists. split; [reflexivity|].
  assert (Hall : forall k, In k (cache_keys c) ->
                   re_match (MiniRe.Cat (MiniRe.Star MiniRe.Dot) MiniRe.Eps) k = true)
    by (intros k _; now apply matches_nullable).
  split; [exact Hall|].
  exact (X5_invalidate_all R c ".*" _ eq_refl Hall).
Defined.


Lemma last_n_all {A : Type} (n : nat) (l : list A) :
  (List.length l <= n)%nat -> last_n n l = l.
Proof.
  intros H. unfold last_n. replace (List.length l - n)%nat with 0%nat by lia.
  reflexivity.
Qed.

Lemma last_n_cons {A : Type} (n : nat) (x : A) (l : list A) :
  (n <= List.length l)%nat -> last_n n (x :: l) = last_n n l.
Proof.
  intros H. unfold last_n. simpl List.length.
  replace (S (List.length l) - n)%nat with (S (List.length l - n)) by lia.
  reflexivity.
Qed.

Lemma run_inserts_window `{PyRuntime}
    (items : list (string * PyValue * option Z * Q)) (c : InMemoryCache) :
  1 <= _max_entries c ->
  cache_len c <= _max_entries c ->
  NoDup (cache_keys c ++ map item_key items)%list ->
  cache_keys (run (map set_op items) c) =
  last_n (Z.to_nat (_max_entries c)) (cache_keys c ++ map item_key items)%list.
Proof.
  revert c. induction items as [|[[[k v] ttl] now] items IH]; intros c Hcap Hlen Hnd.
  - simpl. rewrite app_nil_r. symmetry. apply last_n_all.
    unfold cache_keys, cache_len, OrderedDict.keys in *. rewrite length_map. lia.
  - assert (Hc : OrderedDict.contains k (_cache c) = false).
    { destruct (OrderedDict.contains k (_cache c)) eqn:E; [|reflexivity].
      apply DictFacts.contains_In in E. simpl in Hnd. apply NoDup_remove_2 in Hnd.
      exfalso. apply Hnd. apply in_or_app. now left. }
    change (run (map set_op ((k, v, ttl, now) :: items)) c)
      with (run (map set_op items) (step c (OpSet k v ttl now))).
    change (map item_key ((k, v, ttl, now) :: items)) with (k :: map item_key items) in *.
    destruct (Z.ltb_spec (cache_len c) (_max_entries c)) as [Hlt|Hge].
    + simpl step. rewrite set_new_room by assumption.
      set (c1 := with_cache c (_cache c ++ [(k, entry_for c v ttl now)])%list).
      assert (Hk1 : cache_keys c1 = (cache_keys c ++ [k])%list).
      { unfold c1, cache_keys. simpl. now rewrite DictFacts.keys_app. }
      rewrite (IH c1).
      * rewrite Hk1, <- app_assoc. reflexivity.
      * exact Hcap.
      * unfold c1, cache_len in *. simpl. rewrite length_snoc. lia.
      * rewrite Hk1, <- app_assoc. exact Hnd.
    + assert (Hd : exists p rest, _cache c = p :: rest).
      { destruct (_cache c) as [|p rest] eqn:E; [|eauto].
        unfold cache_len in Hge. rewrite E in Hge. simpl in Hge. lia. }
      destruct Hd as [[k0 e0] [rest Hd]].
      simpl step. rewrite (set_new_full c k v ttl now (k0, e0) rest) by assumption.
      set (c1 := with_cache c (rest ++ [(k, entry_for c v ttl now)])%list).
      assert (Hk : cache_keys c = k0 :: OrderedDict.keys rest).
      { unfold cache_keys. now rewrite Hd. }
      assert (Hk1 : cache_keys c1 = (OrderedDict.keys rest ++ [k])%list).
      { unfold c1, cache_keys. simpl. now rewrite DictFacts.keys_app. }
      assert (Hlr : Z.of_nat (List.length (OrderedDict.keys rest)) + 1
                    = _max_entries c).
      { unfold cache_len in *. rewrite Hd in *. simpl List.length in *.
        unfold OrderedDict.keys. rewrite length_map. lia. }
      rewrite (IH c1).
      * rewrite Hk1, Hk, <- app_assoc. simpl app.
        symmetry. apply last_n_cons. simpl _max_entries.
        rewrite length_app. simpl List.length. lia.
      * exact Hcap.
      * unfold c1, cache_len in *. simpl. rewrite length_snoc.
        unfold OrderedDict.keys in Hlr. rewrite length_map in Hlr. lia.
      * rewrite Hk1, <- app_assoc. rewrite Hk in Hnd. simpl in Hnd.
        now inversion Hnd.
Qed.

(** X6 (the LRU window).  With capacity [cap >= 1], setting any number of
    distinct keys on a new cache leaves exactly the last [cap] of them, in
    the order they were set. *)
Theorem X6_lru_window (R : PyRuntime) (default_ttl cap : Z)
    (items : list (string * PyValue * option Z * Q)) :
  1 <= cap ->
  NoDup (map item_key items) ->
  cache_keys (run (map set_op items) (Cache.init default_ttl cap)) =
  last_n (Z.to_nat cap) (map item_key items).
Proof.
  intros Hcap Hnd.
  apply (run_inserts_window items (Cache.init default_ttl cap)).
  - exact Hcap.
  - unfold cache_len. simpl. lia.
  - exact Hnd.
Qed.

(** Five keys into a cache of capacity 3. *)
Lemma X6_lru_window_witness :
  let R := mini_runtime in
  let items := [("a", PyInt 1, None, 0%Q); ("b", PyInt 2, None, 0%Q);
                ("c", PyInt 3, None, 0%Q); ("d", PyInt 4, None, 0%Q);
                ("e", PyInt 5, None, 0%Q)] in
  1 <= 3
  /\ NoDup (map item_key items)
  /\ cache_keys (run (map set_op items) (Cache.init 300 3)) = ["c"; "d"; "e"].
Proof.
  intros R items.
  assert (H1 : 1 <= 3) by lia.
  assert (H2 : NoDup (map item_key items))
    by (repeat constructor; simpl; intuition discriminate).
  split; [exact H1|]. split; [exact H2|].
  rewrite (X6_lru_window R 300 3 items H1 H2). reflexivity.
Defined.

(** X7 (an overwrite refreshes the entry).  On a cache with distinct keys,
    at most [max_entries >= 2] of them, a [set] of a key that is present
    returns, replaces the value and the expiry, and makes the key the most
    recently used one: the [set] of a new key right after it returns too
    and does not evict the key just written. *)
Theorem X7_overwrite_refreshes (c : InMemoryCache) (k k' : string)
    (v v' : PyValue) (ttl ttl' : option Z) (now now' : Q) :
  NoDup (cache_keys c) ->
  2 <= _max_entries c ->
  cache_len c <= _max_entries c ->
  OrderedDict.contains k (_cache c) = true ->
  OrderedDict.contains k' (_cache c) = false ->
  exists c1 c2,
    Cache.set c k v ttl now = Ok c1
    /\ cache_keys c1 =
       (filter (fun x => negb (String.eqb k x)) (cache_keys c) ++ [k])%list
    /\ OrderedDict.lookup k (_cache c1) = Some (entry_for c v ttl now)
    /\ Cache.set c1 k' v' ttl' now' = Ok c2
    /\ OrderedDict.lookup k (_cache c2) = Some (entry_for c v ttl now).
Proof.
  intros Hnd Hcap Hlen Hc Hc'.
  set (e := entry_for c v ttl now).
  set (c1 := with_cache c (OrderedDict.delete k (_cache c) ++ [(k, e)])%list).
  assert (Hne : k' <> k) by (intros ->; congruence).
  pose proof (DictFacts.length_delete_present k (_cache c) Hnd Hc) as Hdl.
  assert (Hl1 : forall x, OrderedDict.lookup x (_cache c1) =
                          if String.eqb x k then Some e
                          else OrderedDict.lookup x (_cache c))
    by (intros x; unfold c1; simpl; apply lookup_touch).
  assert (Hc1 : OrderedDict.contains k' (_cache c1) = false).
  { apply DictFacts.contains_false_lookup. rewrite Hl1.
    destruct (String.eqb k' k) eqn:E; [apply String.eqb_eq in E; contradiction|].
    now apply DictFacts.contains_false_lookup. }
  assert (Hk1 : OrderedDict.lookup k (_cache c1) = Some e)
    by (rewrite Hl1; now rewrite String.eqb_refl).
  assert (Hs2 : exists c2, Cache.set c1 k' v' ttl' now' = Ok c2
                           /\ OrderedDict.lookup k (_cache c2) = Some e).
  { destruct (Z.ltb_spec (cache_len c1) (_max_entries c1)) as [Hlt|Hge].
    - eexists. split; [now apply set_new_room|]. simpl.
      rewrite DictFacts.lookup_app. fold c1 in Hk1. simpl in Hk1. now rewrite Hk1.
    - assert (Hlen1 : cache_len c1 = cache_len c).
      { unfold c1, cache_len. simpl. rewrite length_snoc. lia. }
      assert (Hmax1 : _max_entries c1 = _max_entries c) by reflexivity.
      rewrite Hlen1, Hmax1 in Hge. unfold cache_len in Hge.
      assert (Hd : exists p rest, OrderedDict.delete k (_cache c) = p :: rest).
      { clear Hl1 Hc1 Hk1 Hlen1 Hmax1. clearbody c1.
        destruct (OrderedDict.delete k (_cache c)) as [|p rest]; [|eauto].
        simpl in Hdl. lia. }
      destruct Hd as [[kp ep] [rest Hd]].
      exists (with_cache c1 ((rest ++ [(k, e)]) ++ [(k', entry_for c1 v' ttl' now')])%list).
      split.
      + apply (set_new_full c1 k' v' ttl' now' (kp, ep) (rest ++ [(k, e)])%list);
          [exact Hc1 | rewrite Hlen1, Hmax1; exact Hge |].
        unfold c1. simpl. now rewrite Hd.
      + simpl. rewrite !DictFacts.lookup_app.
        pose proof (DictFacts.lookup_delete_same k (_cache c)) as Hx.
        rewrite Hd in Hx. simpl in Hx.
        destruct (String.eqb k kp); [discriminate|].
        rewrite Hx. simpl. now rewrite String.eqb_refl. }
  destruct Hs2 as [c2 [Hs2 Hk2]].
  exists c1, c2. split; [now apply set_existing|]. split; [|split; [exact Hk1|]].
  - unfold c1, cache_keys. simpl.
    now rewrite DictFacts.keys_app, DictFacts.keys_delete.
  - split; [exact Hs2 | exact Hk2].
Qed.

(** Capacity 2: [set(a,1); set(b,2); set(a,10); set(c,3)] keeps [a]. *)
Lemma X7_overwrite_refreshes_witness :
  let R := mini_runtime in
  let c := run [OpSet "a" (PyInt 1) None 0; OpSet "b" (PyInt 2) None 0]
               (Cache.init 300 2) in
  NoDup (cache_keys c) /\ 2 <= _max_entries c /\ cache_len c <= _max_entries c
  /\ exists c1 c2,
       Cache.set c "a" (PyInt 10) None 1 = Ok c1
       /\ Cache.set c1 "c" (PyInt 3) None 2 = Ok c2
       /\ OrderedDict.lookup "a" (_cache c2) = Some (entry_for c (PyInt 10) None 1).
Proof.
  intros R c.
  assert (H1 : NoDup (cache_keys c))
    by (vm_compute; repeat constructor; simpl; intuition discriminate).
  assert (H2 : 2 <= _max_entries c) by (vm_compute; discriminate).
  assert (H3 : cache_len c <= _max_entries c) by (vm_compute; discriminate).
  destruct (X7_overwrite_refreshes c "a" "c" (PyInt 10) (PyInt 3) None None
              1%Q 2%Q H1 H2 H3 eq_refl eq_refl) as [c1 [c2 [E1 [_ [_ [E2 E3]]]]]].
  split; [exact H1|]. split; [exact H2|]. split; [exact H3|].
  exists c1, c2. split; [exact E1|]. split; [exact E2 | exact E3].
Defined.

(** X8 (the effective TTL).  After a [set] that returns, with [ttl] given or
    left to the default, the next [get] of the key keeps the entry exactly
    when it is made strictly before [now + effective_ttl], and then returns
    the value; in particular with an effective TTL of zero or less every
    [get] from the time of the [set] on is a miss that deletes the entry. *)
Theorem X8_effective_ttl (c c' : InMemoryCache) (k : string) (v : PyValue)
    (ttl : option Z) (now now' : Q) :
  Cache.set c k v ttl now = Ok c' ->
  let effective_ttl := match ttl with Some t => t | None => _default_ttl c end in
  (OrderedDict.contains k (_cache (snd (Cache.get c' k now'))) = true
   <-> (now' < now + inject_Z effective_ttl)%Q)
  /\ ((now' < now + inject_Z effective_ttl)%Q -> fst (Cache.get c' k now') = v)
  /\ (effective_ttl <= 0 -> (now <= now')%Q ->
      Cache.get c' k now' =
      (PyNone, with_cache c' (OrderedDict.delete k (_cache c')))).
Proof.
  intros Hset. cbv zeta.
  pose proof (set_lookup_same _ _ _ _ _ _ Hset) as Hl.
  set (e := mkCacheEntry v (now + inject_Z
            (match ttl with Some t => t | None => _default_ttl c end))%Q) in *.
  assert (Hexp : forall t, Cache.is_expired t e = false
                           <-> (t < now + inject_Z
                                  (match ttl with Some t => t
                                             | None => _default_ttl c end))%Q)
    by (intros t; apply is_expired_false).
  unfold Cache.get. rewrite Hl. split; [|split].
  - destruct (Cache.is_expired now' e) eqn:E; cbn [snd with_cache _cache].
    + rewrite DictFacts.contains_delete_same. split; [discriminate|].
      intros Hlt. apply Hexp in Hlt. congruence.
    + split; [intros _; now apply Hexp|]. intros _.
      apply DictFacts.contains_lookup.
      rewrite DictFacts.lookup_move_to_end_same, Hl. discriminate.
  - intros Hlt. apply Hexp in Hlt. now rewrite Hlt.
  - intros Hz Hle.
    assert (Cache.is_expired now' e = true) as ->; [|reflexivity].
    apply is_expired_true. simpl.
    assert (inject_Z (match ttl with Some t => t | None => _default_ttl c end)
            <= inject_Z 0)%Q by (rewrite <- Zle_Qle; exact Hz).
    change (inject_Z 0) with 0%Q in H. lra.
Qed.

(** A zero default TTL: the entry is gone at the very time of the [set]. *)
Lemma X8_effective_ttl_witness :
  exists c',
    Cache.set (Cache.init 0 1000) "k" (PyInt 1) None 5 = Ok c'
    /\ 0 <= 0 /\ (5 <= 5)%Q
    /\ Cache.get c' "k" 5 = (PyNone, Cache.init 0 1000).
Proof.
  eexists. split; [reflexivity|].
  assert (H0 : 0 <= 0) by lia.
  assert (H5 : (5 <= 5)%Q) by (unfold Qle; simpl; lia).
  split; [exact H0|]. split; [exact H5|].
  destruct (X8_effective_ttl (Cache.init 0 1000) _ "k" (PyInt 1) None 5 5 eq_refl)
    as [_ [_ Hz]].
  rewrite (Hz H0 H5). reflexivity.
Defined.


(** * Further properties of the request pipeline *)

Lemma cacheable_Some_inv (method : string) (cache_key : option string)
    (key : string) :
  cacheable method cache_key = Some key ->
  method = "GET" /\ cache_key = Some key /\ key <> "".
Proof.
  unfold cacheable. destruct cache_key as [k|]; [|discriminate].
  destruct (String.eqb method "GET") eqn:Em; [|discriminate].
  destruct (String.eqb k "") eqn:Ek; [discriminate|]. simpl.
  intros [= ->]. apply String.eqb_eq in Em.
  split; [exact Em|]. split; [reflexivity|].
  intros ->. discriminate.
Qed.

(** A GET whose key holds a live value other than [None] is answered from
    the cache, whatever the client and the network. *)
Lemma request_hit `{PyRuntime} (env : Env) (self : WorldAnvilClient)
    (path key : string) (cache_ttl : option Z) (st : State) (e : CacheEntry) :
  key <> "" ->
  OrderedDict.lookup key (_cache (st_cache st)) = Some e ->
  Cache.is_expired (st_now st) e = false ->
  value e <> PyNone ->
  _request env self "GET" path (Some key) cache_ttl st =
  (Ok (value e),
   set_cache st (with_cache (st_cache st)
                   (OrderedDict.move_to_end key (_cache (st_cache st))))).
Proof.
  intros Hkey Hl Hlive Hv.
  rewrite request_unfold, consult_cache_spec, (cacheable_GET key Hkey).
  unfold Cache.get. rewrite Hl, Hlive. cbn [fst snd].
  now rewrite (is_none_false _ Hv).
Qed.

(** A request that is not answered from the cache, on an initialised client
    that allows one attempt, calls the network. *)
Lemma request_reaches_network `{PyRuntime} (env : Env) (self : WorldAnvilClient)
    (method path : string) (cache_key : option string) (cache_ttl : option Z)
    (st : State) :
  _client self = true ->
  1 <= max_retries self ->
  fst (consult_cache method cache_key st) = Ok PyNone ->
  let st' := snd (_request env self method path cache_key cache_ttl st) in
  (exists evs, st_trace st' = (st_trace st ++ EvRequest method path :: evs)%list)
  /\ (S (st_calls st) <= st_calls st')%nat.
Proof.
  intros Hopen Hretries Hmiss. cbv zeta.
  destruct (consult_cache_same_world method cache_key st) as [_ [Hc [_ Ht]]].
  rewrite request_unfold. cbv zeta. rewrite Hmiss. cbn [is_none negb].
  rewrite Hopen. cbn [negb].
  destruct (Z.to_nat (max_retries self)) as [|n] eqn:En; [lia|].
  rewrite <- Hc, <- Ht.
  exact (attempts_calls_first env self method path cache_key cache_ttl n 0 None
           (snd (consult_cache method cache_key st))).
Qed.

(** X9 (a read populates the cache).  On an initialised client that allows
    one attempt, a GET with a cache key that misses and is answered
    successfully with a body other than [None] makes one network call; with
    a positive effective TTL the same GET made right after it is answered
    from the cache with the same body and no further network call; with an
    effective TTL of zero or less it goes to the network again. *)
Theorem X9_read_populates_cache (R : PyRuntime) (env : Env)
    (self : WorldAnvilClient) (path key : string) (cache_ttl : option Z)
    (st : State) (r : Response) (data : PyValue) :
  _client self = true ->
  1 <= max_retries self ->
  key <> "" ->
  OrderedDict.lookup key (_cache (st_cache st)) = None ->
  1 <= _max_entries (st_cache st) ->
  net env (st_calls st) = Responded r ->
  check_response path r = Ok data ->
  data <> PyNone ->
  let effective_ttl :=
    match cache_ttl with Some t => t | None => default_cache_ttl self end in
  let out1 := _request env self "GET" path (Some key) cache_ttl st in
  let out2 := _request env self "GET" path (Some key) cache_ttl (snd out1) in
  fst out1 = Ok data
  /\ st_trace (snd out1) = (st_trace st ++ [EvRequest "GET" path])%list
  /\ (0 < effective_ttl ->
      fst out2 = Ok data
      /\ st_trace (snd out2) = st_trace (snd out1)
      /\ st_calls (snd out2) = S (st_calls st))
  /\ (effective_ttl <= 0 ->
      (S (S (st_calls st)) <= st_calls (snd out2))%nat).
Proof.
  intros Hopen Hretries Hkey Hl Hcap Hnet Hok Hdata. cbv zeta.
  set (eff := match cache_ttl with Some t => t | None => default_cache_ttl self end).
  assert (E1 : exists c',
             Cache.set (st_cache st) key data (Some eff)
               (st_now (after_call env "GET" path st)) = Ok c'
             /\ _request env self "GET" path (Some key) cache_ttl st =
                (Ok data, set_cache (after_call env "GET" path st) c')).
  { rewrite (request_answered env self "GET" path (Some key) cache_ttl st r
               Hopen Hretries);
      [|now rewrite (consult_absent key st Hkey Hl) | exact Hnet].
    rewrite (consult_absent key st Hkey Hl). cbn [snd].
    exact (handle_response_read self path key cache_ttl
             (after_call env "GET" path st) r data Hkey Hcap Hok). }
  destruct E1 as [c' [Hset E1]]. rewrite E1. cbn [fst snd].
  set (s1 := set_cache (after_call env "GET" path st) c').
  pose proof (set_lookup_same _ _ _ _ _ _ Hset) as Hl1. cbv beta iota in Hl1.
  set (e := mkCacheEntry data (st_now (after_call env "GET" path st) + inject_Z eff)%Q)
    in *.
  assert (Hnow : st_now s1 = st_now (after_call env "GET" path st)) by reflexivity.
  split; [reflexivity|]. split; [reflexivity|]. split.
  - intros Hpos.
    assert (Hlive : Cache.is_expired (st_now s1) e = false).
    { apply is_expired_false. rewrite Hnow. unfold e, after_call.
      cbn [expires_at st_now].
      assert (inject_Z 0 < inject_Z eff)%Q by (rewrite <- Zlt_Qlt; exact Hpos).
      change (inject_Z 0) with 0%Q in H. lra. }
    rewrite (request_hit env self path key cache_ttl s1 e Hkey Hl1 Hlive Hdata).
    cbn [fst snd]. repeat split.
  - intros Hz.
    assert (Hdead : Cache.is_expired (st_now s1) e = true).
    { apply is_expired_true. rewrite Hnow. unfold e, after_call.
      cbn [expires_at st_now].
      assert (inject_Z eff <= inject_Z 0)%Q by (rewrite <- Zle_Qle; exact Hz).
      change (inject_Z 0) with 0%Q in H. lra. }
    assert (Hl1' : OrderedDict.lookup key (_cache (st_cache s1)) = Some e)
      by exact Hl1.
    assert (Hmiss : fst (consult_cache "GET" (Some key) s1) = Ok PyNone).
    { rewrite consult_cache_spec, (cacheable_GET key Hkey). cbn [fst].
      unfold Cache.get. now rewrite Hl1', Hdead. }
    destruct (request_reaches_network env self "GET" path (Some key) cache_ttl s1
                Hopen Hretries Hmiss) as [_ Hc].
    exact Hc.
Qed.

(** The identity read twice: one network call. *)
Lemma X9_read_populates_cache_witness :
  let R := mini_runtime in
  let out1 := _request env_ok client_open "GET" "/identity" (Some "identity")
                       (Some 3600) state0 in
  let out2 := _request env_ok client_open "GET" "/identity" (Some "identity")
                       (Some 3600) (snd out1) in
  _client client_open = true
  /\ 1 <= max_retries client_open
  /\ 1 <= _max_entries (st_cache state0)
  /\ ok_body <> PyNone
  /\ 0 < 3600
  /\ fst out2 = Ok ok_body
  /\ st_calls (snd out2) = 1%nat.
Proof.
  intros R out1 out2.
  assert (H1 : _client client_open = true) by reflexivity.
  assert (H2 : 1 <= max_retries client_open) by (simpl; lia).
  assert (H3 : 1 <= _max_entries (st_cache state0)) by (simpl; lia).
  assert (H4 : ok_body <> PyNone) by discriminate.
  assert (H5 : 0 < 3600) by lia.
  destruct (X9_read_populates_cache R env_ok client_open "/identity" "identity"
              (Some 3600) state0 (mkResponse 200 None "" (Some ok_body)) ok_body
              H1 H2 ltac:(discriminate) eq_refl H3 eq_refl eq_refl H4)
    as [_ [_ [Hhit _]]].
  destruct (Hhit H5) as [E1 [_ E2]].
  repeat split; assumption.
Defined.

Lemma attempts_Ok_calls `{PyRuntime} (env : Env) (self : WorldAnvilClient)
    (method path : string) (cache_key : option string) (cache_ttl : option Z)
    (remaining : nat) (attempt : Z) (last_error : option TransportError)
    (st : State) (v : PyValue) :
  fst (attempts env self method path cache_key cache_ttl remaining attempt
                last_error st) = Ok v ->
  (S (st_calls st) <=
   st_calls (snd (attempts env self method path cache_key cache_ttl remaining
                           attempt last_error st)))%nat.
Proof.
  destruct remaining as [|n]; [discriminate|]. intros _.
  exact (proj2 (attempts_calls_first env self method path cache_key cache_ttl
                  n attempt last_error st)).
Qed.

(** X10 (a cached answer is never stale).  Whenever a request returns a
    value without having called the network, the request was a GET with a
    non-empty cache key, and the value returned is the value, other than
    [None], of the entry stored under that key, which had not reached its
    expiry at the time of the request. *)
Theorem X10_cached_answer_is_live (R : PyRuntime) (env : Env)
    (self : WorldAnvilClient) (method path : string) (cache_key : option string)
    (cache_ttl : option Z) (st : State) (v : PyValue) :
  let out := _request env self method path cache_key cache_ttl st in
  fst out = Ok v ->
  st_calls (snd out) = st_calls st ->
  method = "GET"
  /\ exists key e,
       cache_key = Some key /\ key <> ""
       /\ OrderedDict.lookup key (_cache (st_cache st)) = Some e
       /\ value e = v /\ v <> PyNone
       /\ (st_now st < expires_at e)%Q.
Proof.
  cbv zeta. rewrite request_unfold. cbv zeta.
  destruct (consult_cache_same_world method cache_key st) as [_ [Hc _]].
  rewrite consult_cache_spec in *.
  destruct (cacheable method cache_key) as [key|] eqn:Eck.
  - destruct (cacheable_Some_inv _ _ _ Eck) as [Hm [Hck Hkey]].
    cbn [fst snd] in *.
    destruct (is_none (fst (Cache.get (st_cache st) key (st_now st)))) eqn:En;
      cbn [negb].
    + destruct (_client self); cbn [negb]; [|discriminate].
      intros Hok Hcalls. apply attempts_Ok_calls in Hok. lia.
    + intros [= Hv] _. split; [exact Hm|].
      revert En Hv. unfold Cache.get.
      destruct (OrderedDict.lookup key (_cache (st_cache st))) as [e|] eqn:El;
        [|discriminate].
      destruct (Cache.is_expired (st_now st) e) eqn:Ee; [discriminate|].
      cbn [fst]. intros En Hv. exists key, e.
      split; [exact Hck|]. split; [exact Hkey|]. split; [exact El|].
      split; [exact Hv|]. split.
      * intros ->. rewrite Hv in En. discriminate.
      * now apply is_expired_false.
  - cbn [fst snd is_none negb] in *.
    destruct (_client self); cbn [negb]; [|discriminate].
    intros Hok Hcalls. apply attempts_Ok_calls in Hok. lia.
Qed.

(** The second identity read of the previous example. *)
Lemma X10_cached_answer_is_live_witness :
  let R := mini_runtime in
  let st := snd (_request env_ok client_open "GET" "/identity" (Some "identity")
                          (Some 3600) state0) in
  let out := _request env_ok client_open "GET" "/identity" (Some "identity")
                      (Some 3600) st in
  fst out = Ok ok_body
  /\ st_calls (snd out) = st_calls st
  /\ exists e, OrderedDict.lookup "identity" (_cache (st_cache st)) = Some e
               /\ (st_now st < expires_at e)%Q.
Proof.
  intros R st out.
  assert (H1 : fst out = Ok ok_body) by reflexivity.
  assert (H2 : st_calls (snd out) = st_calls st) by reflexivity.
  destruct (X10_cached_answer_is_live R env_ok client_open "GET" "/identity"
              (Some "identity") (Some 3600) st ok_body H1 H2)
    as [_ [key [e [Hk [_ [Hl [_ [_ Hlive]]]]]]]].
  injection Hk as <-.
  split; [exact H1|]. split; [exact H2|]. exists e. split; assumption.
Defined.

Ltac handle_response_cases :=
  unfold handle_response, bind, lift, ret, cache_set;
  repeat match goal with
    | |- context [check_response ?p ?r] =>
        let E := fresh "Echeck" in destruct (check_response p r) eqn:E
    | |- context [cacheable ?m ?k] =>
        let E := fresh "Eck" in destruct (cacheable m k) eqn:E
    | |- context [Cache.set ?c ?k ?v ?t ?n] =>
        let E := fresh "Eset" in destruct (Cache.set c k v t n) eqn:E
    | |- context [is_write_method ?m] =>
        let E := fresh "Ew" in destruct (is_write_method m) eqn:E
    | |- context [String.eqb (resource_type_of ?p) ""] =>
        let E := fresh "Etok" in destruct (String.eqb (resource_type_of p) "") eqn:E
    end;
  cbn [negb fst snd];
  rewrite ?cache_invalidate_pattern_unfold.

Lemma handle_response_Raise `{PyRuntime} (self : WorldAnvilClient)
    (method path : string) (cache_key : option string) (cache_ttl : option Z)
    (r : Response) (st : State) (e : PyExn) :
  fst (handle_response self method path cache_key cache_ttl r st) = Raise e ->
  snd (handle_response self method path cache_key cache_ttl r st) = st.
Proof.
  handle_response_cases;
    try match goal with
      | |- context [@Cache.invalidate_pattern ?R ?c ?p] =>
          destruct (@Cache.invalidate_pattern R c p) as [[? ?]|?]
      end;
    cbn [fst snd]; try discriminate; try reflexivity.
  all: destruct (cacheable_Some_inv _ _ _ Eck) as [-> _]; discriminate.
Qed.

Lemma handle_response_Ok `{PyRuntime} (self : WorldAnvilClient)
    (method path : string) (cache_key : option string) (cache_ttl : option Z)
    (r : Response) (st : State) (v : PyValue) :
  fst (handle_response self method path cache_key cache_ttl r st) = Ok v ->
  check_response path r = Ok v.
Proof.
  handle_response_cases;
    try match goal with
      | |- context [@Cache.invalidate_pattern ?R ?c ?p] =>
          destruct (@Cache.invalidate_pattern R c p) as [[? ?]|?]
      end;
    cbn [fst snd]; try discriminate; intros [= ->]; reflexivity.
Qed.

Lemma attempts_Raise_cache `{PyRuntime} (env : Env) (self : WorldAnvilClient)
    (method path : string) (cache_key : option string) (cache_ttl : option Z)
    (remaining : nat) (attempt : Z) (last_error : option TransportError)
    (st : State) (e : PyExn) :
  fst (attempts env self method path cache_key cache_ttl remaining attempt
                last_error st) = Raise e ->
  st_cache (snd (attempts env self method path cache_key cache_ttl remaining
                          attempt last_error st)) = st_cache st.
Proof.
  revert attempt last_error st.
  induction remaining as [|n IH]; intros attempt last_error st; [reflexivity|].
  rewrite attempts_S. cbv zeta.
  destruct (net env (st_calls st)) as [r|te|msg].
  - intros Hr. now rewrite (handle_response_Raise _ _ _ _ _ _ _ _ Hr).
  - rewrite on_transport_error_spec.
    destruct (attempt <? max_retries self - 1);
      [destruct (backoff attempt _) as [delay|ex]; [|reflexivity]|];
      intros Hr; now rewrite (IH _ _ _ Hr).
  - reflexivity.
Qed.

(** X11 (a failed request writes nothing to the cache).  Whenever a request
    raises, whichever the exception and after however many attempts, the
    cache is the one the opening cache consultation left: no response has
    been stored and no key has been invalidated. *)
Theorem X11_failure_keeps_cache (R : PyRuntime) (env : Env)
    (self : WorldAnvilClient) (method path : string) (cache_key : option string)
    (cache_ttl : option Z) (st : State) (e : PyExn) :
  let out := _request env self method path cache_key cache_ttl st in
  fst out = Raise e ->
  st_cache (snd out) = st_cache (snd (consult_cache method cache_key st))
  /\ (cacheable method cache_key = None -> st_cache (snd out) = st_cache st).
Proof.
  cbv zeta. intros Hr.
  assert (Hc : st_cache (snd (_request env self method path cache_key cache_ttl st))
               = st_cache (snd (consult_cache method cache_key st))).
  { revert Hr. rewrite request_unfold. cbv zeta.
    destruct (fst (consult_cache method cache_key st)) as [cached|x];
      [|reflexivity].
    destruct (is_none cached); cbn [negb]; [|discriminate].
    destruct (_client self); cbn [negb]; [|reflexivity].
    apply attempts_Raise_cache. }
  split; [exact Hc|]. intros Hn. rewrite Hc, consult_cache_spec, Hn. reflexivity.
Qed.

(** A world update answered 404, after a read that was cached. *)
Lemma X11_failure_keeps_cache_witness :
  let R := mini_runtime in
  let env := mkEnv (fun n => match n with
                             | O => Responded (mkResponse 200 None "" (Some ok_body))
                             | S _ => Responded (mkResponse 404 None "" None)
                             end) (fun _ => 0%Q) (fun _ => 0%Q) in
  let st := snd (_request env client_open "GET" "/world/w1" (Some "world:w1:1")
                          (Some 300) state0) in
  let out := _request env client_open "PATCH" "/world/w1" None None st in
  fst out = Raise (WorldAnvilNotFoundError "/world/w1")
  /\ st_cache (snd out) = st_cache st
  /\ cache_keys (st_cache (snd out)) = ["world:w1:1"].
Proof.
  intros R env st out.
  assert (H1 : fst out = Raise (WorldAnvilNotFoundError "/world/w1")) by reflexivity.
  destruct (X11_failure_keeps_cache R env client_open "PATCH" "/world/w1" None None
              st _ H1) as [_ Hc].
  split; [exact H1|]. split; [exact (Hc eq_refl)|].
  unfold out. rewrite (Hc eq_refl). reflexivity.
Defined.

Lemma attempts_fail_then `{PyRuntime} (env : Env) (self : WorldAnvilClient)
    (method path : string) (cache_key : option string) (cache_ttl : option Z)
    (err : nat -> TransportError) (r : Response) (k : nat) :
  forall (n a : nat) (last_error : option TransportError) (st : State),
    max_retries self = Z.of_nat a + Z.of_nat n ->
    (k < n)%nat ->
    (a + k <= 1024)%nat ->
    (forall j, (st_calls st <= j < st_calls st + k)%nat ->
               net env j = TransportFailed (err j)) ->
    net env (st_calls st + k)%nat = Responded r ->
    exists st_k,
      attempts env self method path cache_key cache_ttl n (Z.of_nat a)
               last_error st =
      handle_response self method path cache_key cache_ttl r st_k
      /\ st_cache st_k = st_cache st
      /\ st_calls st_k = (st_calls st + S k)%nat
      /\ st_trace st_k =
         (st_trace st ++ expected_trace env method path (S k) a (st_rolls st))%list.
Proof.
  induction k as [|k IH]; intros n a last_error st HN Hk Hsmall Hfail Hnet.
  - destruct n as [|n]; [lia|]. rewrite attempts_S. cbv zeta.
    rewrite Nat.add_0_r in Hnet. rewrite Hnet.
    exists (after_call env method path st). split; [reflexivity|].
    unfold after_call. cbn [st_cache st_calls st_trace].
    split; [reflexivity|]. split; [lia | reflexivity].
  - destruct n as [|n]; [lia|]. rewrite attempts_S. cbv zeta.
    rewrite (Hfail (st_calls st)) by lia.
    rewrite on_transport_error_spec.
    assert ((Z.of_nat a <? max_retries self - 1) = true) as ->
      by (apply Z.ltb_lt; lia).
    rewrite backoff_ok by lia.
    replace (Z.of_nat a + 1) with (Z.of_nat (S a)) by lia.
    match goal with
    | |- context [attempts _ _ _ _ _ _ n (Z.of_nat (S a)) ?le ?s] =>
        destruct (IH n (S a) le s) as [st_k [E [Hc [Hn Ht]]]]
    end.
    + lia.
    + lia.
    + lia.
    + intros j Hj. unfold after_call in Hj. cbn [st_calls] in Hj.
      apply Hfail. lia.
    + unfold after_call. cbn [st_calls].
      now rewrite Nat.add_succ_comm.
    + exists st_k. split; [exact E|]. rewrite Hc, Hn, Ht.
      unfold after_call. cbn [st_cache st_calls st_trace st_rolls].
      split; [reflexivity|]. split; [lia|].
      rewrite <- !app_assoc. reflexivity.
Qed.

Lemma handle_response_read_Ok `{PyRuntime} (self : WorldAnvilClient)
    (method path : string) (cache_key : option string) (cache_ttl : option Z)
    (r : Response) (st : State) (data : PyValue) :
  is_write_method method = false ->
  1 <= _max_entries (st_cache st) ->
  check_response path r = Ok data ->
  fst (handle_response self method path cache_key cache_ttl r st) = Ok data.
Proof.
  intros Hw Hcap Hok. unfold handle_response, bind, lift, ret, cache_set.
  rewrite Hok, Hw.
  destruct (cacheable method cache_key) as [key|]; [|reflexivity].
  match goal with
  | |- context [Cache.set ?c ?k ?v ?t ?n] =>
      destruct (set_succeeds c k v t n Hcap) as [c' ->]
  end.
  reflexivity.
Qed.

(** X12 (a retry that succeeds).  On an initialised client, take a request
    that reaches the network, [k] transport failures with [k] less than
    [max_retries], and then a response.  For [k] up to 1024 the request
    handles that response as a first one, on the cache the consultation
    left; its log is the [k] failed calls, each followed by its back-off
    sleep, and the call that was answered: [k + 1] network calls and [k]
    sleeps.  If the response is an error response, its exception leaves the
    request without a further attempt; if it is a success and the verb is
    not a mutating one, its body is returned (the cache having room for an
    entry).  From [k = 1025] on the response is never asked for: after the
    failed attempt of index 1024 the conversion of [2**1024] to a float
    raises [OverflowError]. *)
Theorem X12_retry_then_answer (R : PyRuntime) (env : Env) (self : WorldAnvilClient)
    (method path : string) (cache_key : option string) (cache_ttl : option Z)
    (st : State) (err : nat -> TransportError) (k : nat) (r : Response) :
  _client self = true ->
  fst (consult_cache method cache_key st) = Ok PyNone ->
  Z.of_nat k < max_retries self ->
  (forall j, (st_calls st <= j < st_calls st + k)%nat ->
             net env j = TransportFailed (err j)) ->
  net env (st_calls st + k)%nat = Responded r ->
  let out := _request env self method path cache_key cache_ttl st in
  ((k <= 1024)%nat ->
   let log := expected_trace env method path (S k) 0 (st_rolls st) in
   (exists st_k,
       out = handle_response self method path cache_key cache_ttl r st_k
       /\ st_cache st_k = st_cache (snd (consult_cache method cache_key st)))
   /\ st_trace (snd out) = (st_trace st ++ log)%list
   /\ st_calls (snd out) = (st_calls st + S k)%nat
   /\ network_calls log = S k
   /\ List.length (sleeps log) = k
   /\ (forall e, check_response path r = Raise e -> fst out = Raise e)
   /\ (forall data, check_response path r = Ok data ->
         is_write_method method = false ->
         1 <= _max_entries (st_cache st) ->
         fst out = Ok data))
  /\ ((1025 <= k)%nat ->
      fst out = Raise OverflowError
      /\ st_trace (snd out) =
         (st_trace st ++ expected_trace env method path 1025 0 (st_rolls st))%list
      /\ st_calls (snd out) = (st_calls st + 1025)%nat).
Proof.
  intros Hopen Hmiss Hk Hfail Hnet. cbv zeta.
  destruct (consult_cache_same_world method cache_key st) as [_ [Hc [Hr Ht]]].
  set (st1 := snd (consult_cache method cache_key st)) in *.
  assert (Hreq : _request env self method path cache_key cache_ttl st =
                 attempts env self method path cache_key cache_ttl
                          (Z.to_nat (max_retries self)) 0 None st1).
  { rewrite request_unfold. cbv zeta. rewrite Hmiss. cbn [is_none negb].
    rewrite Hopen. reflexivity. }
  split.
  - intros Hsmall.
    destruct (attempts_fail_then env self method path cache_key cache_ttl err r k
                (Z.to_nat (max_retries self)) 0 None st1)
      as [st_k [E [Hck [Hnk Htk]]]].
    { simpl. lia. } { lia. } { lia. }
    { intros j Hj. apply Hfail. rewrite <- Hc. exact Hj. }
    { rewrite Hc. exact Hnet. }
    change (Z.of_nat 0) with 0 in E.
    assert (Hout : _request env self method path cache_key cache_ttl st =
                   handle_response self method path cache_key cache_ttl r st_k)
      by (rewrite Hreq; exact E).
    rewrite Hout.
    destruct (handle_response_same_world self method path cache_key cache_ttl r st_k)
      as [_ [Hc2 [_ Ht2]]].
    split; [exists st_k; split; [reflexivity | exact Hck]|].
    split; [rewrite Ht2, Htk, Ht, Hr; reflexivity|].
    split; [rewrite Hc2, Hnk, Hc; reflexivity|].
    split; [apply network_calls_expected|].
    split; [rewrite sleeps_expected, length_map, length_seq; lia|].
    split.
    + intros e He. unfold handle_response, bind, lift. now rewrite He.
    + intros data Hok Hw Hcap. apply handle_response_read_Ok; try assumption.
      rewrite Hck. unfold st1. rewrite consult_cache_spec.
      destruct (cacheable method cache_key); [|exact Hcap].
      cbn [snd set_cache st_cache]. unfold Cache.get.
      destruct (OrderedDict.lookup _ _); [|exact Hcap].
      destruct (Cache.is_expired _ _); exact Hcap.
  - intros Hbig. rewrite Hreq.
    destruct (attempts_overflow env self method path cache_key cache_ttl err 1024
                (Z.to_nat (max_retries self)) 0 None st1)
      as [A1 [A2 [A3 _]]].
    { reflexivity. } { simpl. lia. } { lia. }
    { intros j Hj. apply Hfail. rewrite <- Hc. lia. }
    change (Z.of_nat 0) with 0 in A1, A2, A3.
    rewrite Hc, Hr, Ht in *. auto.
Qed.

(** Two time-outs, then the answer. *)
Lemma X12_retry_then_answer_witness :
  let R := mini_runtime in
  let env := mkEnv (fun n => match n with
                             | S (S _) => Responded (mkResponse 200 None "" (Some ok_body))
                             | _ => TransportFailed (TimeoutException "timeout")
                             end) (fun _ => 0%Q) (fun _ => 0%Q) in
  let out := _request env client_open "GET" "/identity" (Some "identity")
                      (Some 3600) state0 in
  _client client_open = true
  /\ Z.of_nat 2 < max_retries client_open
  /\ fst out = Ok ok_body
  /\ st_trace (snd out) =
     [EvRequest "GET" "/identity"; EvSleep (backoff_delay 0 0);
      EvRequest "GET" "/identity"; EvSleep (backoff_delay 1 0);
      EvRequest "GET" "/identity"].
Proof.
  intros R env out.
  assert (H1 : _client client_open = true) by reflexivity.
  assert (H2 : Z.of_nat 2 < max_retries client_open) by (simpl; lia).
  destruct (X12_retry_then_answer R env client_open "GET" "/identity"
              (Some "identity") (Some 3600) state0
              (fun _ => TimeoutException "timeout") 2
              (mkResponse 200 None "" (Some ok_body)) H1 eq_refl H2)
    as [Hsmall _].
  { intros j Hj. simpl in Hj. destruct j as [|[|j]]; [reflexivity|reflexivity|lia]. }
  { reflexivity. }
  destruct (Hsmall ltac:(lia)) as [_ [Ht [_ [_ [_ [_ Hok]]]]]].
  split; [exact H1|]. split; [exact H2|]. split.
  - apply Hok; [reflexivity | reflexivity | simpl; lia].
  - exact Ht.
Defined.

Lemma check_response_Ok_inv `{PyRuntime} (path : string) (r : Response)
    (data : PyValue) :
  check_response path r = Ok data ->
  status_code r < 400
  /\ json_body r = Some data
  /\ (forall items, data = PyDict items ->
        truthy (dict_get items "success" (PyBool true)) = true).
Proof.
  unfold check_response, HTTP_STATUS_UNAUTHORIZED, HTTP_STATUS_FORBIDDEN,
    HTTP_STATUS_NOT_FOUND, HTTP_STATUS_TOO_MANY_REQUESTS,
    HTTP_STATUS_SERVER_ERROR, HTTP_STATUS_CLIENT_ERROR.
  destruct (status_code r =? 401); [discriminate|].
  destruct (status_code r =? 403); [discriminate|].
  destruct (status_code r =? 404); [discriminate|].
  destruct (status_code r =? 429).
  { destruct (retry_after_header r) as [h|]; [|discriminate].
    destruct (py_int h); discriminate. }
  destruct (status_code r >=? 500); [discriminate|].
  destruct (status_code r >=? 400) eqn:E400; [discriminate|].
  rewrite Z.geb_leb in E400. apply Z.leb_gt in E400.
  destruct (json_body r) as [body|]; [|discriminate].
  destruct body as [| | | | | |items];
    try (intros [= <-]; split; [exact E400|]; split; [reflexivity|];
         intros items' Heq; discriminate).
  destruct (truthy (dict_get items "success" (PyBool true))) eqn:Et;
    cbn [negb]; [|discriminate].
  intros [= <-]. split; [exact E400|]. split; [reflexivity|].
  intros items' [= <-]. exact Et.
Qed.

Lemma attempts_Ok_last `{PyRuntime} (env : Env) (self : WorldAnvilClient)
    (method path : string) (cache_key : option string) (cache_ttl : option Z)
    (remaining : nat) (attempt : Z) (last_error : option TransportError)
    (st : State) (v : PyValue) :
  fst (attempts env self method path cache_key cache_ttl remaining attempt
                last_error st) = Ok v ->
  exists r,
    net env (pred (st_calls (snd (attempts env self method path cache_key
                                           cache_ttl remaining attempt
                                           last_error st)))) = Responded r
    /\ check_response path r = Ok v.
Proof.
  revert attempt last_error st.
  induction remaining as [|n IH]; intros attempt last_error st; [discriminate|].
  rewrite attempts_S. cbv zeta.
  destruct (net env (st_calls st)) as [r|te|msg] eqn:En.
  - intros Hok. exists r.
    destruct (handle_response_same_world self method path cache_key cache_ttl r
                (after_call env method path st)) as [_ [Hc _]].
    rewrite Hc. unfold after_call. cbn [st_calls pred].
    split; [exact En | exact (handle_response_Ok _ _ _ _ _ _ _ _ Hok)].
  - rewrite on_transport_error_spec.
    destruct (attempt <? max_retries self - 1);
      [destruct (backoff attempt _) as [delay|ex]; [|discriminate]|]; apply IH.
  - discriminate.
Qed.

(** X13 (a value returned after a network call is a successful response).
    Whenever a request returns a value and has called the network, the
    value is the parsed body of the response to the last call made, and
    that response had a status below 400 and, when its body is an object,
    a success flag that is absent or truthy. *)
Theorem X13_ok_is_last_response (R : PyRuntime) (env : Env)
    (self : WorldAnvilClient) (method path : string) (cache_key : option string)
    (cache_ttl : option Z) (st : State) (v : PyValue) :
  let out := _request env self method path cache_key cache_ttl st in
  fst out = Ok v ->
  st_calls (snd out) <> st_calls st ->
  exists r,
    net env (pred (st_calls (snd out))) = Responded r
    /\ check_response path r = Ok v
    /\ status_code r < 400
    /\ json_body r = Some v
    /\ (forall items, v = PyDict items ->
          truthy (dict_get items "success" (PyBool true)) = true).
Proof.
  cbv zeta. rewrite request_unfold. cbv zeta.
  destruct (consult_cache_same_world method cache_key st) as [_ [Hc _]].
  destruct (fst (consult_cache method cache_key st)) as [cached|x];
    [|discriminate].
  destruct (is_none cached); cbn [negb].
  - destruct (_client self); cbn [negb]; [|discriminate].
    intros Hok _. destruct (attempts_Ok_last _ _ _ _ _ _ _ _ _ _ _ Hok) as [r [Hn Hk]].
    exists r. split; [exact Hn|]. split; [exact Hk|].
    exact (check_response_Ok_inv path r v Hk).
  - cbn [fst snd]. intros _ Hne. congruence.
Qed.

(** A first read of the identity. *)
Lemma X13_ok_is_last_response_witness :
  let R := mini_runtime in
  let out := _request env_ok client_open "GET" "/identity" (Some "identity")
                      (Some 3600) state0 in
  fst out = Ok ok_body
  /\ st_calls (snd out) <> st_calls state0
  /\ exists r, net env_ok (pred (st_calls (snd out))) = Responded r
               /\ status_code r < 400.
Proof.
  intros R out.
  assert (H1 : fst out = Ok ok_body) by reflexivity.
  assert (H2 : st_calls (snd out) <> st_calls state0) by discriminate.
  destruct (X13_ok_is_last_response R env_ok client_open "GET" "/identity"
              (Some "identity") (Some 3600) state0 ok_body H1 H2)
    as [r [Hn [_ [Hs _]]]].
  split; [exact H1|]. split; [exact H2|]. exists r. split; assumption.
Defined.

(** X14 (errors raised while reading a response are not retried).  On an
    initialised client that allows one attempt, for a request that reaches
    the network: a 429 whose [Retry-After] header is not an integer makes
    [int] raise [ValueError], and a response with a status below 400 whose
    body is not JSON makes [response.json()] raise; either exception leaves
    the request after that single network call, with no sleep and the cache
    as the consultation left it. *)
Theorem X14_response_errors_propagate (R : PyRuntime) (env : Env)
    (self : WorldAnvilClient) (method path : string) (cache_key : option string)
    (cache_ttl : option Z) (st : State) (r : Response) :
  _client self = true ->
  1 <= max_retries self ->
  fst (consult_cache method cache_key st) = Ok PyNone ->
  net env (st_calls st) = Responded r ->
  let st1 := snd (consult_cache method cache_key st) in
  let out := _request env self method path cache_key cache_ttl st in
  (forall h, status_code r = 429 -> retry_after_header r = Some h ->
             py_int h = None ->
             out = (Raise (ValueError h), after_call env method path st1))
  /\ (status_code r < 400 -> json_body r = None ->
      out = (Raise JSONDecodeError, after_call env method path st1)).
Proof.
  intros Hopen Hretries Hmiss Hnet. cbv zeta.
  rewrite (request_answered env self method path cache_key cache_ttl st r
             Hopen Hretries Hmiss Hnet).
  unfold handle_response, bind, lift, check_response, HTTP_STATUS_UNAUTHORIZED,
    HTTP_STATUS_FORBIDDEN, HTTP_STATUS_NOT_FOUND, HTTP_STATUS_TOO_MANY_REQUESTS,
    HTTP_STATUS_SERVER_ERROR, HTTP_STATUS_CLIENT_ERROR.
  split.
  - intros h Hs Hh Hi. now rewrite Hs, Hh, Hi.
  - intros Hs Hb.
    assert ((status_code r =? 401) = false) as -> by (apply Z.eqb_neq; lia).
    assert ((status_code r =? 403) = false) as -> by (apply Z.eqb_neq; lia).
    assert ((status_code r =? 404) = false) as -> by (apply Z.eqb_neq; lia).
    assert ((status_code r =? 429) = false) as -> by (apply Z.eqb_neq; lia).
    assert ((status_code r >=? 500) = false) as ->
      by (rewrite Z.geb_leb; apply Z.leb_gt; lia).
    assert ((status_code r >=? 400) = false) as ->
      by (rewrite Z.geb_leb; apply Z.leb_gt; lia).
    now rewrite Hb.
Qed.

(** A 429 whose [Retry-After] is an HTTP date. *)
Lemma X14_response_errors_propagate_witness :
  let R := mini_runtime in
  let r := mkResponse 429 (Some "Wed, 21 Oct 2015 07:28:00 GMT") "" None in
  let env := mkEnv (fun _ => Responded r) (fun _ => 0%Q) (fun _ => 0%Q) in
  _client client_open = true
  /\ 1 <= max_retries client_open
  /\ py_int "Wed, 21 Oct 2015 07:28:00 GMT" = None
  /\ fst (_request env client_open "GET" "/identity" (Some "identity")
                   (Some 3600) state0)
     = Raise (ValueError "Wed, 21 Oct 2015 07:28:00 GMT").
Proof.
  intros R r env.
  assert (H1 : _client client_open = true) by reflexivity.
  assert (H2 : 1 <= max_retries client_open) by (simpl; lia).
  assert (H3 : py_int "Wed, 21 Oct 2015 07:28:00 GMT" = None) by reflexivity.
  destruct (X14_response_errors_propagate R env client_open "GET" "/identity"
              (Some "identity") (Some 3600) state0 r H1 H2 eq_refl eq_refl)
    as [Hv _].
  split; [exact H1|]. split; [exact H2|]. split; [exact H3|].
  now rewrite (Hv _ eq_refl eq_refl H3).
Defined.


Lemma check_response_not_KeyError `{PyRuntime} (path : string) (r : Response) :
  check_response path r <> Raise KeyError.
Proof.
  unfold check_response.
  repeat match goal with
    | |- context [if ?b then _ else _] => destruct b
    | |- context [match ?x with _ => _ end] => destruct x
    end; discriminate.
Qed.

Lemma invalidate_pattern_inv `{PyRuntime} (c : InMemoryCache) (pattern : string) :
  match Cache.invalidate_pattern c pattern with
  | Ok (_, c') =>
      exists regex,
        c' = with_cache c (filter (fun p => negb (re_match regex (fst p))) (_cache c))
  | Raise e => e = ReError pattern
  end.
Proof.
  destruct (re_compile pattern) as [regex|] eqn:E.
  - rewrite (invalidate_pattern_Ok c pattern regex E). now exists regex.
  - unfold Cache.invalidate_pattern. now rewrite E.
Qed.

Section RequestInvariant.

Context `{PyRuntime}.
Variable env : Env.
Variable self : WorldAnvilClient.
Variables method path : string.
Variable cache_key : option string.
Variable cache_ttl : option Z.

Lemma keeps_refl (st : State) : cache_ok st -> keeps st st.
Proof. intros Hok. now split. Qed.

Lemma keeps_trans (st1 st2 st3 : State) :
  keeps st1 st2 -> keeps st2 st3 -> keeps st1 st3.
Proof. intros [_ E1] [H2 E2]. split; [exact H2 | congruence]. Qed.

Lemma keeps_world (st : State) (now : Q) (calls rolls : nat) (trace : list Event) :
  cache_ok st -> keeps st (mkState (st_cache st) now calls rolls trace).
Proof. intros Hok. now split. Qed.

Lemma consult_cache_keeps (st : State) :
  cache_ok st -> keeps st (snd (consult_cache method cache_key st)).
Proof.
  intros [Hwf Hcap]. rewrite consult_cache_spec.
  destruct (cacheable method cache_key) as [key|]; [|now split].
  cbn [snd]. unfold keeps, cache_ok. cbn [set_cache st_cache].
  pose proof (wf_get (st_cache st) key (st_now st) Hwf) as Hwf'.
  assert (Hm : _max_entries (snd (Cache.get (st_cache st) key (st_now st)))
               = _max_entries (st_cache st)).
  { unfold Cache.get. destruct (OrderedDict.lookup _ _); [|reflexivity].
    now destruct (Cache.is_expired _ _). }
  rewrite Hm. auto.
Qed.

Lemma handle_response_keeps (r : Response) (st : State) :
  cache_ok st ->
  keeps st (snd (handle_response self method path cache_key cache_ttl r st))
  /\ fst (handle_response self method path cache_key cache_ttl r st)
     <> Raise KeyError.
Proof.
  intros [Hwf Hcap]. unfold handle_response, bind, lift, ret.
  destruct (check_response path r) as [data|e] eqn:Echeck.
  2:{ split; [now apply keeps_refl|]. cbn [fst]. intros Heq.
      apply (check_response_not_KeyError path r). congruence. }
  set (m1 := match cacheable method cache_key with
             | Some key => _ | None => _ end).
  assert (H1 : keeps st (snd (m1 st)) /\ fst (m1 st) <> Raise KeyError).
  { unfold m1. destruct (cacheable method cache_key) as [key|].
    - unfold cache_set.
      match goal with
      | |- context [Cache.set ?c ?k ?v ?t ?n] =>
          destruct (set_succeeds c k v t n Hcap) as [c' Hs]; rewrite Hs
      end.
      cbn [fst snd]. split; [|discriminate].
      destruct (wf_set _ _ _ _ _ _ Hwf Hs) as [Hwf' _].
      destruct (set_config _ _ _ _ _ _ Hs) as [Hm _].
      unfold keeps, cache_ok. cbn [set_cache st_cache]. rewrite Hm. auto.
    - split; [now apply keeps_refl | discriminate]. }
  destruct (m1 st) as [[[]|e1] st1]; cbn [fst snd] in H1 |- *;
    [|destruct H1 as [K1 Hne]; split; [exact K1|];
      intros Heq; apply Hne; congruence].
  destruct H1 as [K1 _].
  destruct (is_write_method method); [|split; [exact K1 | discriminate]].
  destruct (negb (String.eqb (resource_type_of path) ""));
    [|split; [exact K1 | discriminate]].
  rewrite cache_invalidate_pattern_unfold.
  pose proof (invalidate_pattern_inv (st_cache st1)
                (".*" ++ resource_type_of path ++ ".*")) as Hinv.
  destruct (Cache.invalidate_pattern (st_cache st1) _) as [[n c]|x];
    cbn [fst snd].
  - split; [|discriminate]. destruct Hinv as [regex ->].
    destruct K1 as [[Hwf1 Hcap1] Hm1].
    unfold keeps, cache_ok. cbn [set_cache st_cache with_cache _max_entries].
    split; [split; [|exact Hcap1] | exact Hm1].
    exact (wf_filter (st_cache st1) (fun k => negb (re_match regex k)) Hwf1).
  - split; [exact K1|]. rewrite Hinv. discriminate.
Qed.

Lemma attempts_keeps (remaining : nat) (attempt : Z)
    (last_error : option TransportError) (st : State) :
  cache_ok st ->
  keeps st (snd (attempts env self method path cache_key cache_ttl remaining
                          attempt last_error st))
  /\ fst (attempts env self method path cache_key cache_ttl remaining
                   attempt last_error st) <> Raise KeyError.
Proof.
  revert attempt last_error st.
  induction remaining as [|n IH]; intros attempt last_error st Hok.
  - split; [now apply keeps_refl | discriminate].
  - rewrite attempts_S. cbv zeta.
    assert (K1 : keeps st (after_call env method path st))
      by (apply keeps_world; exact Hok).
    destruct (net env (st_calls st)) as [r|te|msg].
    + destruct (handle_response_keeps r (after_call env method path st) (proj1 K1))
        as [K2 Hne].
      split; [exact (keeps_trans _ _ _ K1 K2) | exact Hne].
    + rewrite on_transport_error_spec.
      destruct (attempt <? max_retries self - 1).
      * destruct (backoff attempt _) as [delay|ex] eqn:Eb.
        -- match goal with
           | |- context [attempts _ _ _ _ _ _ n ?a ?le ?s] =>
               assert (K2 : keeps (after_call env method path st) s)
                 by (apply keeps_world; exact (proj1 K1));
               destruct (IH a le s (proj1 K2)) as [K3 Hne]
           end.
           split; [|exact Hne].
           exact (keeps_trans _ _ _ K1 (keeps_trans _ _ _ K2 K3)).
        -- cbn [fst snd]. rewrite (backoff_raises _ _ _ Eb).
           split; [|discriminate].
           refine (keeps_trans _ _ _ K1 _). apply keeps_world. exact (proj1 K1).
      * destruct (IH (attempt + 1) (Some te) _ (proj1 K1)) as [K3 Hne].
        split; [exact (keeps_trans _ _ _ K1 K3) | exact Hne].
    + split; [exact K1 | discriminate].
Qed.

Lemma request_keeps (st : State) :
  cache_ok st ->
  keeps st (snd (_request env self method path cache_key cache_ttl st))
  /\ fst (_request env self method path cache_key cache_ttl st) <> Raise KeyError.
Proof.
  intros Hok. rewrite request_unfold. cbv zeta.
  pose proof (consult_cache_keeps st Hok) as K1.
  destruct (fst (consult_cache method cache_key st)) as [cached|x] eqn:Ec.
  - destruct (is_none cached); cbn [negb]; [|split; [exact K1 | discriminate]].
    destruct (_client self); cbn [negb]; [|split; [exact K1 | discriminate]].
    destruct (attempts_keeps (Z.to_nat (max_retries self)) 0 None _ (proj1 K1))
      as [K2 Hne].
    split; [exact (keeps_trans _ _ _ K1 K2) | exact Hne].
  - rewrite consult_cache_spec in Ec.
    destruct (cacheable method cache_key); discriminate.
Qed.

End RequestInvariant.

Lemma run_calls_keeps `{PyRuntime} (env : Env) (calls : list Call) (st : State) :
  cache_ok st -> keeps st (run_calls env calls st).
Proof.
  revert st. induction calls as [|c calls IH]; intros st Hok.
  - now apply keeps_refl.
  - unfold run_calls. simpl fold_left. fold (run_calls env calls (snd (do_call env st c))).
    destruct (request_keeps env (call_client c) (call_method c) (call_path c)
                (call_key c) (call_ttl c) st Hok) as [K1 _].
    exact (keeps_trans _ _ _ K1 (IH _ (proj1 K1))).
Qed.

(** X15 (the client's cache stays within its 1000 entries).  Start from the
    cache a new client creates and make any sequence of requests, with any
    verbs, paths, keys and TTLs, answered or failing in any way, on the
    client open or closed.  The cache then has distinct keys and at most
    1000 entries, its capacity is still 1000, and no request raises the
    [KeyError] that a [set] raises on a cache without capacity. *)
Theorem X15_client_cache_bounded (R : PyRuntime) (env : Env) (cache_ttl : Z)
    (now : Q) (calls : list Call) (c : Call) :
  let st := run_calls env calls (mkState (client_cache_init cache_ttl) now 0 0 []) in
  NoDup (cache_keys (st_cache st))
  /\ cache_len (st_cache st) <= 1000
  /\ _max_entries (st_cache st) = 1000
  /\ fst (do_call env st c) <> Raise KeyError.
Proof.
  cbv zeta.
  set (st0 := mkState (client_cache_init cache_ttl) now 0 0 []).
  assert (Hok0 : cache_ok st0).
  { split; [apply wf_init | simpl; lia]. }
  destruct (run_calls_keeps env calls st0 Hok0) as [[[Hnd Hlen] Hcap] Hm].
  simpl in Hm. rewrite Hm in Hlen.
  split; [exact Hnd|]. split; [lia|]. split; [exact Hm|].
  apply request_keeps. split; [split; [exact Hnd | rewrite Hm; exact Hlen] | lia].
Qed.

Lemma lookup_filter_sub (g : string -> bool) (d : OrderedDict.t) (k : string)
    (e : CacheEntry) :
  OrderedDict.lookup k (filter (fun p => g (fst p)) d) = Some e ->
  OrderedDict.lookup k d = Some e.
Proof.
  destruct (g k) eqn:E.
  - now rewrite (lookup_filter_keep g d k E).
  - now rewrite (lookup_filter_drop g d k E).
Qed.

Section NoCacheKey.

Context `{PyRuntime}.
Variable env : Env.
Variable self : WorldAnvilClient.
Variables method path : string.
Variable cache_key : option string.
Variable cache_ttl : option Z.
Hypothesis Hnokey : cacheable method cache_key = None.

Lemma shrinks_refl (st : State) : shrinks method st st.
Proof. split; auto. Qed.

Lemma shrinks_trans (st1 st2 st3 : State) :
  shrinks method st1 st2 -> shrinks method st2 st3 -> shrinks method st1 st3.
Proof.
  intros [A1 B1] [A2 B2]. split.
  - intros k e Hl. apply A1, A2, Hl.
  - intros Hw. rewrite (B2 Hw). exact (B1 Hw).
Qed.

Lemma handle_response_shrinks (r : Response) (st : State) :
  shrinks method st
    (snd (handle_response self method path cache_key cache_ttl r st)).
Proof.
  unfold handle_response, bind, lift, ret. rewrite Hnokey.
  destruct (check_response path r) as [data|e]; [|apply shrinks_refl].
  destruct (is_write_method method) eqn:Ew; [|apply shrinks_refl].
  destruct (negb (String.eqb (resource_type_of path) "")); [|apply shrinks_refl].
  rewrite cache_invalidate_pattern_unfold.
  pose proof (invalidate_pattern_inv (st_cache st)
                (".*" ++ resource_type_of path ++ ".*")) as Hinv.
  destruct (Cache.invalidate_pattern (st_cache st) _) as [[n c]|x];
    cbn [fst snd]; [|apply shrinks_refl].
  destruct Hinv as [regex ->]. split.
  - intros k e. cbn [set_cache st_cache with_cache _cache].
    apply (lookup_filter_sub (fun k => negb (re_match regex k))).
  - rewrite Ew. discriminate.
Qed.

Lemma attempts_shrinks (remaining : nat) (attempt : Z)
    (last_error : option TransportError) (st : State) :
  shrinks method st
    (snd (attempts env self method path cache_key cache_ttl remaining attempt
                   last_error st)).
Proof.
  revert attempt last_error st.
  induction remaining as [|n IH]; intros attempt last_error st;
    [apply shrinks_refl|].
  rewrite attempts_S. cbv zeta.
  assert (S1 : shrinks method st (after_call env method path st))
    by (split; auto).
  destruct (net env (st_calls st)) as [r|te|msg].
  - exact (shrinks_trans _ _ _ S1 (handle_response_shrinks r _)).
  - rewrite on_transport_error_spec.
    destruct (attempt <? max_retries self - 1).
    + destruct (backoff attempt _) as [delay|ex].
      * refine (shrinks_trans _ _ _ S1 (shrinks_trans _ _ _ _ (IH _ _ _))).
        split; auto.
      * refine (shrinks_trans _ _ _ S1 _). split; auto.
    + exact (shrinks_trans _ _ _ S1 (IH _ _ _)).
  - exact S1.
Qed.

Lemma request_shrinks (st : State) :
  shrinks method st (snd (_request env self method path cache_key cache_ttl st)).
Proof.
  rewrite request_unfold, consult_cache_spec, Hnokey. cbv zeta.
  cbn [fst snd is_none negb].
  destruct (_client self); cbn [negb]; [|apply shrinks_refl].
  apply attempts_shrinks.
Qed.

End NoCacheKey.

(** X16 (only a GET with a key writes to the cache).  A request whose verb
    is not exactly [GET], or that carries no cache key or an empty one,
    never reads the cache and never adds or changes an entry: every entry
    found afterwards was there before, with the same value and expiry.  If
    moreover the verb is not one of POST, PATCH, PUT and DELETE, the cache
    after the request is the cache before it. *)
Theorem X16_only_get_populates (R : PyRuntime) (env : Env)
    (self : WorldAnvilClient) (method path : string) (cache_key : option string)
    (cache_ttl : option Z) (st : State) :
  method <> "GET" \/ cache_key = None \/ cache_key = Some "" ->
  let out := _request env self method path cache_key cache_ttl st in
  consult_cache method cache_key st = (Ok PyNone, st)
  /\ (forall k e,
         OrderedDict.lookup k (_cache (st_cache (snd out))) = Some e ->
         OrderedDict.lookup k (_cache (st_cache st)) = Some e)
  /\ (is_write_method method = false -> st_cache (snd out) = st_cache st).
Proof.
  intros Hcase. cbv zeta.
  assert (Hnokey : cacheable method cache_key = None).
  { unfold cacheable. destruct cache_key as [key|]; [|reflexivity].
    destruct Hcase as [Hm|[Hk|Hk]].
    - destruct (String.eqb method "GET") eqn:E; [|reflexivity].
      apply String.eqb_eq in E. contradiction.
    - discriminate.
    - injection Hk as ->. now rewrite andb_false_r. }
  split; [rewrite consult_cache_spec, Hnokey; reflexivity|].
  exact (request_shrinks env self method path cache_key cache_ttl Hnokey st).
Qed.

(** A lower-case verb: the key is ignored and the cache left alone. *)
Lemma X16_only_get_populates_witness :
  let R := mini_runtime in
  let out := _request env_ok client_open "get" "/identity" (Some "identity")
                      (Some 3600) state0 in
  ("get" <> "GET" \/ Some "identity" = None \/ Some "identity" = Some "")
  /\ is_write_method "get" = false
  /\ fst out = Ok ok_body
  /\ st_cache (snd out) = st_cache state0.
Proof.
  intros R out.
  assert (H1 : "get" <> "GET" \/ Some "identity" = @None string
               \/ Some "identity" = Some "") by (left; discriminate).
  destruct (X16_only_get_populates R env_ok client_open "get" "/identity"
              (Some "identity") (Some 3600) state0 H1) as [_ [_ Hsame]].
  split; [exact H1|]. split; [reflexivity|]. split; [reflexivity|].
  exact (Hsame eq_refl).
Defined.



(** * Properties of the endpoint methods *)

Lemma uint_no_colon (d : Decimal.uint) :
  contains_char ":" (DecimalString.NilEmpty.string_of_uint d) = false.
Proof. induction d; simpl; try assumption; reflexivity. Qed.

Lemma py_str_no_colon (n : Z) : contains_char ":" (py_str n) = false.
Proof.
  unfold py_str. destruct (Z.to_int n) as [d|d]; simpl.
  - destruct d; try reflexivity; simpl; apply uint_no_colon.
  - destruct d; try reflexivity; simpl; apply uint_no_colon.
Qed.

Lemma py_str_inj (a b : Z) : py_str a = py_str b -> a = b.
Proof.
  unfold py_str. intros Heq.
  assert (Hn : forall z, Z.to_int z <> Decimal.Pos Decimal.Nil
                         /\ Z.to_int z <> Decimal.Neg Decimal.Nil).
  { intros [|p|p]; simpl; split; try discriminate;
      intros [= Hp]; exact (DecimalPos.Unsigned.to_uint_nonnil p Hp). }
  pose proof (DecimalString.NilZero.isi (Z.to_int a) (proj1 (Hn a)) (proj2 (Hn a)))
    as Ha.
  pose proof (DecimalString.NilZero.isi (Z.to_int b) (proj1 (Hn b)) (proj2 (Hn b)))
    as Hb.
  rewrite Heq in Ha. rewrite Ha in Hb. injection Hb as Hab.
  rewrite <- (DecimalZ.of_to a), <- (DecimalZ.of_to b). now rewrite Hab.
Qed.

Lemma contains_char_app (c : ascii) (s t : string) :
  contains_char c (s ++ t) = contains_char c s || contains_char c t.
Proof.
  induction s as [|x s IH]; simpl; [reflexivity|].
  rewrite IH. now rewrite orb_assoc.
Qed.

(** A string is cut in one way only at its last colon. *)
Lemma last_colon_unique (s1 s2 t1 t2 : string) :
  contains_char ":" t1 = false ->
  contains_char ":" t2 = false ->
  s1 ++ ":" ++ t1 = s2 ++ ":" ++ t2 ->
  s1 = s2 /\ t1 = t2.
Proof.
  intros H1 H2. revert s2. induction s1 as [|c s1 IH]; intros s2 Heq.
  - destruct s2 as [|c2 s2]; simpl in Heq.
    + injection Heq as ->. now split.
    + injection Heq as <- ->.
      rewrite contains_char_app in H1. simpl in H1.
      rewrite orb_true_r in H1. discriminate.
  - destruct s2 as [|c2 s2]; simpl in Heq.
    + injection Heq as -> <-.
      rewrite contains_char_app in H2. simpl in H2.
      rewrite orb_true_r in H2. discriminate.
    + injection Heq as <- Heq. destruct (IH s2 Heq) as [-> ->]. now split.
Qed.

(** X17 (the cache keys of the endpoint methods never collide).  The key of
    [get_world] determines the world and the granularity, the keys of
    [get_current_user] and [list_worlds] determine the granularity, and
    keys of different methods are different strings. *)
Theorem X17_cache_keys_distinct :
  (forall (w w' : string) (g g' : Z),
      world_key w g = world_key w' g' -> w = w' /\ g = g')
  /\ (forall g g' : Z, user_key g = user_key g' -> g = g')
  /\ (forall g g' : Z, worlds_key g = worlds_key g' -> g = g')
  /\ (forall (w : string) (g g' : Z),
         world_key w g <> worlds_key g'
         /\ world_key w g <> user_key g'
         /\ world_key w g <> identity_key)
  /\ (forall g g' : Z,
         worlds_key g <> user_key g'
         /\ worlds_key g <> identity_key
         /\ user_key g <> identity_key).
Proof.
  split; [|split; [|split; [|split]]].
  - intros w w' g g' Heq. unfold world_key in Heq. simpl in Heq.
    injection Heq as Heq.
    destruct (last_colon_unique w w' (py_str g) (py_str g')
                (py_str_no_colon g) (py_str_no_colon g') Heq) as [-> Hs].
    split; [reflexivity | exact (py_str_inj _ _ Hs)].
  - intros g g' Heq. unfold user_key in Heq. simpl in Heq.
    injection Heq as Heq. exact (py_str_inj _ _ Heq).
  - intros g g' Heq. unfold worlds_key in Heq. simpl in Heq.
    injection Heq as Heq. exact (py_str_inj _ _ Heq).
  - intros w g g'. unfold world_key, worlds_key, user_key, identity_key.
    repeat split; intros Heq; simpl in Heq; discriminate.
  - intros g g'. unfold worlds_key, user_key, identity_key.
    repeat split; intros Heq; simpl in Heq; discriminate.
Qed.

(** Two worlds whose identifiers contain colons. *)
Lemma X17_cache_keys_distinct_witness :
  world_key "a:1" 2 = "world:a:1:2"
  /\ world_key "a" 12 = "world:a:12"
  /\ (world_key "a:1" 2 = world_key "a:1" 2 -> "a:1" = "a:1" /\ 2 = 2).
Proof.
  split; [reflexivity|]. split; [reflexivity|].
  exact (proj1 X17_cache_keys_distinct "a:1" "a:1" 2 2).
Defined.

Lemma update_world_token (world_id : string) :
  resource_type_of ("/world/" ++ world_id) = "world".
Proof.
  change ("/world/" ++ world_id) with (String slash ("world" ++ String slash world_id)).
  apply resource_type_first_segment; [reflexivity|].
  right. now exists world_id.
Qed.

(** X18 ([update_world] drops every cached world).  The token of
    [update_world] is [world] whatever the identifier, so its pattern is
    [.*world.*].  With a regex engine for which that pattern matches every
    string that starts with [world], a successful [update_world] of any
    world leaves no [get_world] entry, of any world and granularity, and no
    [list_worlds] entry in the cache; the entries whose keys the pattern
    does not match stay as they were. *)
Theorem X18_update_world_invalidates (R : PyRuntime) (env : Env)
    (self : WorldAnvilClient) (world_id : string) (st : State) (r : Response)
    (data : PyValue) (regex : Pattern) :
  _client self = true ->
  1 <= max_retries self ->
  net env (st_calls st) = Responded r ->
  check_response ("/world/" ++ world_id) r = Ok data ->
  re_compile ".*world.*" = Some regex ->
  (forall s, re_match regex ("world" ++ s) = true) ->
  let out := update_world env self world_id st in
  resource_type_of ("/world/" ++ world_id) = "world"
  /\ fst out = Ok data
  /\ (forall w g,
         OrderedDict.lookup (world_key w g) (_cache (st_cache (snd out))) = None)
  /\ (forall g,
         OrderedDict.lookup (worlds_key g) (_cache (st_cache (snd out))) = None)
  /\ (forall k, re_match regex k = false ->
         OrderedDict.lookup k (_cache (st_cache (snd out))) =
         OrderedDict.lookup k (_cache (st_cache st))).
Proof.
  intros Hopen Hretries Hnet Hok Hre Hmatch. cbv zeta.
  pose proof (update_world_token world_id) as Htok.
  split; [exact Htok|].
  unfold update_world.
  rewrite (write_invalidates env self Hopen Hretries "PATCH" ("/world/" ++ world_id)
             None None st r data regex eq_refl Hnet Hok).
  - cbn [fst snd set_cache st_cache with_cache _cache].
    split; [reflexivity|]. split; [|split].
    + intros w g. apply (lookup_filter_drop (fun k => negb (re_match regex k))).
      change (world_key w g) with ("world" ++ (":" ++ w ++ ":" ++ py_str g)).
      now rewrite Hmatch.
    + intros g. apply (lookup_filter_drop (fun k => negb (re_match regex k))).
      change (worlds_key g) with ("world" ++ ("s:list:" ++ py_str g)).
      now rewrite Hmatch.
    + intros k Hk. apply (lookup_filter_keep (fun k => negb (re_match regex k))).
      now rewrite Hk.
  - rewrite Htok. discriminate.
  - rewrite Htok. exact Hre.
Qed.

Lemma mini_world_pattern (s : string) :
  match MiniRe.compile ".*world.*" with
  | Some regex => MiniRe.matches regex ("world" ++ s) = true
  | None => False
  end.
Proof.
  cbv [MiniRe.compile]. cbn.
  now apply matches_nullable.
Qed.

(** The world of the integration test, with a second world and the world
    list in the cache. *)
Lemma X18_update_world_invalidates_witness :
  let R := mini_runtime in
  let st := run_calls env_ok
              [mkCall client_open "GET" "/world/w1" (Some (world_key "w1" 1)) (Some 300);
               mkCall client_open "GET" "/world/w2" (Some (world_key "w2" 2)) (Some 300);
               mkCall client_open "GET" "/user/worlds" (Some (worlds_key 1)) (Some 300);
               mkCall client_open "GET" "/identity" (Some identity_key) (Some 3600)]
              state0 in
  let out := update_world env_ok client_open "w1" st in
  _client client_open = true
  /\ 1 <= max_retries client_open
  /\ cache_keys (st_cache st) = ["world:w1:1"; "world:w2:2"; "worlds:list:1"; "identity"]
  /\ fst out = Ok ok_body
  /\ OrderedDict.lookup (world_key "w2" 2) (_cache (st_cache (snd out))) = None
  /\ cache_keys (st_cache (snd out)) = ["identity"].
Proof.
  intros R st out.
  assert (H1 : _client client_open = true) by reflexivity.
  assert (H2 : 1 <= max_retries client_open) by (simpl; lia).
  destruct (MiniRe.compile ".*world.*") as [regex|] eqn:Hre; [|discriminate].
  assert (Hm : forall s, re_match regex ("world" ++ s) = true).
  { intros s. pose proof (mini_world_pattern s) as Hs. now rewrite Hre in Hs. }
  destruct (X18_update_world_invalidates R env_ok client_open "w1" st
              (mkResponse 200 None "" (Some ok_body)) ok_body regex
              H1 H2 eq_refl eq_refl Hre Hm) as [_ [Hok [Hw _]]].
  split; [exact H1|]. split; [exact H2|]. split; [reflexivity|].
  split; [exact Hok|]. split; [exact (Hw "w2" 2) | reflexivity].
Defined.

(** A read that misses, is answered and stored, and the same key read
    again at once, by the client in any condition. *)
Lemma read_then_hit `{PyRuntime} (env : Env) (self self' : WorldAnvilClient)
    (path path' key : string) (ttl : Z) (st : State) (r : Response)
    (data : PyValue) :
  _client self = true ->
  1 <= max_retries self ->
  key <> "" ->
  OrderedDict.lookup key (_cache (st_cache st)) = None ->
  1 <= _max_entries (st_cache st) ->
  net env (st_calls st) = Responded r ->
  check_response path r = Ok data ->
  data <> PyNone ->
  0 < ttl ->
  exists s1 s2,
    _request env self "GET" path (Some key) (Some ttl) st = (Ok data, s1)
    /\ st_calls s1 = S (st_calls st)
    /\ OrderedDict.lookup key (_cache (st_cache s1)) =
       Some (mkCacheEntry data (st_now s1 + inject_Z ttl)%Q)
    /\ _request env self' "GET" path' (Some key) (Some ttl) s1 = (Ok data, s2)
    /\ st_calls s2 = st_calls s1
    /\ st_trace s2 = st_trace s1.
Proof.
  intros Hopen Hretries Hkey Hl Hcap Hnet Hok Hdata Hpos.
  rewrite (request_answered env self "GET" path (Some key) (Some ttl) st r
             Hopen Hretries);
    [|now rewrite (consult_absent key st Hkey Hl) | exact Hnet].
  rewrite (consult_absent key st Hkey Hl). cbn [snd].
  destruct (handle_response_read self path key (Some ttl)
              (after_call env "GET" path st) r data Hkey Hcap Hok)
    as [c' [Hset E1]].
  rewrite E1.
  set (s1 := set_cache (after_call env "GET" path st) c').
  pose proof (set_lookup_same _ _ _ _ _ _ Hset) as Hl1. cbv beta iota in Hl1.
  assert (Hl1' : OrderedDict.lookup key (_cache (st_cache s1)) =
                 Some (mkCacheEntry data (st_now s1 + inject_Z ttl)%Q))
    by exact Hl1.
  assert (Hlive : Cache.is_expired (st_now s1)
                    (mkCacheEntry data (st_now s1 + inject_Z ttl)%Q) = false).
  { apply is_expired_false. cbn [expires_at].
    assert (inject_Z 0 < inject_Z ttl)%Q by (rewrite <- Zlt_Qlt; exact Hpos).
    change (inject_Z 0) with 0%Q in H0. lra. }
  eexists s1, _. split; [reflexivity|]. split; [reflexivity|].
  split; [exact Hl1'|].
  split; [exact (request_hit env self' path' key (Some ttl) s1 _ Hkey Hl1' Hlive Hdata)|].
  split; reflexivity.
Qed.

(** X19 (the cache outlives the session).  A value read and cached inside
    [async with] is still served, without any network call, after
    [__aexit__] has closed the client, as long as the entry is live; a read
    of a key that is not cached then raises the "Client not initialized"
    error. *)
Theorem X19_cache_outlives_session (R : PyRuntime) (env : Env)
    (self : WorldAnvilClient) (path key : string) (ttl : Z) (st : State)
    (r : Response) (data : PyValue) :
  1 <= max_retries self ->
  key <> "" ->
  OrderedDict.lookup key (_cache (st_cache st)) = None ->
  1 <= _max_entries (st_cache st) ->
  net env (st_calls st) = Responded r ->
  check_response path r = Ok data ->
  data <> PyNone ->
  0 < ttl ->
  let opened := aenter self in
  let closed := aexit opened in
  let out1 := _request env opened "GET" path (Some key) (Some ttl) st in
  let out2 := _request env closed "GET" path (Some key) (Some ttl) (snd out1) in
  fst out1 = Ok data
  /\ fst out2 = Ok data
  /\ st_calls (snd out2) = S (st_calls st)
  /\ (forall path' key' ttl',
         OrderedDict.lookup key' (_cache (st_cache (snd out1))) = None ->
         fst (_request env closed "GET" path' (Some key') ttl' (snd out1))
         = Raise ClientNotInitialized).
Proof.
  intros Hretries Hkey Hl Hcap Hnet Hok Hdata Hpos. cbv zeta.
  destruct (read_then_hit env (aenter self) (aexit (aenter self)) path path key ttl
              st r data eq_refl Hretries Hkey Hl Hcap Hnet Hok Hdata Hpos)
    as [s1 [s2 [E1 [Hc1 [_ [E2 [Hc2 _]]]]]]].
  rewrite E1. cbn [fst snd]. rewrite E2. cbn [fst snd].
  split; [reflexivity|]. split; [reflexivity|]. split; [congruence|].
  intros path' key' ttl' Hl'. rewrite request_unfold, consult_cache_spec. cbv zeta.
  destruct (cacheable "GET" (Some key')) as [k|] eqn:Eck.
  - destruct (cacheable_Some_inv _ _ _ Eck) as [_ [[= <-] _]].
    unfold Cache.get. rewrite Hl'. reflexivity.
  - reflexivity.
Qed.

(** The identity, read inside the session and again after it. *)
Lemma X19_cache_outlives_session_witness :
  let R := mini_runtime in
  let self := client_init 3 300 in
  let out1 := _request env_ok (aenter self) "GET" "/identity" (Some "identity")
                       (Some 3600) state0 in
  let out2 := _request env_ok (aexit (aenter self)) "GET" "/identity"
                       (Some "identity") (Some 3600) (snd out1) in
  1 <= max_retries self
  /\ 0 < 3600
  /\ fst out2 = Ok ok_body
  /\ st_calls (snd out2) = 1%nat
  /\ fst (_request env_ok (aexit (aenter self)) "GET" "/user" (Some "user:self:1")
                   (Some 3600) (snd out1)) = Raise ClientNotInitialized.
Proof.
  intros R self out1 out2.
  assert (H1 : 1 <= max_retries self) by (simpl; lia).
  assert (H2 : 0 < 3600) by lia.
  destruct (X19_cache_outlives_session R env_ok self "/identity" "identity" 3600
              state0 (mkResponse 200 None "" (Some ok_body)) ok_body
              H1 ltac:(discriminate) eq_refl ltac:(simpl; lia) eq_refl eq_refl
              ltac:(discriminate) H2) as [_ [E2 [Hc Hraise]]].
  split; [exact H1|]. split; [exact H2|]. split; [exact E2|]. split; [exact Hc|].
  apply Hraise. reflexivity.
Defined.

(** X20 (the read methods are cached).  On an initialised client that
    allows one attempt and whose cache has room, each of [get_identity],
    [get_current_user], [list_worlds] and [get_world], when its key is not
    cached and its first attempt is answered successfully with a body other
    than [None], makes one network call, and the same method called again
    at once returns the same value with no further call.  [list_worlds]
    returns the [worlds] member of an object that has one and the body
    itself otherwise, both times. *)
Theorem X20_endpoint_reads_cached (R : PyRuntime) (env : Env)
    (self : WorldAnvilClient) (st : State) (r : Response) (data : PyValue) :
  _client self = true ->
  1 <= max_retries self ->
  1 <= _max_entries (st_cache st) ->
  net env (st_calls st) = Responded r ->
  data <> PyNone ->
  (check_response "/identity" r = Ok data ->
   OrderedDict.lookup identity_key (_cache (st_cache st)) = None ->
   let out1 := get_identity env self st in
   let out2 := get_identity env self (snd out1) in
   fst out1 = Ok data /\ fst out2 = Ok data
   /\ st_calls (snd out2) = S (st_calls st))
  /\ (forall g,
         check_response "/user" r = Ok data ->
         OrderedDict.lookup (user_key g) (_cache (st_cache st)) = None ->
         let out1 := get_current_user env self g st in
         let out2 := get_current_user env self g (snd out1) in
         fst out1 = Ok data /\ fst out2 = Ok data
         /\ st_calls (snd out2) = S (st_calls st))
  /\ (forall g,
         check_response "/user/worlds" r = Ok data ->
         OrderedDict.lookup (worlds_key g) (_cache (st_cache st)) = None ->
         let out1 := list_worlds env self g st in
         let out2 := list_worlds env self g (snd out1) in
         fst out1 = Ok (normalize_worlds data)
         /\ fst out2 = Ok (normalize_worlds data)
         /\ st_calls (snd out2) = S (st_calls st))
  /\ (forall w g,
         check_response ("/world/" ++ w) r = Ok data ->
         OrderedDict.lookup (world_key w g) (_cache (st_cache st)) = None ->
         let out1 := get_world env self w g st in
         let out2 := get_world env self w g (snd out1) in
         fst out1 = Ok data /\ fst out2 = Ok data
         /\ st_calls (snd out2) = S (st_calls st)).
Proof.
  intros Hopen Hretries Hcap Hnet Hdata.
  assert (Hgen : forall path key ttl,
             key <> "" -> 0 < ttl ->
             check_response path r = Ok data ->
             OrderedDict.lookup key (_cache (st_cache st)) = None ->
             exists s1 s2,
               _request env self "GET" path (Some key) (Some ttl) st = (Ok data, s1)
               /\ _request env self "GET" path (Some key) (Some ttl) s1 = (Ok data, s2)
               /\ st_calls s2 = S (st_calls st)).
  { intros path key ttl Hkey Hpos Hok Hl.
    destruct (read_then_hit env self self path path key ttl st r data
                Hopen Hretries Hkey Hl Hcap Hnet Hok Hdata Hpos)
      as [s1 [s2 [E1 [Hc1 [_ [E2 [Hc2 _]]]]]]].
    exists s1, s2. split; [exact E1|]. split; [exact E2 | congruence]. }
  split; [|split; [|split]].
  - intros Hok Hl. cbv zeta. unfold get_identity.
    destruct (Hgen "/identity" identity_key 3600 ltac:(discriminate) ltac:(lia)
                Hok Hl) as [s1 [s2 [E1 [E2 Hc]]]].
    rewrite E1. cbn [fst snd]. rewrite E2. auto.
  - intros g Hok Hl. cbv zeta. unfold get_current_user.
    destruct (Hgen "/user" (user_key g) 3600 ltac:(discriminate) ltac:(lia)
                Hok Hl) as [s1 [s2 [E1 [E2 Hc]]]].
    rewrite E1. cbn [fst snd]. rewrite E2. auto.
  - intros g Hok Hl. cbv zeta. unfold list_worlds, bind, ret.
    destruct (Hgen "/user/worlds" (worlds_key g) 300 ltac:(discriminate) ltac:(lia)
                Hok Hl) as [s1 [s2 [E1 [E2 Hc]]]].
    rewrite E1. cbn [fst snd]. rewrite E2. auto.
  - intros w g Hok Hl. cbv zeta. unfold get_world.
    destruct (Hgen ("/world/" ++ w) (world_key w g) 300 ltac:(discriminate)
                ltac:(lia) Hok Hl) as [s1 [s2 [E1 [E2 Hc]]]].
    rewrite E1. cbn [fst snd]. rewrite E2. auto.
Qed.

(** The world list wrapped in a [worlds] member. *)
Lemma X20_endpoint_reads_cached_witness :
  let R := mini_runtime in
  let body := PyDict [("worlds", PyList [world_named "Alpha"])] in
  let env := mkEnv (fun _ => Responded (mkResponse 200 None "" (Some body)))
                   (fun _ => 0%Q) (fun _ => 0%Q) in
  let out1 := list_worlds env client_open 2 state0 in
  let out2 := list_worlds env client_open 2 (snd out1) in
  _client client_open = true
  /\ 1 <= max_retries client_open
  /\ 1 <= _max_entries (st_cache state0)
  /\ body <> PyNone
  /\ fst out2 = Ok (PyList [world_named "Alpha"])
  /\ st_calls (snd out2) = 1%nat.
Proof.
  intros R body env out1 out2.
  assert (H1 : _client client_open = true) by reflexivity.
  assert (H2 : 1 <= max_retries client_open) by (simpl; lia).
  assert (H3 : 1 <= _max_entries (st_cache state0)) by (simpl; lia).
  assert (H4 : body <> PyNone) by discriminate.
  destruct (X20_endpoint_reads_cached R env client_open state0
              (mkResponse 200 None "" (Some body)) body H1 H2 H3 eq_refl H4)
    as [_ [_ [Hw _]]].
  destruct (Hw 2 eq_refl eq_refl) as [_ [E2 Hc]].
  split; [exact H1|]. split; [exact H2|]. split; [exact H3|]. split; [exact H4|].
  split; [exact E2 | exact Hc].
Defined.


(** * Further edge cases *)

(** X21 (no attempt allowed).  With [max_retries <= 0] the loop body never
    runs: a request that is not answered from the cache, on an initialised
    client, raises the "request failed after N attempts" error with no
    transport error to report and without any network call, sleep or change
    to the cache the consultation left. *)
Theorem X21_no_attempt_allowed (R : PyRuntime) (env : Env)
    (self : WorldAnvilClient) (method path : string) (cache_key : option string)
    (cache_ttl : option Z) (st : State) :
  _client self = true ->
  max_retries self <= 0 ->
  fst (consult_cache method cache_key st) = Ok PyNone ->
  _request env self method path cache_key cache_ttl st =
  (Raise (RequestFailed (max_retries self) None),
   snd (consult_cache method cache_key st))
  /\ st_trace (snd (consult_cache method cache_key st)) = st_trace st
  /\ st_calls (snd (consult_cache method cache_key st)) = st_calls st.
Proof.
  intros Hopen Hz Hmiss.
  destruct (consult_cache_same_world method cache_key st) as [_ [Hc [_ Ht]]].
  split; [|split; assumption].
  rewrite request_unfold. cbv zeta. rewrite Hmiss. cbn [is_none negb].
  rewrite Hopen. cbn [negb].
  replace (Z.to_nat (max_retries self)) with 0%nat by lia. reflexivity.
Qed.

(** A client made with [max_retries=0]. *)
Lemma X21_no_attempt_allowed_witness :
  let R := mini_runtime in
  let self := aenter (client_init 0 300) in
  _client self = true
  /\ max_retries self <= 0
  /\ _request env_ok self "GET" "/identity" (Some "identity") (Some 3600) state0
     = (Raise (RequestFailed 0 None), state0).
Proof.
  intros R self.
  assert (H1 : _client self = true) by reflexivity.
  assert (H2 : max_retries self <= 0) by (simpl; lia).
  split; [exact H1|]. split; [exact H2|].
  exact (proj1 (X21_no_attempt_allowed R env_ok self "GET" "/identity"
                  (Some "identity") (Some 3600) state0 H1 H2 eq_refl)).
Defined.

Lemma filter_idem {A : Type} (f : A -> bool) (l : list A) :
  filter f (filter f l) = filter f l.
Proof.
  induction l as [|x l IH]; simpl; [reflexivity|].
  destruct (f x) eqn:E; simpl; [rewrite E; now rewrite IH | exact IH].
Qed.

Lemma filter_none {A : Type} (f : A -> bool) (l : list A) :
  filter f (filter (fun x => negb (f x)) l) = [].
Proof.
  induction l as [|x l IH]; simpl; [reflexivity|].
  destruct (f x) eqn:E; simpl; [exact IH | rewrite E; exact IH].
Qed.

(** X22 (pattern invalidation is idempotent).  After [invalidate_pattern]
    has returned, the same pattern again removes nothing: it returns 0 and
    leaves the cache as it is. *)
Theorem X22_invalidate_pattern_idempotent (R : PyRuntime) (c c' : InMemoryCache)
    (pattern : string) (n : Z) :
  Cache.invalidate_pattern c pattern = Ok (n, c') ->
  Cache.invalidate_pattern c' pattern = Ok (0, c').
Proof.
  intros H1. destruct (re_compile pattern) as [regex|] eqn:E.
  - rewrite (invalidate_pattern_Ok c pattern regex E) in H1.
    injection H1 as _ <-.
    rewrite (invalidate_pattern_Ok _ pattern regex E).
    unfold cache_keys, with_cache. cbn [_cache _default_ttl _max_entries].
    rewrite (keys_filter (fun k => negb (re_match regex k)) (_cache c)).
    rewrite filter_none.
    now rewrite (filter_idem (fun p => negb (re_match regex (fst p)))).
  - unfold Cache.invalidate_pattern in H1. rewrite E in H1. discriminate.
Qed.

(** The pattern of the documentation, twice. *)
Lemma X22_invalidate_pattern_idempotent_witness :
  let R := mini_runtime in
  let c := run [OpSet "world:123" (PyInt 1) None 0; OpSet "user:456" (PyInt 2) None 0]
               (Cache.init 300 1000) in
  exists c', Cache.invalidate_pattern c "world:.*" = Ok (1, c')
             /\ Cache.invalidate_pattern c' "world:.*" = Ok (0, c')
             /\ cache_keys c' = ["user:456"].
Proof.
  intros R c. eexists. split; [reflexivity|]. split; [|reflexivity].
  exact (X22_invalidate_pattern_idempotent R c _ "world:.*" 1 eq_refl).
Defined.

Lemma length_delete_lt (k : string) (d : OrderedDict.t) (e : CacheEntry) :
  OrderedDict.lookup k d = Some e ->
  (List.length (OrderedDict.delete k d) < List.length d)%nat.
Proof.
  unfold OrderedDict.delete. induction d as [|[k0 e0] d IH]; simpl; [discriminate|].
  destruct (String.eqb k k0); simpl.
  - intros _. pose proof (filter_length_le
                            (fun p => negb (String.eqb k (fst p))) d). lia.
  - intros Hl. specialize (IH Hl). lia.
Qed.

Lemma set_frame (c c' : InMemoryCache) (k : string) (v : PyValue)
    (ttl : option Z) (now : Q) :
  OrderedDict.contains k (_cache c) = true \/ cache_len c < _max_entries c ->
  Cache.set c k v ttl now = Ok c' ->
  forall k', k' <> k ->
    OrderedDict.lookup k' (_cache c') = OrderedDict.lookup k' (_cache c).
Proof.
  intros Hpre Hset k' Hne.
  destruct (OrderedDict.contains k (_cache c)) eqn:Hc.
  - rewrite set_existing in Hset by exact Hc. injection Hset as <-.
    cbn [with_cache _cache]. rewrite lookup_touch.
    destruct (String.eqb k' k) eqn:E; [|reflexivity].
    apply String.eqb_eq in E. contradiction.
  - destruct Hpre as [Hx|Hroom]; [discriminate|].
    rewrite set_new_room in Hset by assumption. injection Hset as <-.
    cbn [with_cache _cache]. rewrite DictFacts.lookup_app.
    destruct (OrderedDict.lookup k' (_cache c)); [reflexivity|]. simpl.
    destruct (String.eqb k' k) eqn:E; [|reflexivity].
    apply String.eqb_eq in E. contradiction.
Qed.

Section ReadFrame.

Context `{PyRuntime}.
Variable env : Env.
Variable self : WorldAnvilClient.
Variables path key : string.
Variable cache_ttl : option Z.
Hypothesis Hkey : key <> "".

Lemma handle_response_frame (r : Response) (st : State) :
  OrderedDict.contains key (_cache (st_cache st)) = true
  \/ cache_len (st_cache st) < _max_entries (st_cache st) ->
  forall k', k' <> key ->
    OrderedDict.lookup k'
      (_cache (st_cache (snd (handle_response self "GET" path (Some key)
                                              cache_ttl r st)))) =
    OrderedDict.lookup k' (_cache (st_cache st)).
Proof.
  intros Hpre k' Hne. unfold handle_response, bind, lift, ret.
  rewrite (cacheable_GET key Hkey).
  destruct (check_response path r) as [data|e]; [|reflexivity].
  unfold cache_set.
  match goal with
  | |- context [Cache.set ?c ?k ?v ?t ?n] =>
      destruct (Cache.set c k v t n) as [c'|x] eqn:Eset
  end; cbn [fst snd]; [|reflexivity].
  cbn [is_write_method existsb String.eqb]. cbn.
  exact (set_frame _ _ _ _ _ _ Hpre Eset k' Hne).
Qed.

Lemma attempts_frame (remaining : nat) (attempt : Z)
    (last_error : option TransportError) (st : State) :
  OrderedDict.contains key (_cache (st_cache st)) = true
  \/ cache_len (st_cache st) < _max_entries (st_cache st) ->
  forall k', k' <> key ->
    OrderedDict.lookup k'
      (_cache (st_cache (snd (attempts env self "GET" path (Some key) cache_ttl
                                       remaining attempt last_error st)))) =
    OrderedDict.lookup k' (_cache (st_cache st)).
Proof.
  revert attempt last_error st.
  induction remaining as [|n IH]; intros attempt last_error st Hpre k' Hne;
    [reflexivity|].
  rewrite attempts_S. cbv zeta.
  destruct (net env (st_calls st)) as [r|te|msg].
  - now rewrite (handle_response_frame r (after_call env "GET" path st) Hpre k' Hne).
  - rewrite on_transport_error_spec.
    destruct (attempt <? max_retries self - 1);
      [destruct (backoff attempt _) as [delay|ex]; [|reflexivity]|];
      match goal with
      | |- context [attempts _ _ _ _ _ _ n ?a ?le ?s] =>
          exact (IH a le s Hpre k' Hne)
      end.
  - reflexivity.
Qed.

End ReadFrame.

(** X23 (a cached read touches its own key only).  A GET with a cache key,
    on a cache within its capacity that holds that key or has room for one
    more entry, leaves the entry of every other key as it was, whatever the
    request does: a hit, a refetch after an expiry, retries, a failure. *)
Theorem X23_read_touches_own_key (R : PyRuntime) (env : Env)
    (self : WorldAnvilClient) (path key : string) (cache_ttl : option Z)
    (st : State) :
  key <> "" ->
  cache_len (st_cache st) <= _max_entries (st_cache st) ->
  OrderedDict.contains key (_cache (st_cache st)) = true
  \/ cache_len (st_cache st) < _max_entries (st_cache st) ->
  let out := _request env self "GET" path (Some key) cache_ttl st in
  forall k', k' <> key ->
    OrderedDict.lookup k' (_cache (st_cache (snd out))) =
    OrderedDict.lookup k' (_cache (st_cache st)).
Proof.
  intros Hkey Hlen Hpre. cbv zeta. intros k' Hne.
  rewrite request_unfold, consult_cache_spec, (cacheable_GET key Hkey). cbv zeta.
  cbn [fst snd].
  set (c1 := snd (Cache.get (st_cache st) key (st_now st))).
  assert (Hk1 : OrderedDict.lookup k' (_cache c1) =
                OrderedDict.lookup k' (_cache (st_cache st)))
    by (apply get_other_lookup; congruence).
  assert (Hpre1 : OrderedDict.contains key (_cache c1) = true
                  \/ cache_len c1 < _max_entries c1).
  { unfold c1, Cache.get.
    destruct (OrderedDict.lookup key (_cache (st_cache st))) as [e|] eqn:El.
    - destruct (Cache.is_expired (st_now st) e); cbn [snd with_cache _cache _max_entries].
      + right. unfold cache_len. cbn [with_cache _cache].
        pose proof (length_delete_lt key _ e El) as Hlt.
        unfold cache_len in Hlen. lia.
      + left. apply DictFacts.contains_lookup.
        rewrite DictFacts.lookup_move_to_end_same, El. discriminate.
    - exact Hpre. }
  destruct (is_none (fst (Cache.get (st_cache st) key (st_now st))));
    cbn [negb]; [|exact Hk1].
  destruct (_client self); cbn [negb]; [|exact Hk1].
  rewrite (attempts_frame env self path key cache_ttl Hkey _ _ _
             (set_cache st c1) Hpre1 k' Hne).
  exact Hk1.
Qed.

(** A full cache of two entries, one of them read again after its expiry. *)
Lemma X23_read_touches_own_key_witness :
  let R := mini_runtime in
  let c := run [OpSet "a" (PyInt 1) (Some 1) 0; OpSet "b" (PyInt 2) (Some 100) 0]
               (Cache.init 300 2) in
  let st := mkState c 5 0 0 [] in
  let out := _request env_ok client_open "GET" "/a" (Some "a") (Some 300) st in
  "a" <> ""
  /\ cache_len (st_cache st) <= _max_entries (st_cache st)
  /\ OrderedDict.contains "a" (_cache (st_cache st)) = true
  /\ fst out = Ok ok_body
  /\ OrderedDict.lookup "b" (_cache (st_cache (snd out))) =
     Some (mkCacheEntry (PyInt 2) 100).
Proof.
  intros R c st out.
  assert (H1 : "a" <> "") by discriminate.
  assert (H2 : cache_len (st_cache st) <= _max_entries (st_cache st))
    by (vm_compute; discriminate).
  assert (H3 : OrderedDict.contains "a" (_cache (st_cache st)) = true) by reflexivity.
  split; [exact H1|]. split; [exact H2|]. split; [exact H3|]. split; [reflexivity|].
  unfold out.
  rewrite (X23_read_touches_own_key R env_ok client_open "/a" "a" (Some 300) st
             H1 H2 (or_introl H3) "b" ltac:(discriminate)).
  reflexivity.
Defined.

(** ** Writes and the read cache, for any number of attempts *)

Section WriteAfterRetries.

Context `{PyRuntime}.
Variable env : Env.
Variable self : WorldAnvilClient.
Variables method path : string.
Variable cache_key : option string.
Variable cache_ttl : option Z.
Hypothesis Hwrite : is_write_method method = true.




End WriteAfterRetries.



